(** * Voice recognition back end: similarity, enrolment quality,
      identification, verification and audio validation

    A shallow embedding of [backend/services/voice_service.py] and of
    [validate_audio] in [backend/utils/audio_processor.py].

    Numbers.  Python floats are read as real numbers: sums, quotients and
    square roots are exact, so rounding error, infinities and NaN are
    outside the model.  Where the source would produce NaN (the cosine
    distance of a zero vector) the model has the value Rocq's total
    division gives; a statement over all vectors is to be read for the
    vectors on which the source computes numbers.

    Exceptions.  A call that can raise returns [py A = exn + A]; the
    [try ... except Exception] blocks of the source are the [match]es
    that turn [inl e] into the error dictionary. *)

From Stdlib Require Import String Ascii DecimalString Reals Lra Lia ZArith Bool
  List.
From Stdlib Require Import Sorted Permutation.
Import ListNotations.
Open Scope R_scope.

(** ** Exceptions *)

Inductive exn : Type :=
| ValueError (msg : string)
| RuntimeError (msg : string)
| IndexError (msg : string)
| ZeroDivisionError.

(** [str(e)] *)
Definition str_exn (e : exn) : string :=
  match e with
  | ValueError msg => msg
  | RuntimeError msg => msg
  | IndexError msg => msg
  | ZeroDivisionError => "division by zero"
  end.

Definition py (A : Type) : Type := (exn + A)%type.

Definition ret {A : Type} (x : A) : py A := inr x.
Definition raise {A : Type} (e : exn) : py A := inl e.
Definition bind {A B : Type} (c : py A) (k : A -> py B) : py B :=
  match c with
  | inl e => inl e
  | inr x => k x
  end.

Notation "x <- c ;; k" := (bind c (fun x => k))
  (at level 61, c at next level, right associativity).
Notation "' pat <- c ;; k" :=
  (bind c (fun x => match x with pat => k end))
  (at level 61, pat pattern, c at next level, right associativity).

(** A [for] loop that appends one computed element per iteration. *)
Fixpoint for_each {A B : Type} (f : A -> py B) (xs : list A) : py (list B) :=
  match xs with
  | [] => ret []
  | x :: rest =>
      y <- f x ;;
      ys <- for_each f rest ;;
      ret (y :: ys)
  end.

(** A [for] loop that threads the local variables [st]. *)
Fixpoint for_fold {A S : Type} (body : S -> A -> py S) (xs : list A) (st : S)
  : py S :=
  match xs with
  | [] => ret st
  | x :: rest =>
      st' <- body st x ;;
      for_fold body rest st'
  end.

(** ** NumPy and built-in helpers *)

(** A voice embedding (192 numbers in the source). *)
Abbreviation embedding := (list R) (only parsing).

Definition Rsum (l : list R) : R := fold_right Rplus 0 l.

(** [np.mean] *)
Definition np_mean (l : list R) : R := Rsum l / INR (length l).

(** [np.max], [np.min]: raise on a zero-size array. *)
Definition np_max (l : list R) : py R :=
  match l with
  | [] => raise (ValueError "zero-size array to reduction operation maximum which has no identity")
  | x :: rest => ret (fold_left Rmax rest x)
  end.

Definition np_min (l : list R) : py R :=
  match l with
  | [] => raise (ValueError "zero-size array to reduction operation minimum which has no identity")
  | x :: rest => ret (fold_left Rmin rest x)
  end.

(** [np.std]: the population standard deviation,
    [sqrt(mean(abs(x - x.mean())**2))]. *)
Definition np_std (l : list R) : R :=
  let m := np_mean l in
  sqrt (np_mean (map (fun x => Rabs (x - m) * Rabs (x - m)) l)).

(** The built-ins [min(a, b)] and [max(a, b)]: the first argument is kept
    unless the second is strictly smaller (larger). *)
Definition py_min (a b : R) : R := if Rlt_dec b a then b else a.
Definition py_max (a b : R) : R := if Rlt_dec a b then b else a.

(** [round(x)] to the nearest integer, ties to even. *)
Definition round_half_even (x : R) : Z :=
  let f := Int_part x in
  let d := x - IZR f in
  if Rlt_dec d (1 / 2) then f
  else if Rlt_dec (1 / 2) d then (f + 1)%Z
  else if Z.even f then f else (f + 1)%Z.

(** [round(x, 2)] *)
Definition py_round2 (x : R) : R := IZR (round_half_even (x * 100)) / 100.

(** ** scipy.spatial.distance *)

(** [str(n)] of a size, and the shape [(n,)] of a one-dimensional array
    as NumPy prints it. *)
Definition str_nat (n : nat) : string :=
  NilEmpty.string_of_uint (Nat.to_uint n).

Definition str_shape (v : embedding) : string :=
  ("(" ++ str_nat (length v) ++ ",)")%string.

Definition dot (u v : embedding) : R :=
  Rsum (map (fun p => fst p * snd p) (combine u v)).

(** [cosine(u, v)]: [1 - u.v / (|u| |v|)]; [np.dot] refuses vectors of
    different lengths, and its message names the two shapes in the order
    of the arguments.  Newer SciPy versions clip the result to [0, 2];
    [cosine_range] below shows that this is the identity here. *)
Definition cosine (u v : embedding) : py R :=
  if Nat.eqb (length u) (length v)
  then ret (1 - dot u v / sqrt (dot u u * dot v v))
  else raise (ValueError
                ("shapes " ++ str_shape u ++ " and " ++ str_shape v
                 ++ " not aligned: " ++ str_nat (length u) ++ " (dim 0) != "
                 ++ str_nat (length v) ++ " (dim 0)")%string).

(** [u - v] on one-dimensional arrays, with NumPy's broadcasting of a
    one-element array; the message of a failure lists the shapes of the
    operands in their order. *)
Definition np_sub (u v : embedding) : py embedding :=
  if Nat.eqb (length u) (length v)
  then ret (map (fun p => fst p - snd p) (combine u v))
  else match u, v with
       | [x], _ => ret (map (fun y => x - y) v)
       | _, [y] => ret (map (fun x => x - y) u)
       | _, _ =>
           raise (ValueError
                    ("operands could not be broadcast together with shapes "
                     ++ str_shape u ++ " " ++ str_shape v ++ " ")%string)
       end.

(** [euclidean(u, v)]: the 2-norm of [u - v]. *)
Definition euclidean (u v : embedding) : py R :=
  d <- np_sub u v ;;
  ret (sqrt (dot d d)).

(** ** VoiceRecognitionService: similarity *)

Definition calculate_similarity_cosine (embedding1 embedding2 : embedding)
  : py R :=
  d <- cosine embedding1 embedding2 ;;
  ret (1 - d).

Definition calculate_similarity_euclidean (embedding1 embedding2 : embedding)
  : py R :=
  distance <- euclidean embedding1 embedding2 ;;
  ret (1 / (1 + distance)).

Definition calculate_similarity (embedding1 embedding2 : embedding)
  (method : string) : py R :=
  if String.eqb method "cosine"
  then calculate_similarity_cosine embedding1 embedding2
  else if String.eqb method "euclidean"
  then calculate_similarity_euclidean embedding1 embedding2
  else raise (ValueError ("Unknown similarity method: " ++ method)%string).

(** ** Comparisons of floats as booleans *)

Definition Rltb (x y : R) : bool := if Rlt_dec x y then true else false.
Definition Rgtb (x y : R) : bool := Rltb y x.
Definition Rgeb (x y : R) : bool := if Rge_dec x y then true else false.

(** ** Dictionaries of the service *)

(** A user document of the database: [{'name': ..., 'voice_embeddings': ...}] *)
Module User.
Record t : Type := mk {
  name : string;
  voice_embeddings : list embedding
}.
End User.

(** One entry of [all_scores]. *)
Module Score.
Record t : Type := mk {
  name : string;
  avg_score : R;
  max_score : R;
  min_score : R;
  num_samples : nat
}.
End Score.

(** The dictionary returned by [register_voice]; a key that a branch does
    not set is [None]. *)
Module Registration.
Record t : Type := mk {
  success : bool;
  embeddings : option (list embedding);
  num_samples : option nat;
  avg_inter_similarity : option R;
  error : option string
}.
End Registration.

(** The dictionary returned by [identify_speaker].  [name] is a Python
    value that is a string or [None]. *)
Module Identification.
Record t : Type := mk {
  identified : bool;
  name : option string;
  confidence : R;
  all_scores : list Score.t;
  threshold : option R;
  method : option string;
  error : option string
}.
End Identification.

(** The dictionary returned by [verify_speaker]. *)
Module Verification.
Record t : Type := mk {
  verified : bool;
  message : string;
  confidence : R;
  max_confidence : option R
}.
End Verification.

(** ** VoiceRecognitionService: enrolment quality *)

(** The double loop over [i < j] that [register_voice],
    [calculate_optimal_threshold] and [get_embedding_statistics] share:
    [range(len(e))] outside, [range(i + 1, len(e))] inside, one
    [calculate_similarity] (default method) appended per pair. *)
Definition pairwise_similarities (embeddings : list embedding) : py (list R) :=
  let n := length embeddings in
  rows <- for_each
            (fun i =>
               for_each
                 (fun j =>
                    calculate_similarity (nth i embeddings [])
                      (nth j embeddings []) "cosine")
                 (seq (i + 1) (n - (i + 1))))
            (seq 0 n) ;;
  ret (concat rows).

Definition calculate_optimal_threshold (user_embeddings : list embedding)
  : py R :=
  if Nat.ltb (length user_embeddings) 2 then ret (65 / 100)
  else
    similarities <- pairwise_similarities user_embeddings ;;
    let mean_sim := np_mean similarities in
    let std_sim := np_std similarities in
    let optimal_threshold := mean_sim - std_sim in
    let optimal_threshold := py_max (5 / 10) (py_min (8 / 10) optimal_threshold) in
    ret optimal_threshold.

(** ** VoiceRecognitionService: registration, identification, verification *)

Definition MIN_DETECTION_THRESHOLD : R := 30 / 100.
Definition SILENCE_THRESHOLD : R := 5 / 100.

(** The [if]/[elif] chain of [identify_speaker]: the values it gives to
    [identified], [result_name] and [status_msg]. *)
Definition classify (best_score : R) (best_match : option string)
  (threshold : R) : bool * option string * string :=
  if Rltb best_score SILENCE_THRESHOLD
  then (false, Some "Can't hear someone speaking"%string, "NO VOICE DETECTED"%string)
  else if Rltb best_score MIN_DETECTION_THRESHOLD
  then (false, Some "Unknown Person Speaking"%string, "UNKNOWN SPEAKER"%string)
  else if Rgeb best_score MIN_DETECTION_THRESHOLD && Rltb best_score threshold
  then (true, best_match, "LOW CONFIDENCE MATCH"%string)
  else (true, best_match, "SPEAKER IDENTIFIED"%string).

(** [all_scores.sort(key=lambda x: x['avg_score'], reverse=True)]: a stable
    sort, greatest average first. *)
Fixpoint insert_desc (e : Score.t) (l : list Score.t) : list Score.t :=
  match l with
  | [] => [e]
  | h :: rest =>
      if Rltb (Score.avg_score e) (Score.avg_score h)
      then h :: insert_desc e rest
      else e :: h :: rest
  end.

Definition sort_desc (l : list Score.t) : list Score.t :=
  fold_right insert_desc [] l.

(** The local variables of the loop over [registered_users]:
    [best_match], [best_score], [all_scores]. *)
Definition scan_state : Type := (option string * R * list Score.t)%type.

Definition scan_start : scan_state := (None, 0, []).

(** The similarities of one user's stored embeddings to [new_embedding]. *)
Definition user_similarities (new_embedding : embedding) (method : string)
  (user : User.t) : py (list R) :=
  for_each (fun stored_embedding =>
              calculate_similarity new_embedding stored_embedding method)
    (User.voice_embeddings user).

(** One iteration of the loop over [registered_users]. *)
Definition compare_user (new_embedding : embedding) (method : string)
  (st : scan_state) (user : User.t) : py scan_state :=
  let '(best_match, best_score, all_scores) := st in
  let user_name := User.name user in
  similarities <- user_similarities new_embedding method user ;;
  let avg_score := np_mean similarities in
  max_score <- np_max similarities ;;
  min_score <- np_min similarities ;;
  let all_scores :=
    all_scores ++ [Score.mk user_name avg_score max_score min_score
                     (length similarities)] in
  if Rgtb avg_score best_score
  then ret (Some user_name, avg_score, all_scores)
  else ret (best_match, best_score, all_scores).

Section Service.

(** The encoder: [extract_embedding] either returns the embedding of the
    audio file at a path or raises. *)
Variable extract_embedding : string -> py embedding.

Definition register_voice (audio_paths : list string) (user_name : string)
  : Registration.t :=
  match
    (embeddings <- for_each extract_embedding audio_paths ;;
     avg_similarity <-
       (if Nat.ltb 1 (length embeddings)
        then similarities <- pairwise_similarities embeddings ;;
             ret (np_mean similarities)
        else ret 1) ;;
     ret (Registration.mk true (Some embeddings) (Some (length embeddings))
            (Some avg_similarity) None))
  with
  | inr result => result
  | inl e => Registration.mk false None None None (Some (str_exn e))
  end.

(** The [try] block of [identify_speaker]; next to the dictionary it
    gives the [status_msg] that the call writes to the log. *)
Definition identify_try (audio_path : string)
  (registered_users : list User.t) (threshold : R) (method : string)
  : py (option string * Identification.t) :=
  match registered_users with
  | [] =>
      ret (None,
           Identification.mk false (Some "No users registered"%string) 0 []
             (Some (threshold * 100)) None None)
  | _ :: _ =>
      new_embedding <- extract_embedding audio_path ;;
      st <- for_fold (compare_user new_embedding method) registered_users
              scan_start ;;
      let '(best_match, best_score, all_scores) := st in
      let all_scores := sort_desc all_scores in
      let confidence_percentage := best_score * 100 in
      let '(identified, result_name, status_msg) :=
        classify best_score best_match threshold in
      ret (Some status_msg,
           Identification.mk identified result_name
             (py_round2 confidence_percentage) all_scores
             (Some (py_round2 (threshold * 100))) (Some method) None)
  end.

Definition identify_speaker (audio_path : string)
  (registered_users : list User.t) (threshold : R) (method : string)
  : Identification.t :=
  match identify_try audio_path registered_users threshold method with
  | inr (_, result) => result
  | inl e =>
      Identification.mk false (Some "Error"%string) 0 [] None None
        (Some (str_exn e))
  end.

(** The [status_msg] logged by the same call; [None] when the call
    leaves before the classification. *)
Definition identify_status (audio_path : string)
  (registered_users : list User.t) (threshold : R) (method : string)
  : option string :=
  match identify_try audio_path registered_users threshold method with
  | inr (status_msg, _) => status_msg
  | inl _ => None
  end.

Definition verify_speaker (audio_path claimed_name : string)
  (registered_users : list User.t) (threshold : R) : Verification.t :=
  match
    (match find (fun u => String.eqb (User.name u) claimed_name)
             registered_users with
     | None =>
         ret (Verification.mk false
                ("User '" ++ claimed_name ++ "' not registered")%string
                0 None)
     | Some claimed_user =>
         new_embedding <- extract_embedding audio_path ;;
         similarities <- user_similarities new_embedding "cosine"
                           claimed_user ;;
         let avg_score := np_mean similarities in
         max_score <- np_max similarities ;;
         let verified := Rgeb avg_score threshold in
         let message :=
           if verified
           then ("Voice verified as '" ++ claimed_name ++ "'")%string
           else ("Voice does not match '" ++ claimed_name ++ "'")%string in
         ret (Verification.mk verified message
                (py_round2 (avg_score * 100))
                (Some (py_round2 (max_score * 100))))
     end)
  with
  | inr result => result
  | inl e =>
      Verification.mk false ("Verification error: " ++ str_exn e)%string
        0 None
  end.

End Service.

(** ** AudioProcessor: validation *)

(** The [error] strings of [validate_audio] interpolate numbers
    ([f"Audio too short ({duration:.1f}s). Minimum: {min_duration}s"]);
    a reason keeps the interpolated values instead of their decimal
    rendering. *)
Inductive reason : Type :=
| AudioFileNotFound
| FileTooLarge (file_size : Z)
| AudioTooShort (duration min_duration : R)
| AudioTooLong (duration max_duration : R)
| SilentOrTooQuiet
| ValidationError (msg : string).

(** The dictionary returned by [validate_audio]. *)
Module Validation.
Record t : Type := mk {
  valid : bool;
  error : option reason;
  duration : option R;
  sample_rate : option Z;
  num_samples : option nat;
  energy : option R;
  zero_crossing_rate : option R
}.
End Validation.

(** [np.sign] *)
Definition np_sign (x : R) : R :=
  if Rlt_dec x 0 then -1 else if Rlt_dec 0 x then 1 else 0.

(** [np.diff]: differences of neighbours. *)
Fixpoint np_diff (l : list R) : list R :=
  match l with
  | x :: (y :: _) as rest => (y - x) :: np_diff rest
  | _ => []
  end.

Section AudioProcessor.

(** The file system and the decoder: [os.path.exists], [os.path.getsize]
    and [librosa.load(path, sr=target_sr, mono=True)]. *)
Variable path_exists : string -> bool.
Variable getsize : string -> Z.
Variable librosa_load : string -> Z -> py (list R * Z).

(** [self.target_sr] *)
Variable target_sr : Z.

(** [len(audio) / sr] with an integer [sr]. *)
Definition true_div (n : nat) (sr : Z) : py R :=
  if Z.eqb sr 0 then raise ZeroDivisionError
  else ret (INR n / IZR sr).

Definition load_audio (file_path : string) : py (list R * Z) :=
  match
    ('(audio, sr) <- librosa_load file_path target_sr ;;
     duration <- true_div (length audio) sr ;;
     ret (audio, sr))
  with
  | inr result => ret result
  | inl e => raise (RuntimeError ("Audio loading failed: " ++ str_exn e)%string)
  end.

Definition invalid (r : reason) (duration : option R) : Validation.t :=
  Validation.mk false (Some r) duration None None None None.

Definition validate_audio (file_path : string) (min_duration max_duration : R)
  : Validation.t :=
  match
    (if negb (path_exists file_path)
     then ret (invalid AudioFileNotFound None)
     else
       let file_size := getsize file_path in
       if Z.ltb (16 * 1024 * 1024) file_size
       then ret (invalid (FileTooLarge file_size) None)
       else
         '(audio, sr) <- load_audio file_path ;;
         duration <- true_div (length audio) sr ;;
         if Rltb duration min_duration
         then ret (invalid (AudioTooShort duration min_duration)
                     (Some duration))
         else if Rgtb duration max_duration
         then ret (invalid (AudioTooLong duration max_duration)
                     (Some duration))
         else
           let rms_energy :=
             sqrt (np_mean (map (fun x => x * x) audio)) in
           peak <- np_max (map Rabs audio) ;;
           if Rltb peak (1 / 1000)
           then ret (invalid SilentOrTooQuiet None)
           else
             let zero_crossings :=
               Rsum (map Rabs (np_diff (map np_sign audio)))
               / (2 * INR (length audio)) in
             ret (Validation.mk true None (Some duration) (Some sr)
                    (Some (length audio)) (Some rms_energy)
                    (Some zero_crossings)))
  with
  | inr result => result
  | inl e => invalid (ValidationError ("Validation error: " ++ str_exn e)%string)
               None
  end.

End AudioProcessor.

(** ** Notions of the specification *)

(** A vector is non-zero when one of its components is. *)
Definition nonzero (v : embedding) : Prop := exists x, In x v /\ x <> 0.

(** Every unordered pair of a list, each once. *)
Fixpoint unordered_pairs {A : Type} (l : list A) : list (A * A) :=
  match l with
  | [] => []
  | x :: rest => map (pair x) rest ++ unordered_pairs rest
  end.

(** The similarities of all unordered pairs of signatures, under the
    default (cosine) method. *)
Definition pair_similarities (signatures : list embedding) : py (list R) :=
  for_each (fun p => calculate_similarity (fst p) (snd p) "cosine")
    (unordered_pairs signatures).

(** All signatures have dimension [D]. *)
Definition dimension (D : nat) (signatures : list embedding) : Prop :=
  Forall (fun e => length e = D) signatures.

(** The standard deviation: the root of the mean squared distance to the
    mean. *)
Definition stddev (l : list R) : R :=
  sqrt (Rsum (map (fun x => (x - np_mean l) ^ 2) l) / INR (length l)).

(** Clamping into an interval. *)
Definition clamp (lo hi x : R) : R := Rmax lo (Rmin hi x).

(** The mean similarity of a probe to the stored signatures of one
    profile; there is none for a profile without signatures. *)
Definition profile_mean (probe : embedding) (method : string) (user : User.t)
  : py R :=
  similarities <- user_similarities probe method user ;;
  match similarities with
  | [] => raise (ValueError "profile without signatures")
  | _ :: _ => ret (np_mean similarities)
  end.

(** [means] are the mean similarities, profile by profile. *)
Definition profile_means (probe : embedding) (method : string)
  (users : list User.t) (means : list R) : Prop :=
  for_each (profile_mean probe method) users = inr means.

(** Position [i] holds the greatest of [means], and no earlier position
    holds as much. *)
Definition first_greatest (means : list R) (i : nat) (s : R) : Prop :=
  nth_error means i = Some s
  /\ (forall j m, nth_error means j = Some m -> m <= s)
  /\ (forall j m, (j < i)%nat -> nth_error means j = Some m -> m < s).

(** The loop of [identify_speaker] leaves the first profile of greatest
    mean in [best_match], and that mean in [best_score]. *)
Definition selects_first_greatest (probe : embedding) (method : string)
  (users : list User.t) (means : list R) : Prop :=
  exists i u s all_scores,
    first_greatest means i s
    /\ nth_error users i = Some u
    /\ for_fold (compare_user probe method) users scan_start
       = inr (Some (User.name u), s, all_scores).

(** The outcome of an identification, as far as the tiers go. *)
Definition outcome (r : Identification.t) (status : option string)
  (identified : bool) (name status_msg : string) : Prop :=
  Identification.identified r = identified
  /\ Identification.name r = Some name
  /\ status = Some status_msg.

(** The four tiers with the last one entered by [s >= threshold] alone. *)
Definition tiers_by_threshold_alone (r : Identification.t)
  (status : option string) (s threshold : R) (best : string) : Prop :=
  (s < 5 / 100 ->
   outcome r status false "Can't hear someone speaking" "NO VOICE DETECTED")
  /\ (5 / 100 <= s < 30 / 100 ->
      outcome r status false "Unknown Person Speaking" "UNKNOWN SPEAKER")
  /\ (30 / 100 <= s < threshold ->
      outcome r status true best "LOW CONFIDENCE MATCH")
  /\ (s >= threshold ->
      outcome r status true best "SPEAKER IDENTIFIED"
      /\ Identification.confidence r = py_round2 (s * 100)).

(** The four tiers in the order of the cut points: the last one is what is
    left at or above both 0.30 and the threshold. *)
Definition tiers_in_order (r : Identification.t)
  (status : option string) (s threshold : R) (best : string) : Prop :=
  (s < 5 / 100 ->
   outcome r status false "Can't hear someone speaking" "NO VOICE DETECTED")
  /\ (5 / 100 <= s < 30 / 100 ->
      outcome r status false "Unknown Person Speaking" "UNKNOWN SPEAKER")
  /\ (30 / 100 <= s < threshold ->
      outcome r status true best "LOW CONFIDENCE MATCH")
  /\ (30 / 100 <= s /\ s >= threshold ->
      outcome r status true best "SPEAKER IDENTIFIED"
      /\ Identification.confidence r = py_round2 (s * 100)).

(** Greatest average first. *)
Definition descending (a b : Score.t) : Prop :=
  Score.avg_score b <= Score.avg_score a.

(** [u] is the profile registered under [claimed_name]: the first of that
    name in the list (names are unique in the store). *)
Definition first_named (users : list User.t) (claimed_name : string)
  (u : User.t) : Prop :=
  exists before after,
    users = before ++ u :: after
    /\ User.name u = claimed_name
    /\ forall v, In v before -> User.name v <> claimed_name.

(** The cosine similarity of two vectors: their dot product over the
    product of their norms. *)
Definition cosine_similarity (a b : embedding) : R :=
  dot a b / sqrt (dot a a * dot b b).

(** [m] is the mean similarity of the probe to the stored signatures of a
    profile: there is a signature, every signature has the probe's
    dimension, and [m] is the sum of their cosine similarities to the
    probe over their number. *)
Definition mean_similarity (probe : embedding) (signatures : list embedding)
  (m : R) : Prop :=
  signatures <> []
  /\ dimension (length probe) signatures
  /\ m = Rsum (map (cosine_similarity probe) signatures)
         / INR (length signatures).

(** A recording is not silent when some sample reaches the amplitude
    0.001. *)
Definition not_silent (audio : list R) : Prop :=
  exists x, In x audio /\ 1 / 1000 <= Rabs x.

(** A message refers to a phrase when the phrase occurs at its end. *)
Definition ends_with (msg phrase : string) : Prop :=
  exists before, msg = (before ++ phrase)%string.

(** ** Sample data *)

Definition ann : User.t := User.mk "ann" [[1; 0]].
Definition bob : User.t := User.mk "bob" [[0; 1]].
Definition cat : User.t := User.mk "cat" [[-1; 0]].
Definition dan : User.t := User.mk "dan" [[1; 0]; [0; 1]].
Definition eve : User.t := User.mk "eve" [[0; 2]].

(** Four samples at 2 Hz: a recording of two seconds. *)
Definition two_seconds : list R := [1 / 2; - (1 / 2); 1 / 2; - (1 / 2)].

(** A decoder that reads [two_seconds] from every file, at the rate asked
    for. *)
Definition constant_decoder : string -> Z -> py (list R * Z) :=
  fun _ sr => inr (two_seconds, sr).

(** An encoder that hears the same signature in every file. *)
Definition constant_encoder (signature : embedding) : string -> py embedding :=
  fun _ => inr signature.

(** An encoder that fails on every file. *)
Definition failing_encoder : string -> py embedding :=
  fun _ => inl (RuntimeError "Embedding extraction failed").

(** ** VoiceRecognitionService: statistics *)

(** The dictionary returned by [get_embedding_statistics] for a list that
    is not empty. *)
Module Statistics.
Record t : Type := mk {
  num_embeddings : nat;
  embedding_dimension : nat;
  avg_similarity : R;
  std_similarity : R;
  min_similarity : R;
  max_similarity : R
}.
End Statistics.

(** [get_embedding_statistics]: [{}] ([None]) for no embeddings; the four
    similarity entries are 0.0 when there is no pair.  Nothing is caught:
    an exception of [calculate_similarity] leaves the method. *)
Definition get_embedding_statistics (embeddings : list embedding)
  : py (option Statistics.t) :=
  match embeddings with
  | [] => ret None
  | first :: _ =>
      similarities <- pairwise_similarities embeddings ;;
      match similarities with
      | [] =>
          ret (Some (Statistics.mk (length embeddings) (length first) 0 0 0 0))
      | _ :: _ =>
          let avg := np_mean similarities in
          let std := np_std similarities in
          min_sim <- np_min similarities ;;
          max_sim <- np_max similarities ;;
          ret (Some (Statistics.mk (length embeddings) (length first)
                       avg std min_sim max_sim))
      end
  end.

(** ** AudioProcessor: the preprocessing steps *)

(** [normalize_audio]: [np.abs(audio).max()] raises on an empty array. *)
Definition normalize_audio (audio : list R) (target_level : R) : py (list R) :=
  current_peak <- np_max (map Rabs audio) ;;
  if Rgtb current_peak 0
  then
    let norm_factor := target_level / current_peak in
    ret (map (fun x => x * norm_factor) audio)
  else ret audio.

(** [audio[:-1]] *)
Definition all_but_last (audio : list R) : list R := removelast audio.

(** [apply_pre_emphasis]:
    [np.append(audio[0], audio[1:] - coef * audio[:-1])]. *)
Definition apply_pre_emphasis (audio : list R) (coef : R) : py (list R) :=
  match audio with
  | [] => raise (IndexError "index 0 is out of bounds for axis 0 with size 0")
  | first :: rest =>
      ret (first :: map (fun p => fst p - coef * snd p)
                      (combine rest (all_but_last audio)))
  end.

(** [remove_dc_offset]: [audio - np.mean(audio)]. *)
Definition remove_dc_offset (audio : list R) : list R :=
  let dc_offset := np_mean audio in
  map (fun x => x - dc_offset) audio.

Section AudioPipeline.

(** The decoder and the two signal-processing libraries:
    [librosa.load], [noisereduce.reduce_noise] (stationary, with the
    source's two smoothing constants) and [librosa.effects.trim], which
    returns the trimmed signal and the trim indices. *)
Variable librosa_load : string -> Z -> py (list R * Z).
Variable target_sr : Z.
Variable nr_reduce_noise : list R -> Z -> R -> py (list R).
Variable librosa_effects_trim :
  list R -> R -> nat -> nat -> py (list R * (nat * nat)).

(** [reduce_noise]: the [try] block also subtracts the two signals for
    the log, which raises when their shapes do not fit; whatever is
    raised, the original audio is returned. *)
Definition reduce_noise (audio : list R) (sr : Z)
  (noise_reduction_strength : R) : list R :=
  match
    (reduced_audio <- nr_reduce_noise audio sr noise_reduction_strength ;;
     difference <- np_sub audio reduced_audio ;;
     ret reduced_audio)
  with
  | inr reduced_audio => reduced_audio
  | inl _ => audio
  end.

(** [trim_silence]: the [try] block also divides the removed length by
    [sr] for the log (the quotient itself is only logged); whatever is
    raised, the original audio is returned. *)
Definition trim_silence (audio : list R) (sr : Z) (top_db : R)
  (frame_length hop_length : nat) : list R :=
  match
    ('(trimmed, trim_indices) <-
       librosa_effects_trim audio top_db frame_length hop_length ;;
     removed_duration <- true_div (length audio - length trimmed) sr ;;
     ret trimmed)
  with
  | inr trimmed => trimmed
  | inl _ => audio
  end.

(** [preprocess]: load, remove the DC offset, then the four optional
    steps in their order.  Nothing is caught here. *)
Definition preprocess (file_path : string)
  (apply_noise_reduction apply_normalization apply_trimming
     apply_pre_emphasis_flag : bool) (noise_strength : R)
  : py (list R * Z) :=
  '(audio, sr) <- load_audio librosa_load target_sr file_path ;;
  let audio := remove_dc_offset audio in
  let audio :=
    if apply_noise_reduction then reduce_noise audio sr noise_strength
    else audio in
  let audio :=
    if apply_trimming then trim_silence audio sr 20 2048 512 else audio in
  audio <- (if apply_pre_emphasis_flag
            then apply_pre_emphasis audio (97 / 100)
            else ret audio) ;;
  audio <- (if apply_normalization
            then normalize_audio audio (9 / 10)
            else ret audio) ;;
  final_length <- true_div (length audio) sr ;;
  ret (audio, sr).

(** [get_audio_duration]: 0.0 when the file does not load. *)
Definition get_audio_duration (file_path : string) : R :=
  match
    ('(audio, sr) <- load_audio librosa_load target_sr file_path ;;
     true_div (length audio) sr)
  with
  | inr duration => duration
  | inl _ => 0
  end.

End AudioPipeline.

(** ** Routes: file names *)

(** [str.lower] on ASCII text. *)
Definition ascii_lower (c : ascii) : ascii :=
  let n := nat_of_ascii c in
  if Nat.leb 65 n && Nat.leb n 90 then ascii_of_nat (n + 32) else c.

Fixpoint py_lower (s : string) : string :=
  match s with
  | EmptyString => EmptyString
  | String c rest => String (ascii_lower c) (py_lower rest)
  end.

(** ['.' in filename] *)
Fixpoint has_dot (s : string) : bool :=
  match s with
  | EmptyString => false
  | String c rest => Ascii.eqb c "." || has_dot rest
  end.

(** The cut at the last dot, if there is a dot. *)
Fixpoint cut_last_dot (s : string) : option (string * string) :=
  match s with
  | EmptyString => None
  | String c rest =>
      match cut_last_dot rest with
      | Some (before, after) => Some (String c before, after)
      | None => if Ascii.eqb c "." then Some (EmptyString, rest) else None
      end
  end.

(** [s.rsplit('.', 1)] *)
Definition rsplit_dot_1 (s : string) : list string :=
  match cut_last_dot s with
  | Some (before, after) => [before; after]
  | None => [s]
  end.

(** [allowed_file]; [allowed_extensions] is a set of strings. *)
Definition allowed_file (filename : string) (allowed_extensions : list string)
  : bool :=
  has_dot filename
  && existsb (String.eqb (py_lower (nth 1 (rsplit_dot_1 filename) EmptyString)))
       allowed_extensions.

(** [s.replace('.', new)] *)
Fixpoint replace_dots (new s : string) : string :=
  match s with
  | EmptyString => EmptyString
  | String c rest =>
      if Ascii.eqb c "." then (new ++ replace_dots new rest)%string
      else String c (replace_dots new rest)
  end.

(** [filename.replace('.', '_processed.')], the name under which the
    routes save the preprocessed audio. *)
Definition processed_name (filename : string) : string :=
  replace_dots "_processed." filename.

(** ** Config *)

(** The settings that [Config.validate] reads. *)
Module Config.
Record t : Type := mk {
  MONGODB_URI : option string;
  SIMILARITY_THRESHOLD : R;
  MIN_AUDIO_DURATION : Z;
  MAX_AUDIO_DURATION : Z
}.
End Config.

(** The messages of [Config.validate], with the interpolated values. *)
Inductive config_error : Type :=
| MongoUriNotSet
| ThresholdOutOfRange (got : R)
| MinDurationNotPositive (got : Z)
| MaxDurationNotGreater.

Definition Rleb (x y : R) : bool := if Rle_dec x y then true else false.

Definition config_validate (c : Config.t) : bool * list config_error :=
  let errors := [] in
  let errors :=
    match Config.MONGODB_URI c with
    | None | Some EmptyString => errors ++ [MongoUriNotSet]
    | Some _ => errors
    end in
  let errors :=
    if negb (Rleb 0 (Config.SIMILARITY_THRESHOLD c)
             && Rleb (Config.SIMILARITY_THRESHOLD c) 1)
    then errors ++ [ThresholdOutOfRange (Config.SIMILARITY_THRESHOLD c)]
    else errors in
  let errors :=
    if Z.leb (Config.MIN_AUDIO_DURATION c) 0
    then errors ++ [MinDurationNotPositive (Config.MIN_AUDIO_DURATION c)]
    else errors in
  let errors :=
    if Z.leb (Config.MAX_AUDIO_DURATION c) (Config.MIN_AUDIO_DURATION c)
    then errors ++ [MaxDurationNotGreater]
    else errors in
  (Nat.eqb (length errors) 0, errors).

(** ** Further notions *)

(** Multiplying every component by [c]. *)
Definition scale (c : R) (v : list R) : list R := map (fun x => c * x) v.

(** The greatest amplitude of a signal that has samples. *)
Definition peak (audio : list R) (p : R) : Prop :=
  np_max (map Rabs audio) = inr p.

(** Every sample is zero. *)
Definition silent (audio : list R) : Prop := Forall (fun x => x = 0) audio.

(** An entry of [all_scores] is in order: minimum, average, maximum. *)
Definition score_in_order (e : Score.t) : Prop :=
  Score.min_score e <= Score.avg_score e <= Score.max_score e.

(** A string without a dot. *)
Definition dotless (s : string) : Prop := has_dot s = false.

(** * Properties *)

(** ** The error monad *)

Lemma bind_inr {A B : Type} (c : py A) (k : A -> py B) (y : B) :
  bind c k = inr y -> exists x, c = inr x /\ k x = inr y.
Proof.
  destruct c as [e | x]; simpl; intros H.
  - discriminate.
  - exists x. split; [reflexivity | exact H].
Qed.

Lemma bind_ret_l {A B : Type} (x : A) (k : A -> py B) :
  bind (inr x) k = k x.
Proof. reflexivity. Qed.

Tactic Notation "inv_bind" hyp(H) "as" ident(x) ident(Hx) :=
  apply bind_inr in H; destruct H as [x [Hx H]].

(** ** Similarity *)

Lemma dot_cons (x y : R) (u v : embedding) :
  dot (x :: u) (y :: v) = x * y + dot u v.
Proof. reflexivity. Qed.

Lemma dot_self_nonneg (v : embedding) : 0 <= dot v v.
Proof.
  induction v as [| x v IH].
  - unfold dot; simpl; lra.
  - rewrite dot_cons. nra.
Qed.

Lemma dot_self_pos (v : embedding) : nonzero v -> 0 < dot v v.
Proof.
  intros [x [Hin Hx]].
  induction v as [| y v IH]; [contradiction |].
  rewrite dot_cons.
  pose proof (dot_self_nonneg v) as Hv.
  destruct Hin as [-> | Hin].
  - nra.
  - specialize (IH Hin). nra.
Qed.

Lemma calculate_similarity_as_cosine (a b : embedding) :
  calculate_similarity a b "cosine" = calculate_similarity_cosine a b.
Proof. reflexivity. Qed.

Lemma calculate_similarity_as_euclidean (a b : embedding) :
  calculate_similarity a b "euclidean" = calculate_similarity_euclidean a b.
Proof. reflexivity. Qed.

Lemma np_sub_same_length (a b : embedding) :
  length a = length b -> exists d, np_sub a b = inr d.
Proof.
  intros H. unfold np_sub. rewrite H, Nat.eqb_refl.
  eexists. reflexivity.
Qed.

Lemma quadratic_form_nonneg (A B P x y : R) :
  0 <= A -> 0 <= B -> P * P <= A * B ->
  0 <= B * (x * x) - 2 * P * (x * y) + A * (y * y).
Proof.
  intros HA HB HP.
  destruct (Req_dec B 0) as [-> | HB0].
  - assert (P = 0) by nra. subst P. nra.
  - assert (H : 0 <= B * (B * (x * x) - 2 * P * (x * y) + A * (y * y))).
    { replace (B * (B * (x * x) - 2 * P * (x * y) + A * (y * y)))
        with ((B * x - P * y) * (B * x - P * y) + (A * B - P * P) * (y * y))
        by ring.
      pose proof (Rle_0_sqr (B * x - P * y)) as H1. unfold Rsqr in H1.
      pose proof (Rle_0_sqr y) as H2. unfold Rsqr in H2.
      nra. }
    assert (0 < B) by lra.
    nra.
Qed.

Lemma cauchy_schwarz (u v : embedding) :
  dot u v * dot u v <= dot u u * dot v v.
Proof.
  revert v. induction u as [| x u IH]; intros v.
  - unfold dot; simpl. lra.
  - destruct v as [| y v].
    + unfold dot at 1 2 4; simpl. lra.
    + rewrite !dot_cons.
      pose proof (IH v) as HP.
      pose proof (dot_self_nonneg u) as HA.
      pose proof (dot_self_nonneg v) as HB.
      pose proof (quadratic_form_nonneg _ _ _ x y HA HB HP) as HQ.
      nra.
Qed.

Lemma cosine_ratio_bounds (u v : embedding) :
  -1 <= dot u v / sqrt (dot u u * dot v v) <= 1.
Proof.
  pose proof (cauchy_schwarz u v) as HP.
  pose proof (dot_self_nonneg u) as HA.
  pose proof (dot_self_nonneg v) as HB.
  assert (HAB : 0 <= dot u u * dot v v) by nra.
  pose proof (sqrt_pos (dot u u * dot v v)) as HS.
  pose proof (sqrt_sqrt _ HAB) as HSS.
  set (P := dot u v) in *. set (S := sqrt (dot u u * dot v v)) in *.
  destruct (Req_dec S 0) as [HS0 | HS0].
  - rewrite HS0. unfold Rdiv. rewrite Rinv_0. lra.
  - assert (HSpos : 0 < S) by lra.
    assert (Hinv : 0 < / S) by (apply Rinv_0_lt_compat; exact HSpos).
    assert (Hone : S * / S = 1) by (apply Rinv_r; exact HS0).
    assert (Hbound : - S <= P <= S) by nra.
    unfold Rdiv. split; nra.
Qed.

(** The cosine distance lies in [0, 2], so clipping it to that interval,
    as newer SciPy versions do, changes nothing. *)
Lemma cosine_range (u v : embedding) (d : R) :
  cosine u v = inr d -> 0 <= d <= 2 /\ Rmax 0 (Rmin 2 d) = d.
Proof.
  unfold cosine. destruct (Nat.eqb (length u) (length v)); [| discriminate].
  intros H. injection H as <-.
  pose proof (cosine_ratio_bounds u v) as Hb.
  split; [lra |].
  unfold Rmax, Rmin.
  destruct (Rle_dec 2 _); destruct (Rle_dec 0 _); lra.
Qed.

Lemma cosine_similarity_range (a b : embedding) (s : R) :
  calculate_similarity a b "cosine" = inr s -> -1 <= s <= 1.
Proof.
  rewrite calculate_similarity_as_cosine. unfold calculate_similarity_cosine.
  intros H. inv_bind H as d Hd. injection H as <-.
  apply cosine_range in Hd. lra.
Qed.

(** C8. Under the cosine method a non-zero vector has similarity 1.0 to
    itself. *)
Theorem cosine_similarity_self (v : embedding) :
  nonzero v -> calculate_similarity v v "cosine" = inr 1.
Proof.
  intros Hv.
  rewrite calculate_similarity_as_cosine.
  unfold calculate_similarity_cosine, cosine.
  rewrite Nat.eqb_refl, bind_ret_l. unfold ret. f_equal.
  pose proof (dot_self_pos v Hv) as Hpos.
  rewrite sqrt_square by lra.
  field. lra.
Qed.

Lemma cosine_similarity_self_witness :
  nonzero [3; 4] /\ calculate_similarity [3; 4] [3; 4] "cosine" = inr 1.
Proof.
  assert (H : nonzero [3; 4]).
  { exists 3. split; [left; reflexivity | lra]. }
  split; [exact H | exact (cosine_similarity_self [3; 4] H)].
Defined.

(** C9. The Euclidean method returns [1 / (1 + distance)] whenever the
    distance exists, as it does for two vectors of one dimension; the
    value lies in (0, 1] and is 1 exactly when the distance is 0. *)
Theorem euclidean_similarity_range (a b : embedding) :
  (length a = length b ->
   exists s, calculate_similarity a b "euclidean" = inr s)
  /\ (forall s,
        calculate_similarity a b "euclidean" = inr s ->
        exists d,
          euclidean a b = inr d
          /\ s = 1 / (1 + d)
          /\ 0 < s <= 1
          /\ (s = 1 <-> d = 0)).
Proof.
  rewrite calculate_similarity_as_euclidean.
  unfold calculate_similarity_euclidean, euclidean.
  split.
  - intros Hlen.
    destruct (np_sub_same_length a b Hlen) as [d ->].
    eexists. reflexivity.
  - intros s H.
    inv_bind H as d0 Hd0. inv_bind Hd0 as w Hw.
    unfold ret in *. injection H as <-. injection Hd0 as <-.
    exists (sqrt (dot w w)).
    rewrite Hw. simpl.
    pose proof (sqrt_pos (dot w w)) as Hd.
    set (d := sqrt (dot w w)) in *.
    assert (Hinv : 0 < / (1 + d)) by (apply Rinv_0_lt_compat; lra).
    assert (Hle : / (1 + d) <= 1).
    { rewrite <- Rinv_1 at 2. apply Rinv_le_contravar; lra. }
    repeat split; try lra.
    + intros H1.
      assert (H2 : (1 + d) * (1 / (1 + d)) = 1) by (field; lra).
      rewrite H1 in H2. lra.
    + intros ->. field.
Qed.

Lemma euclidean_similarity_range_witness :
  exists s,
    calculate_similarity [0; 0] [3; 4] "euclidean" = inr s /\ 0 < s <= 1.
Proof.
  destruct (euclidean_similarity_range [0; 0] [3; 4]) as [Htotal Hrange].
  destruct (Htotal eq_refl) as [s Hs].
  exists s. split; [exact Hs |].
  destruct (Hrange s Hs) as [d [_ [_ [Hbounds _]]]].
  exact Hbounds.
Defined.

(** ** Loops *)

Lemma for_each_app {A B : Type} (f : A -> py B) (xs ys : list A) :
  for_each f (xs ++ ys)
  = (a <- for_each f xs ;; b <- for_each f ys ;; ret (a ++ b)).
Proof.
  induction xs as [| x xs IH]; simpl.
  - destruct (for_each f ys); reflexivity.
  - destruct (f x) as [e | y]; simpl; [reflexivity |].
    rewrite IH.
    destruct (for_each f xs) as [e | a]; simpl; [reflexivity |].
    destruct (for_each f ys); reflexivity.
Qed.

Lemma for_each_map {A B C : Type} (g : A -> B) (f : B -> py C) (xs : list A) :
  for_each f (map g xs) = for_each (fun x => f (g x)) xs.
Proof.
  induction xs as [| x xs IH]; simpl; [reflexivity |].
  rewrite IH. reflexivity.
Qed.

Lemma for_each_length {A B : Type} (f : A -> py B) (xs : list A) (ys : list B) :
  for_each f xs = inr ys -> length ys = length xs.
Proof.
  revert ys. induction xs as [| x xs IH]; simpl; intros ys H.
  - injection H as <-. reflexivity.
  - inv_bind H as y Hy. inv_bind H as zs Hzs. injection H as <-.
    simpl. f_equal. apply IH. exact Hzs.
Qed.

Lemma for_each_total {A B : Type} (f : A -> py B) (xs : list A) :
  (forall x, In x xs -> exists y, f x = inr y) ->
  exists ys, for_each f xs = inr ys.
Proof.
  induction xs as [| x xs IH]; simpl; intros H.
  - eexists. reflexivity.
  - destruct (H x) as [y Hy]; [left; reflexivity |].
    destruct IH as [ys Hys]; [intros z Hz; apply H; right; exact Hz |].
    rewrite Hy, Hys. eexists. reflexivity.
Qed.

(** Walking the indices of a list and reading each element is walking the
    list. *)
Lemma for_each_seq_nth {A B : Type} (f : A -> py B) (d : A) (l pre : list A) :
  for_each (fun j => f (nth j (pre ++ l) d)) (seq (length pre) (length l))
  = for_each f l.
Proof.
  revert pre. induction l as [| x l IH]; intros pre; simpl; [reflexivity |].
  rewrite nth_middle.
  specialize (IH (pre ++ [x])).
  rewrite <- app_assoc, length_app in IH. simpl in IH.
  rewrite Nat.add_1_r in IH. rewrite IH. reflexivity.
Qed.

(** ** Enrolment quality *)

(** The rows of the double loop from row [length pre] on, over the list
    [L = pre ++ l], are the unordered pairs of [l]. *)
Lemma pair_rows (l pre L : list embedding) :
  L = pre ++ l ->
  (rows <- for_each
             (fun i =>
                for_each
                  (fun j =>
                     calculate_similarity (nth i L []) (nth j L []) "cosine")
                  (seq (i + 1) (length L - (i + 1))))
             (seq (length pre) (length l)) ;;
   ret (concat rows))
  = pair_similarities l.
Proof.
  unfold pair_similarities.
  revert pre. induction l as [| x l IH]; intros pre HL; [reflexivity |].
  cbn [length seq for_each unordered_pairs].
  rewrite for_each_app, for_each_map. cbn [fst snd].
  assert (Hlen : (length L - (length pre + 1))%nat = length l)
    by (rewrite HL, length_app; simpl; lia).
  assert (HL' : L = (pre ++ [x]) ++ l)
    by (rewrite <- app_assoc; exact HL).
  assert (Hpre : length (pre ++ [x]) = (length pre + 1)%nat)
    by (rewrite length_app; reflexivity).
  rewrite Hlen.
  replace (nth (length pre) L []) with x by (rewrite HL, nth_middle; reflexivity).
  pose proof (for_each_seq_nth
                (fun e => calculate_similarity x e "cosine") [] l (pre ++ [x]))
    as Hrow.
  rewrite <- HL', Hpre in Hrow. rewrite Hrow.
  destruct (for_each (fun e => calculate_similarity x e "cosine") l)
    as [e | row]; [reflexivity |].
  rewrite !bind_ret_l.
  specialize (IH (pre ++ [x]) HL').
  rewrite Hpre, Nat.add_1_r in IH.
  rewrite <- IH.
  match goal with
  | |- context [for_each ?f ?xs] => destruct (for_each f xs) as [e | rows]
  end; reflexivity.
Qed.

Lemma pairwise_similarities_pairs (l : list embedding) :
  pairwise_similarities l = pair_similarities l.
Proof. exact (pair_rows l [] l eq_refl). Qed.

Lemma cosine_total (a b : embedding) :
  length a = length b -> exists s, calculate_similarity a b "cosine" = inr s.
Proof.
  intros H. rewrite calculate_similarity_as_cosine.
  unfold calculate_similarity_cosine, cosine.
  rewrite H, Nat.eqb_refl. eexists. reflexivity.
Qed.

Lemma unordered_pairs_in {A : Type} (l : list A) (p : A * A) :
  In p (unordered_pairs l) -> In (fst p) l /\ In (snd p) l.
Proof.
  induction l as [| x l IH]; simpl; [contradiction |].
  rewrite in_app_iff, in_map_iff.
  intros [[y [<- Hy]] | H].
  - simpl. split; [left; reflexivity | right; exact Hy].
  - destruct (IH H). split; right; assumption.
Qed.

Lemma pair_similarities_total (D : nat) (l : list embedding) :
  dimension D l -> exists sims, pair_similarities l = inr sims.
Proof.
  intros HD. apply for_each_total. intros p Hp.
  destruct (unordered_pairs_in l p Hp) as [Ha Hb].
  unfold dimension in HD. rewrite Forall_forall in HD.
  apply cosine_total. rewrite (HD _ Ha), (HD _ Hb). reflexivity.
Qed.

Lemma np_std_stddev (l : list R) : np_std l = stddev l.
Proof.
  unfold np_std, stddev, np_mean at 1.
  rewrite length_map. do 3 f_equal.
  apply map_ext. intros x.
  generalize (x - np_mean l). intros y.
  rewrite <- Rabs_mult, Rabs_right; [ring |].
  pose proof (Rle_0_sqr y) as Hy. unfold Rsqr in Hy. lra.
Qed.

Lemma py_clamp (lo hi x : R) :
  lo <= hi -> py_max lo (py_min hi x) = clamp lo hi x /\ lo <= clamp lo hi x <= hi.
Proof.
  intros H. unfold clamp, py_min, Rmin.
  destruct (Rlt_dec x hi), (Rle_dec hi x); try lra;
    unfold py_max, Rmax;
    repeat match goal with
           | |- context [Rlt_dec ?a ?b] => destruct (Rlt_dec a b)
           | |- context [Rle_dec ?a ?b] => destruct (Rle_dec a b)
           end; repeat split; lra.
Qed.

(** C5. Fewer than two signatures give the default 0.65; two or more, of
    one dimension, give the mean of all pairwise similarities minus their
    standard deviation, clamped to [0.5, 0.8]. *)
Theorem calculate_optimal_threshold_spec (D : nat) (signatures : list embedding) :
  ((length signatures < 2)%nat ->
   calculate_optimal_threshold signatures = inr (65 / 100))
  /\ ((2 <= length signatures)%nat ->
      dimension D signatures ->
      exists sims,
        pair_similarities signatures = inr sims
        /\ calculate_optimal_threshold signatures
           = inr (clamp (5 / 10) (8 / 10) (np_mean sims - stddev sims))
        /\ 5 / 10 <= clamp (5 / 10) (8 / 10) (np_mean sims - stddev sims)
           <= 8 / 10).
Proof.
  unfold calculate_optimal_threshold. split.
  - intros H. apply Nat.ltb_lt in H. rewrite H. reflexivity.
  - intros H HD.
    destruct (pair_similarities_total D signatures HD) as [sims Hsims].
    exists sims.
    assert (Hge : Nat.ltb (length signatures) 2 = false)
      by (apply Nat.ltb_ge; exact H).
    rewrite Hge, pairwise_similarities_pairs, Hsims, bind_ret_l.
    rewrite np_std_stddev.
    destruct (py_clamp (5 / 10) (8 / 10) (np_mean sims - stddev sims))
      as [-> Hb]; [lra |].
    split; [reflexivity | split; [reflexivity | exact Hb]].
Qed.

Lemma calculate_optimal_threshold_spec_witness :
  calculate_optimal_threshold [[1; 0]] = inr (65 / 100)
  /\ exists t,
       calculate_optimal_threshold [[1; 0]; [0; 1]] = inr t
       /\ 5 / 10 <= t <= 8 / 10.
Proof.
  split.
  - apply (proj1 (calculate_optimal_threshold_spec 2 [[1; 0]])).
    simpl. lia.
  - destruct (proj2 (calculate_optimal_threshold_spec 2 [[1; 0]; [0; 1]]))
      as [sims [_ [Hret Hb]]].
    + simpl. lia.
    + repeat constructor.
    + eexists. split; [exact Hret | exact Hb].
Defined.

(** C6. Registering exactly one sample, whatever its signature, reports
    [avg_inter_similarity] 1.0. *)
Theorem register_single_sample (extract_embedding : string -> py embedding)
  (audio_path user_name : string) (signature : embedding) :
  extract_embedding audio_path = inr signature ->
  let r := register_voice extract_embedding [audio_path] user_name in
  Registration.success r = true
  /\ Registration.embeddings r = Some [signature]
  /\ Registration.avg_inter_similarity r = Some 1.
Proof.
  intros H. unfold register_voice. simpl. rewrite H. simpl.
  repeat split.
Qed.

Lemma register_single_sample_witness :
  Registration.avg_inter_similarity
    (register_voice (fun _ => inr [1; 0]) ["a.wav"%string] "ann")
  = Some 1.
Proof.
  apply (register_single_sample (fun _ => inr [1; 0]) "a.wav" "ann" [1; 0]).
  reflexivity.
Defined.

(** ** The loop over the registered users *)

Lemma Rltb_true (x y : R) : x < y -> Rltb x y = true.
Proof. intros H. unfold Rltb. destruct (Rlt_dec x y); [reflexivity | lra]. Qed.

Lemma Rltb_false (x y : R) : y <= x -> Rltb x y = false.
Proof. intros H. unfold Rltb. destruct (Rlt_dec x y); [lra | reflexivity]. Qed.

Lemma Rgeb_true (x y : R) : y <= x -> Rgeb x y = true.
Proof. intros H. unfold Rgeb. destruct (Rge_dec x y); [reflexivity | lra]. Qed.

Lemma for_each_cons_inr {A B : Type} (f : A -> py B) (x : A) (xs : list A)
  (ys : list B) :
  for_each f (x :: xs) = inr ys ->
  exists y ys', ys = y :: ys' /\ f x = inr y /\ for_each f xs = inr ys'.
Proof.
  simpl. intros H.
  inv_bind H as y Hy. inv_bind H as ys' Hys'. injection H as <-.
  exists y, ys'. repeat split; assumption.
Qed.

(** One iteration, for a profile that has a mean: the entry is appended
    and the running best is replaced when the mean is strictly greater. *)
Lemma compare_user_step (probe : embedding) (method : string) (u : User.t)
  (m : R) (best_match : option string) (best_score : R)
  (all_scores : list Score.t) :
  profile_mean probe method u = inr m ->
  exists entry,
    compare_user probe method (best_match, best_score, all_scores) u
    = inr (if Rgtb m best_score
           then (Some (User.name u), m, all_scores ++ [entry])
           else (best_match, best_score, all_scores ++ [entry])).
Proof.
  unfold profile_mean, compare_user. intros H.
  inv_bind H as sims Hsims. rewrite Hsims, bind_ret_l.
  destruct sims as [| x sims]; [discriminate |].
  injection H as <-.
  cbn [np_max np_min]. rewrite !bind_ret_l.
  eexists.
  destruct (Rgtb (np_mean (x :: sims)) best_score); reflexivity.
Qed.

(** No mean above the running best: the running best is kept. *)
Lemma scan_keep (probe : embedding) (method : string) (users : list User.t) :
  forall means best_match best_score all_scores,
    profile_means probe method users means ->
    (forall m, In m means -> m <= best_score) ->
    exists all_scores',
      for_fold (compare_user probe method) users
        (best_match, best_score, all_scores)
      = inr (best_match, best_score, all_scores').
Proof.
  unfold profile_means.
  induction users as [| u users IH]; intros means bm bs sc Hm Hle.
  - eexists. reflexivity.
  - apply for_each_cons_inr in Hm. destruct Hm as [m [ms [-> [Hu Hms]]]].
    destruct (compare_user_step probe method u m bm bs sc Hu) as [entry Hstep].
    cbn [for_fold]. rewrite Hstep, bind_ret_l.
    unfold Rgtb. rewrite Rltb_false by (apply Hle; left; reflexivity).
    apply (IH ms); [exact Hms |].
    intros x Hx. apply Hle. right. exact Hx.
Qed.

Lemma first_greatest_head (m : R) (ms : list R) (s : R) :
  first_greatest (m :: ms) 0 s -> s = m /\ forall x, In x ms -> x <= s.
Proof.
  intros [H0 [Hall _]]. injection H0 as <-. split; [reflexivity |].
  intros x Hx. apply In_nth_error in Hx. destruct Hx as [j Hj].
  apply (Hall (S j)). exact Hj.
Qed.

Lemma first_greatest_tail (m : R) (ms : list R) (i : nat) (s : R) :
  first_greatest (m :: ms) (S i) s -> m < s /\ first_greatest ms i s.
Proof.
  intros [Hi [Hall Hbefore]]. split.
  - apply (Hbefore 0%nat); [lia | reflexivity].
  - split; [exact Hi | split].
    + intros j x Hj. apply (Hall (S j)). exact Hj.
    + intros j x Hlt Hj. apply (Hbefore (S j)); [lia | exact Hj].
Qed.

(** A greatest mean above the running best: its first profile replaces
    the running best. *)
Lemma scan_select (probe : embedding) (method : string) (users : list User.t) :
  forall means i s u best_match best_score all_scores,
    profile_means probe method users means ->
    first_greatest means i s ->
    nth_error users i = Some u ->
    best_score < s ->
    exists all_scores',
      for_fold (compare_user probe method) users
        (best_match, best_score, all_scores)
      = inr (Some (User.name u), s, all_scores').
Proof.
  induction users as [| u0 users IH]; intros means i s u bm bs sc Hm Hfg Hu Hlt.
  - destruct i; discriminate.
  - pose proof Hm as Hm'. unfold profile_means in Hm'.
    apply for_each_cons_inr in Hm'. destruct Hm' as [m [ms [-> [Hu0 Hms]]]].
    destruct (compare_user_step probe method u0 m bm bs sc Hu0)
      as [entry Hstep].
    cbn [for_fold]. rewrite Hstep, bind_ret_l.
    destruct i as [| i].
    + apply first_greatest_head in Hfg. destruct Hfg as [-> Hle].
      injection Hu as <-.
      unfold Rgtb. rewrite Rltb_true by exact Hlt.
      apply (scan_keep probe method users ms); assumption.
    + apply first_greatest_tail in Hfg. destruct Hfg as [Hms_lt Hfg].
      cbn [nth_error] in Hu.
      destruct (Rgtb m bs).
      * apply (IH ms i s u); assumption.
      * apply (IH ms i s u); assumption.
Qed.

Lemma first_greatest_exists (means : list R) :
  means <> [] -> exists i s, first_greatest means i s.
Proof.
  induction means as [| m ms IH]; intros Hne; [contradiction |].
  destruct ms as [| m' ms].
  - exists 0%nat, m. split; [reflexivity | split].
    + intros [| j] x Hj; [injection Hj as <-; lra | destruct j; discriminate].
    + intros j x Hj. lia.
  - destruct IH as [i [s [Hi [Hall Hbefore]]]]; [discriminate |].
    destruct (Rlt_dec m s) as [Hlt | Hge].
    + exists (S i), s. split; [exact Hi | split].
      * intros [| j] x Hj; [injection Hj as <-; lra | apply (Hall j); exact Hj].
      * intros [| j] x Hj Hx;
          [injection Hx as <-; exact Hlt | apply (Hbefore j); [lia | exact Hx]].
    + exists 0%nat, m. split; [reflexivity | split].
      * intros [| j] x Hj; [injection Hj as <-; lra |].
        specialize (Hall j x Hj). lra.
      * intros j x Hj. lia.
Qed.

Lemma first_greatest_bounds (means : list R) (i : nat) (s : R) :
  first_greatest means i s -> forall m, In m means -> m <= s.
Proof.
  intros [_ [Hall _]] m Hm.
  apply In_nth_error in Hm. destruct Hm as [j Hj].
  apply (Hall j). exact Hj.
Qed.

Lemma profile_means_length (probe : embedding) (method : string)
  (users : list User.t) (means : list R) :
  profile_means probe method users means -> length means = length users.
Proof. apply for_each_length. Qed.

Lemma profile_means_user (probe : embedding) (method : string)
  (users : list User.t) (means : list R) (i : nat) (s : R) :
  profile_means probe method users means ->
  nth_error means i = Some s ->
  exists u, nth_error users i = Some u.
Proof.
  intros Hm Hi.
  assert (Hlt : (i < length users)%nat).
  { rewrite <- (profile_means_length _ _ _ _ Hm).
    apply nth_error_Some. rewrite Hi. discriminate. }
  destruct (nth_error users i) as [u |] eqn:Hu.
  - exists u. reflexivity.
  - apply nth_error_None in Hu. lia.
Qed.

Lemma euclidean_total (a b : embedding) :
  length a = length b ->
  exists s, calculate_similarity a b "euclidean" = inr s.
Proof.
  intros H. rewrite calculate_similarity_as_euclidean.
  unfold calculate_similarity_euclidean, euclidean.
  destruct (np_sub_same_length a b H) as [d ->].
  eexists. reflexivity.
Qed.

(** Profiles that hold at least one signature each, all of the probe's
    dimension, have their means under both methods: the loop raises
    nothing on well-formed data. *)
Lemma profile_means_total (probe : embedding) (method : string)
  (users : list User.t) :
  method = "cosine"%string \/ method = "euclidean"%string ->
  (forall u, In u users ->
     User.voice_embeddings u <> []
     /\ dimension (length probe) (User.voice_embeddings u)) ->
  exists means, profile_means probe method users means.
Proof.
  intros Hmethod Hwf. apply for_each_total. intros u Hu.
  destruct (Hwf u Hu) as [Hne Hdim].
  unfold profile_mean, user_similarities.
  destruct (for_each_total
              (fun e => calculate_similarity probe e method)
              (User.voice_embeddings u)) as [sims Hsims].
  - intros e He. unfold dimension in Hdim. rewrite Forall_forall in Hdim.
    specialize (Hdim e He).
    destruct Hmethod as [-> | ->];
      [apply cosine_total | apply euclidean_total]; symmetry; exact Hdim.
  - rewrite Hsims, bind_ret_l.
    destruct sims as [| x sims].
    + apply for_each_length in Hsims.
      destruct (User.voice_embeddings u); [contradiction | discriminate].
    + eexists. reflexivity.
Qed.

(** ** Classification *)

Lemma classify_silence (best_score : R) (best_match : option string)
  (threshold : R) :
  best_score < 5 / 100 ->
  classify best_score best_match threshold
  = (false, Some "Can't hear someone speaking"%string,
     "NO VOICE DETECTED"%string).
Proof.
  intros H. unfold classify, SILENCE_THRESHOLD.
  rewrite Rltb_true by exact H. reflexivity.
Qed.

Lemma classify_unknown (best_score : R) (best_match : option string)
  (threshold : R) :
  5 / 100 <= best_score < 30 / 100 ->
  classify best_score best_match threshold
  = (false, Some "Unknown Person Speaking"%string, "UNKNOWN SPEAKER"%string).
Proof.
  intros [H1 H2]. unfold classify, SILENCE_THRESHOLD, MIN_DETECTION_THRESHOLD.
  rewrite Rltb_false by exact H1. rewrite Rltb_true by exact H2. reflexivity.
Qed.

Lemma classify_low (best_score : R) (best_match : option string)
  (threshold : R) :
  30 / 100 <= best_score < threshold ->
  classify best_score best_match threshold
  = (true, best_match, "LOW CONFIDENCE MATCH"%string).
Proof.
  intros [H1 H2]. unfold classify, SILENCE_THRESHOLD, MIN_DETECTION_THRESHOLD.
  rewrite Rltb_false by lra. rewrite Rltb_false by exact H1.
  rewrite Rgeb_true by exact H1. rewrite Rltb_true by exact H2. reflexivity.
Qed.

Lemma classify_high (best_score : R) (best_match : option string)
  (threshold : R) :
  30 / 100 <= best_score -> threshold <= best_score ->
  classify best_score best_match threshold
  = (true, best_match, "SPEAKER IDENTIFIED"%string).
Proof.
  intros H1 H2. unfold classify, SILENCE_THRESHOLD, MIN_DETECTION_THRESHOLD.
  rewrite Rltb_false by lra. rewrite Rltb_false by exact H1.
  rewrite Rgeb_true by exact H1. rewrite Rltb_false by exact H2. reflexivity.
Qed.

(** ** Rounding *)

Lemma round_half_even_IZR (z : Z) : round_half_even (IZR z) = z.
Proof.
  unfold round_half_even.
  assert (H : Int_part (IZR z) = z)
    by (symmetry; apply Int_part_spec; lra).
  rewrite H.
  destruct (Rlt_dec (IZR z - IZR z) (1 / 2)); [reflexivity | lra].
Qed.

(** [round_half_even] gives a nearest integer. *)
Lemma round_half_even_nearest (x : R) :
  Rabs (IZR (round_half_even x) - x) <= 1 / 2.
Proof.
  unfold round_half_even.
  destruct (base_Int_part x) as [Hlo Hhi].
  set (f := Int_part x) in *.
  destruct (Rlt_dec (x - IZR f) (1 / 2)) as [Hd | Hd].
  - rewrite Rabs_left1; lra.
  - destruct (Rlt_dec (1 / 2) (x - IZR f)) as [Hu | Hu].
    + rewrite plus_IZR. rewrite Rabs_pos_eq; lra.
    + destruct (Z.even f).
      * rewrite Rabs_left1; lra.
      * rewrite plus_IZR. rewrite Rabs_pos_eq; lra.
Qed.

Lemma Rabs_le_bounds (a b : R) : Rabs a <= b -> - b <= a <= b.
Proof. unfold Rabs. destruct (Rcase_abs a); lra. Qed.

(** [round(x, 2)] is a multiple of 0.01 within 0.005 of [x]. *)
Lemma py_round2_nearest (x : R) :
  (exists z, py_round2 x = IZR z / 100)
  /\ Rabs (py_round2 x - x) <= 5 / 1000.
Proof.
  unfold py_round2. split; [eexists; reflexivity |].
  pose proof (round_half_even_nearest (x * 100)) as H.
  set (z := IZR (round_half_even (x * 100))) in *.
  apply Rabs_le. apply Rabs_le_bounds in H. lra.
Qed.

Lemma py_round2_exact (x : R) (z : Z) :
  x * 100 = IZR z -> py_round2 x = IZR z / 100.
Proof.
  intros H. unfold py_round2. rewrite H, round_half_even_IZR. reflexivity.
Qed.

Lemma py_round2_zero : py_round2 (0 * 100) = 0.
Proof. rewrite (py_round2_exact (0 * 100) 0); lra. Qed.

(** ** The ranked score list *)

(** The sort keeps the entries. *)
Lemma insert_desc_perm (e : Score.t) (l : list Score.t) :
  Permutation (insert_desc e l) (e :: l).
Proof.
  induction l as [| h l IH]; simpl; [reflexivity |].
  destruct (Rltb (Score.avg_score e) (Score.avg_score h)).
  - rewrite IH. apply perm_swap.
  - reflexivity.
Qed.

Lemma sort_desc_perm (l : list Score.t) : Permutation (sort_desc l) l.
Proof.
  induction l as [| e l IH]; simpl; [reflexivity |].
  rewrite insert_desc_perm, IH. reflexivity.
Qed.

Lemma insert_desc_sorted (e : Score.t) (l : list Score.t) :
  Sorted descending l -> Sorted descending (insert_desc e l).
Proof.
  induction l as [| h l IH]; simpl; intros Hs.
  - repeat constructor.
  - unfold Rltb.
    destruct (Rlt_dec (Score.avg_score e) (Score.avg_score h)) as [Hlt | Hge].
    + apply Sorted_inv in Hs. destruct Hs as [Hs Hhd].
      constructor; [apply IH; exact Hs |].
      destruct l as [| h' l]; simpl.
      * constructor. unfold descending. lra.
      * unfold Rltb.
        destruct (Rlt_dec (Score.avg_score e) (Score.avg_score h'));
          constructor.
        -- apply HdRel_inv in Hhd. exact Hhd.
        -- unfold descending. lra.
    + constructor; [exact Hs |].
      constructor. unfold descending. lra.
Qed.

Lemma sort_desc_sorted (l : list Score.t) : Sorted descending (sort_desc l).
Proof.
  induction l as [| e l IH]; simpl; [constructor |].
  apply insert_desc_sorted. exact IH.
Qed.

(** ** Identification *)

Section Identify.

Variable extract_embedding : string -> py embedding.
Variables (audio_path : string) (probe : embedding).
Hypothesis extracted : extract_embedding audio_path = inr probe.

Variables (users : list User.t) (threshold : R) (method : string).

(** What the call returns and logs once the loop has run. *)
Lemma identify_after_scan (best_match : option string) (best_score : R)
  (all_scores : list Score.t) (identified : bool)
  (result_name : option string) (status_msg : string) :
  users <> [] ->
  for_fold (compare_user probe method) users scan_start
  = inr (best_match, best_score, all_scores) ->
  classify best_score best_match threshold
  = (identified, result_name, status_msg) ->
  identify_speaker extract_embedding audio_path users threshold method
  = Identification.mk identified result_name (py_round2 (best_score * 100))
      (sort_desc all_scores) (Some (py_round2 (threshold * 100)))
      (Some method) None
  /\ identify_status extract_embedding audio_path users threshold method
     = Some status_msg.
Proof.
  intros Hne Hscan Hc.
  unfold identify_speaker, identify_status, identify_try.
  destruct users as [| u0 us]; [contradiction |].
  rewrite extracted, bind_ret_l, Hscan, bind_ret_l, Hc.
  split; reflexivity.
Qed.

Variable means : list R.
Hypothesis Hmeans : profile_means probe method users means.

(** The loop on its own: the running best ends as the first greatest
    mean when that is positive, and as it started otherwise. *)
Lemma scan_best (i : nat) (s : R) (u : User.t) :
  first_greatest means i s ->
  nth_error users i = Some u ->
  exists all_scores,
    for_fold (compare_user probe method) users scan_start
    = inr (if Rltb 0 s then (Some (User.name u), s, all_scores)
           else (None, 0, all_scores)).
Proof.
  intros Hfg Hu.
  destruct (Rlt_dec 0 s) as [Hpos | Hneg].
  - rewrite Rltb_true by exact Hpos.
    exact (scan_select probe method users means i s u None 0 [] Hmeans
             Hfg Hu Hpos).
  - rewrite Rltb_false by lra.
    apply (scan_keep probe method users means None 0 [] Hmeans).
    intros m Hm. pose proof (first_greatest_bounds means i s Hfg m Hm). lra.
Qed.

Lemma users_nonempty (i : nat) (u : User.t) :
  nth_error users i = Some u -> users <> [].
Proof. intros H ->. destruct i; discriminate. Qed.

Lemma identify_outcome (best_match : option string) (best_score : R)
  (all_scores : list Score.t) (identified : bool)
  (result_name status_msg : string) :
  users <> [] ->
  for_fold (compare_user probe method) users scan_start
  = inr (best_match, best_score, all_scores) ->
  classify best_score best_match threshold
  = (identified, Some result_name, status_msg) ->
  outcome
    (identify_speaker extract_embedding audio_path users threshold method)
    (identify_status extract_embedding audio_path users threshold method)
    identified result_name status_msg
  /\ Identification.confidence
       (identify_speaker extract_embedding audio_path users threshold method)
     = py_round2 (best_score * 100).
Proof.
  intros Hne Hscan Hc.
  destruct (identify_after_scan _ _ _ _ _ _ Hne Hscan Hc) as [-> ->].
  repeat split.
Qed.

(** C1 (amended). With [s] the greatest mean and [u] its first profile,
    the result is classified by the cut points in their order: below
    0.05 no voice; from 0.05 to below 0.30 unknown speaker; from 0.30 to
    below the threshold identified as [u] with low confidence; at or
    above both 0.30 and the threshold identified as [u] with high
    confidence, the confidence being [s * 100] rounded to 2 decimals. *)
Theorem identify_tiers (i : nat) (s : R) (u : User.t) :
  first_greatest means i s ->
  nth_error users i = Some u ->
  tiers_in_order
    (identify_speaker extract_embedding audio_path users threshold method)
    (identify_status extract_embedding audio_path users threshold method)
    s threshold (User.name u).
Proof.
  intros Hfg Hu.
  pose proof (users_nonempty i u Hu) as Hne.
  destruct (scan_best i s u Hfg Hu) as [sc Hscan].
  unfold tiers_in_order.
  split; [| split; [| split]].
  - intros Hs.
    destruct (Rlt_dec 0 s) as [Hpos | Hneg].
    + rewrite Rltb_true in Hscan by exact Hpos.
      apply (identify_outcome _ _ _ _ _ _ Hne Hscan
               (classify_silence _ _ _ Hs)).
    + rewrite Rltb_false in Hscan by lra.
      assert (H0 : 0 < 5 / 100) by lra.
      apply (identify_outcome _ _ _ _ _ _ Hne Hscan
               (classify_silence _ _ _ H0)).
  - intros Hs.
    rewrite Rltb_true in Hscan by lra.
    apply (identify_outcome _ _ _ _ _ _ Hne Hscan
             (classify_unknown _ _ _ Hs)).
  - intros Hs.
    rewrite Rltb_true in Hscan by lra.
    apply (identify_outcome _ _ _ _ _ _ Hne Hscan (classify_low _ _ _ Hs)).
  - intros [Hmin Hs].
    rewrite Rltb_true in Hscan by lra.
    apply (identify_outcome _ _ _ _ _ _ Hne Hscan
             (classify_high _ _ _ Hmin (Rge_le _ _ Hs))).
Qed.

End Identify.

(** ** Sample runs *)

Lemma cosine_value (a b : embedding) :
  length a = length b ->
  calculate_similarity a b "cosine"
  = inr (1 - (1 - dot a b / sqrt (dot a a * dot b b))).
Proof.
  intros H. rewrite calculate_similarity_as_cosine.
  unfold calculate_similarity_cosine, cosine.
  rewrite H, Nat.eqb_refl. reflexivity.
Qed.

Lemma profile_mean_single (probe stored : embedding) (name : string) (m : R) :
  length probe = length stored ->
  dot probe stored / sqrt (dot probe probe * dot stored stored) = m ->
  profile_mean probe "cosine" (User.mk name [stored]) = inr m.
Proof.
  intros Hlen Hm.
  unfold profile_mean, user_similarities. cbn [User.voice_embeddings for_each].
  rewrite (cosine_value probe stored Hlen). rewrite !bind_ret_l.
  unfold ret, np_mean. cbn [Rsum fold_right length INR]. f_equal.
  rewrite Hm. field.
Qed.

(** The probe (7, 24) against ann's (1, 0): cosine 7/25. *)
Lemma ann_mean : profile_mean [7; 24] "cosine" ann = inr (28 / 100).
Proof.
  apply profile_mean_single; [reflexivity |].
  unfold dot. cbn [combine map Rsum fold_right fst snd].
  replace ((7 * 7 + (24 * 24 + 0)) * (1 * 1 + (0 * 0 + 0))) with (25 * 25)
    by ring.
  rewrite sqrt_square by lra. field.
Qed.

Lemma ann_means : profile_means [7; 24] "cosine" [ann] [28 / 100].
Proof.
  unfold profile_means. cbn [for_each]. rewrite ann_mean. reflexivity.
Qed.

(** The probe (1, 0) against bob's (0, 1): cosine 0. *)
Lemma bob_mean : profile_mean [1; 0] "cosine" bob = inr 0.
Proof.
  apply profile_mean_single; [reflexivity |].
  unfold dot. cbn [combine map Rsum fold_right fst snd].
  replace (1 * 0 + (0 * 1 + 0)) with 0 by ring.
  unfold Rdiv. ring.
Qed.

(** The probe (1, 0) against cat's (-1, 0): cosine -1. *)
Lemma cat_mean : profile_mean [1; 0] "cosine" cat = inr (-1).
Proof.
  apply profile_mean_single; [reflexivity |].
  unfold dot. cbn [combine map Rsum fold_right fst snd].
  replace ((1 * 1 + (0 * 0 + 0)) * (-1 * -1 + (0 * 0 + 0))) with (1 * 1)
    by ring.
  rewrite sqrt_square by lra. field.
Qed.

Lemma bob_cat_means : profile_means [1; 0] "cosine" [bob; cat] [0; -1].
Proof.
  unfold profile_means. cbn [for_each].
  rewrite bob_mean, cat_mean. reflexivity.
Qed.

Lemma cat_means : profile_means [1; 0] "cosine" [cat] [-1].
Proof.
  unfold profile_means. cbn [for_each]. rewrite cat_mean. reflexivity.
Qed.

Lemma first_greatest_single (m : R) : first_greatest [m] 0 m.
Proof.
  split; [reflexivity | split].
  - intros [| j] x Hj; [injection Hj as <-; lra | destruct j; discriminate].
  - intros j x Hj. lia.
Qed.

Lemma ann_similarity :
  calculate_similarity [7; 24] [1; 0] "cosine" = inr (28 / 100).
Proof.
  rewrite cosine_value by reflexivity. f_equal.
  unfold dot. cbn [combine map Rsum fold_right fst snd].
  replace ((7 * 7 + (24 * 24 + 0)) * (1 * 1 + (0 * 0 + 0))) with (25 * 25)
    by ring.
  rewrite sqrt_square by lra. field.
Qed.

(** The loop, run on the probe (7, 24) and the single user ann. *)
Lemma ann_scan :
  for_fold (compare_user [7; 24] "cosine") [ann] scan_start
  = inr (Some "ann"%string, 28 / 100,
         [Score.mk "ann" (28 / 100) (28 / 100) (28 / 100) 1]).
Proof.
  unfold ann, scan_start. cbn [for_fold].
  unfold compare_user, user_similarities.
  cbn [User.voice_embeddings User.name for_each].
  rewrite ann_similarity, !bind_ret_l.
  cbn [np_max np_min fold_left]. rewrite !bind_ret_l.
  assert (Hm : np_mean [28 / 100] = 28 / 100)
    by (unfold np_mean; cbn [Rsum fold_right length INR]; field).
  rewrite Hm. unfold Rgtb. rewrite Rltb_true by lra.
  reflexivity.
Qed.

(** The whole dictionary of one call: threshold 0.25, best mean 0.28. *)
Lemma identify_run_unknown :
  identify_speaker (constant_encoder [7; 24]) "probe.wav" [ann] (25 / 100)
    "cosine"
  = Identification.mk false (Some "Unknown Person Speaking"%string) 28
      [Score.mk "ann" (28 / 100) (28 / 100) (28 / 100) 1]
      (Some 25) (Some "cosine"%string) None.
Proof.
  assert (Hne : [ann] <> []) by discriminate.
  assert (Hs : 5 / 100 <= 28 / 100 < 30 / 100) by lra.
  destruct (identify_after_scan (constant_encoder [7; 24]) "probe.wav" [7; 24]
              eq_refl [ann] (25 / 100) "cosine" _ _ _ _ _ _ Hne ann_scan
              (classify_unknown _ _ _ Hs)) as [-> _].
  rewrite (py_round2_exact (28 / 100 * 100) 2800) by lra.
  rewrite (py_round2_exact (25 / 100 * 100) 2500) by lra.
  replace (2800 / 100) with 28 by lra.
  replace (2500 / 100) with 25 by lra.
  reflexivity.
Qed.

(** The same call with the default threshold 0.65. *)
Lemma identify_run_default_threshold :
  identify_speaker (constant_encoder [7; 24]) "probe.wav" [ann] (65 / 100)
    "cosine"
  = Identification.mk false (Some "Unknown Person Speaking"%string) 28
      [Score.mk "ann" (28 / 100) (28 / 100) (28 / 100) 1]
      (Some 65) (Some "cosine"%string) None.
Proof.
  assert (Hne : [ann] <> []) by discriminate.
  assert (Hs : 5 / 100 <= 28 / 100 < 30 / 100) by lra.
  destruct (identify_after_scan (constant_encoder [7; 24]) "probe.wav" [7; 24]
              eq_refl [ann] (65 / 100) "cosine" _ _ _ _ _ _ Hne ann_scan
              (classify_unknown _ _ _ Hs)) as [-> _].
  rewrite (py_round2_exact (28 / 100 * 100) 2800) by lra.
  rewrite (py_round2_exact (65 / 100 * 100) 6500) by lra.
  replace (2800 / 100) with 28 by lra.
  replace (6500 / 100) with 65 by lra.
  reflexivity.
Qed.

Lemma identify_tiers_witness :
  tiers_in_order
    (identify_speaker (constant_encoder [7; 24]) "probe.wav" [ann] (65 / 100)
       "cosine")
    (identify_status (constant_encoder [7; 24]) "probe.wav" [ann] (65 / 100)
       "cosine")
    (28 / 100) (65 / 100) "ann".
Proof.
  apply (identify_tiers (constant_encoder [7; 24]) "probe.wav" [7; 24]
           eq_refl [ann] (65 / 100) "cosine" [28 / 100] ann_means
           0 (28 / 100) ann).
  - apply first_greatest_single.
  - reflexivity.
Defined.

(** C1, as first stated, fails: with threshold 0.25 a best mean of 0.28 is
    at or above the threshold, yet the speaker is not identified. *)
Lemma identify_high_tier_below_min_detection :
  let r := identify_speaker (constant_encoder [7; 24]) "probe.wav" [ann]
             (25 / 100) "cosine" in
  let status := identify_status (constant_encoder [7; 24]) "probe.wav" [ann]
                  (25 / 100) "cosine" in
  profile_means [7; 24] "cosine" [ann] [28 / 100]
  /\ first_greatest [28 / 100] 0 (28 / 100)
  /\ nth_error [ann] 0 = Some ann
  /\ 28 / 100 >= 25 / 100
  /\ Identification.identified r = false
  /\ Identification.name r = Some "Unknown Person Speaking"%string
  /\ ~ tiers_by_threshold_alone r status (28 / 100) (25 / 100) "ann".
Proof.
  intros r status.
  assert (Hne : [ann] <> []) by discriminate.
  destruct (scan_best [7; 24] [ann] "cosine" [28 / 100] ann_means 0 (28 / 100)
              ann (first_greatest_single _) eq_refl) as [sc Hscan].
  rewrite Rltb_true in Hscan by lra.
  assert (Hs : 5 / 100 <= 28 / 100 < 30 / 100) by lra.
  destruct (identify_outcome (constant_encoder [7; 24]) "probe.wav" [7; 24]
              eq_refl [ann] (25 / 100) "cosine" _ _ _ _ _ _ Hne Hscan
              (classify_unknown _ _ _ Hs)) as [[Hid [Hname _]] _].
  fold r in Hid, Hname.
  split; [exact ann_means |].
  split; [apply first_greatest_single |].
  split; [reflexivity |].
  split; [lra |].
  split; [exact Hid |].
  split; [exact Hname |].
  intros [_ [_ [_ H4]]].
  destruct H4 as [[Hid' _] _]; [lra |].
  rewrite Hid in Hid'. discriminate.
Qed.

(** ** The best match *)

(** The first greatest mean is one position and one value. *)
Lemma first_greatest_unique (means : list R) (i j : nat) (s t : R) :
  first_greatest means i s -> first_greatest means j t -> i = j /\ s = t.
Proof.
  intros [Hi [Hall Hbefore]] [Hj [Hall' Hbefore']].
  assert (Hst : s = t).
  { apply Rle_antisym; [apply (Hall' i) | apply (Hall j)]; assumption. }
  split; [| exact Hst]. subst t.
  destruct (Nat.lt_trichotomy i j) as [Hlt | [Heq | Hgt]]; [| exact Heq |].
  - pose proof (Hbefore' i s Hlt Hi). lra.
  - pose proof (Hbefore j s Hgt Hj). lra.
Qed.

(** C2 (amended). When some profile has a positive mean similarity to the
    probe, [identify_speaker] selects as best match the profile of
    greatest mean, and of two profiles with that mean the one met first:
    its loop leaves this profile's name and mean in [best_match] and
    [best_score], the confidence it returns is this mean as a percentage,
    and the name it returns is this profile's whenever the mean reaches
    0.30, where a speaker is named at all. *)
Theorem best_match_first_greatest
  (extract_embedding : string -> py embedding) (audio_path : string)
  (probe : embedding) (method : string) (users : list User.t)
  (means : list R) (threshold : R) :
  extract_embedding audio_path = inr probe ->
  profile_means probe method users means ->
  (exists m, In m means /\ 0 < m) ->
  selects_first_greatest probe method users means
  /\ exists i u s,
       first_greatest means i s
       /\ nth_error users i = Some u
       /\ let r := identify_speaker extract_embedding audio_path users
                     threshold method in
          Identification.confidence r = py_round2 (s * 100)
          /\ (30 / 100 <= s ->
              Identification.identified r = true
              /\ Identification.name r = Some (User.name u))
          /\ (s < 30 / 100 -> Identification.identified r = false).
Proof.
  intros Hex Hmeans [m [Hin Hpos]].
  assert (Hne : means <> []) by (intros ->; contradiction).
  destruct (first_greatest_exists means Hne) as [i [s Hfg]].
  pose proof (first_greatest_bounds means i s Hfg m Hin) as Hle.
  destruct (profile_means_user probe method users means i s Hmeans
              (proj1 Hfg)) as [u Hu].
  assert (Hs : 0 < s) by lra.
  destruct (scan_select probe method users means i s u None 0 [] Hmeans Hfg
              Hu Hs) as [sc Hscan].
  split.
  - exists i, u, s, sc. repeat split; try assumption; apply Hfg.
  - exists i, u, s. split; [exact Hfg | split; [exact Hu |]].
    intros r.
    assert (Husers : users <> []) by (intros ->; destruct i; discriminate).
    destruct (classify s (Some (User.name u)) threshold)
      as [[identified result_name] status_msg] eqn:Hc.
    destruct (identify_after_scan extract_embedding audio_path probe Hex users
                threshold method _ _ _ _ _ _ Husers Hscan Hc) as [Hr _].
    subst r. rewrite Hr.
    cbn [Identification.confidence Identification.identified
           Identification.name].
    split; [reflexivity | split].
    + intros H30. destruct (Rlt_dec s threshold) as [Hlt | Hge].
      * rewrite classify_low in Hc by lra.
        injection Hc as <- <- _. split; reflexivity.
      * rewrite classify_high in Hc by lra.
        injection Hc as <- <- _. split; reflexivity.
    + intros H30. destruct (Rlt_dec s (5 / 100)) as [Hlt | Hge].
      * rewrite classify_silence in Hc by exact Hlt.
        injection Hc as <- _ _. reflexivity.
      * rewrite classify_unknown in Hc by lra.
        injection Hc as <- _ _. reflexivity.
Qed.

(** The probe (3, 4) against ann's (1, 0), bob's (0, 1) and eve's (0, 2):
    cosines 3/5, 4/5 and 4/5, so that bob and eve tie above ann. *)
Lemma ann_bob_eve_means :
  profile_means [3; 4] "cosine" [ann; bob; eve] [6 / 10; 8 / 10; 8 / 10].
Proof.
  assert (Hann : profile_mean [3; 4] "cosine" ann = inr (6 / 10)).
  { apply profile_mean_single; [reflexivity |].
    unfold dot. cbn [combine map Rsum fold_right fst snd].
    replace ((3 * 3 + (4 * 4 + 0)) * (1 * 1 + (0 * 0 + 0))) with (5 * 5)
      by ring.
    rewrite sqrt_square by lra. field. }
  assert (Hbob : profile_mean [3; 4] "cosine" bob = inr (8 / 10)).
  { apply profile_mean_single; [reflexivity |].
    unfold dot. cbn [combine map Rsum fold_right fst snd].
    replace ((3 * 3 + (4 * 4 + 0)) * (0 * 0 + (1 * 1 + 0))) with (5 * 5)
      by ring.
    rewrite sqrt_square by lra. field. }
  assert (Heve : profile_mean [3; 4] "cosine" eve = inr (8 / 10)).
  { apply profile_mean_single; [reflexivity |].
    unfold dot. cbn [combine map Rsum fold_right fst snd].
    replace ((3 * 3 + (4 * 4 + 0)) * (0 * 0 + (2 * 2 + 0))) with (10 * 10)
      by ring.
    rewrite sqrt_square by lra. field. }
  unfold profile_means. cbn [for_each].
  rewrite Hann, Hbob, Heve. reflexivity.
Qed.

Lemma tie_first_greatest :
  first_greatest [6 / 10; 8 / 10; 8 / 10] 1 (8 / 10).
Proof.
  split; [reflexivity | split].
  - intros [| [| [| j]]] x Hj; try (injection Hj as <-; lra).
    destruct j; discriminate.
  - intros [| j] x Hlt Hj; [injection Hj as <-; lra | lia].
Qed.

Lemma best_match_first_greatest_witness :
  let r := identify_speaker (constant_encoder [3; 4]) "probe.wav"
             [ann; bob; eve] (65 / 100) "cosine" in
  profile_means [3; 4] "cosine" [ann; bob; eve] [6 / 10; 8 / 10; 8 / 10]
  /\ selects_first_greatest [3; 4] "cosine" [ann; bob; eve]
       [6 / 10; 8 / 10; 8 / 10]
  /\ Identification.identified r = true
  /\ Identification.name r = Some "bob"%string
  /\ Identification.confidence r = py_round2 (8 / 10 * 100).
Proof.
  intros r.
  destruct (best_match_first_greatest (constant_encoder [3; 4]) "probe.wav"
              [3; 4] "cosine" [ann; bob; eve] [6 / 10; 8 / 10; 8 / 10]
              (65 / 100) eq_refl ann_bob_eve_means)
    as [Hsel [i [u [s [Hfg [Hu [Hconf [Hnamed _]]]]]]]].
  { exists (6 / 10). split; [left; reflexivity | lra]. }
  destruct (first_greatest_unique _ _ _ _ _ Hfg tie_first_greatest)
    as [-> ->].
  injection Hu as <-.
  destruct Hnamed as [Hid Hname]; [lra |].
  split; [exact ann_bob_eve_means |].
  split; [exact Hsel |].
  split; [exact Hid | split; [exact Hname | exact Hconf]].
Defined.

(** C2, as first stated, fails: a single profile whose mean is -1 is the
    profile of greatest mean, and the loop selects no one. *)
Lemma best_match_none_at_negative_mean :
  [cat] <> []
  /\ profile_means [1; 0] "cosine" [cat] [-1]
  /\ first_greatest [-1] 0 (-1)
  /\ (exists all_scores,
        for_fold (compare_user [1; 0] "cosine") [cat] scan_start
        = inr (None, 0, all_scores))
  /\ ~ selects_first_greatest [1; 0] "cosine" [cat] [-1].
Proof.
  destruct (scan_keep [1; 0] "cosine" [cat] [-1] None 0 [] cat_means)
    as [sc Hkeep].
  { intros m [<- | []]. lra. }
  split; [discriminate |].
  split; [exact cat_means |].
  split; [apply first_greatest_single |].
  split; [exists sc; exact Hkeep |].
  intros [i [u [s [sc' [_ [_ Hscan]]]]]].
  unfold scan_start in Hscan. rewrite Hkeep in Hscan. discriminate.
Qed.

(** Two profiles with one mean: the first is the best match. *)
Lemma tie_goes_to_first (probe : embedding) (method : string) (u1 u2 : User.t)
  (m : R) :
  profile_means probe method [u1; u2] [m; m] ->
  0 < m ->
  exists all_scores,
    for_fold (compare_user probe method) [u1; u2] scan_start
    = inr (Some (User.name u1), m, all_scores).
Proof.
  intros Hmeans Hpos.
  apply (scan_select probe method [u1; u2] [m; m] 0 m u1 None 0 [] Hmeans);
    [| reflexivity | exact Hpos].
  split; [reflexivity | split].
  - intros [| [| j]] x Hj; try (injection Hj as <-; lra).
    destruct j; discriminate.
  - intros j x Hj. lia.
Qed.

(** ** No users, no positive mean *)

(** C3. With an empty profile list the result is not identified, named
    "No users registered", with confidence 0 and no scores, whatever the
    audio, the threshold and the method. *)
Theorem identify_no_users (extract_embedding : string -> py embedding)
  (audio_path : string) (threshold : R) (method : string) :
  identify_speaker extract_embedding audio_path [] threshold method
  = Identification.mk false (Some "No users registered"%string) 0 []
      (Some (threshold * 100)) None None.
Proof. reflexivity. Qed.

(** C10. When no profile has a positive mean similarity to the probe, the
    result is not identified, named as no voice, and its confidence is
    0.0, not the greatest mean. *)
Theorem identify_nonpositive_means
  (extract_embedding : string -> py embedding) (audio_path : string)
  (probe : embedding) (users : list User.t) (threshold : R) (method : string)
  (means : list R) :
  extract_embedding audio_path = inr probe ->
  users <> [] ->
  profile_means probe method users means ->
  (forall m, In m means -> m <= 0) ->
  let r := identify_speaker extract_embedding audio_path users threshold
             method in
  Identification.identified r = false
  /\ Identification.name r = Some "Can't hear someone speaking"%string
  /\ Identification.confidence r = 0.
Proof.
  intros Hex Hne Hmeans Hle r.
  destruct (scan_keep probe method users means None 0 [] Hmeans Hle)
    as [sc Hscan].
  assert (H0 : 0 < 5 / 100) by lra.
  destruct (identify_outcome extract_embedding audio_path probe Hex users
              threshold method _ _ _ _ _ _ Hne Hscan
              (classify_silence 0 None threshold H0))
    as [[Hid [Hname _]] Hconf].
  fold r in Hid, Hname, Hconf.
  rewrite py_round2_zero in Hconf.
  split; [exact Hid | split; [exact Hname | exact Hconf]].
Qed.

Lemma identify_nonpositive_means_witness :
  let r := identify_speaker (constant_encoder [1; 0]) "probe.wav" [bob; cat]
             (65 / 100) "cosine" in
  Identification.identified r = false
  /\ Identification.name r = Some "Can't hear someone speaking"%string
  /\ Identification.confidence r = 0.
Proof.
  apply (identify_nonpositive_means (constant_encoder [1; 0]) "probe.wav"
           [1; 0] [bob; cat] (65 / 100) "cosine" [0; -1]).
  - reflexivity.
  - discriminate.
  - exact bob_cat_means.
  - intros m [<- | [<- | []]]; lra.
Defined.

(** ** Verification *)

Lemma string_app_assoc (a b c : string) :
  ((a ++ b) ++ c)%string = (a ++ (b ++ c))%string.
Proof.
  induction a as [| ch a IH]; simpl; [reflexivity |].
  rewrite IH. reflexivity.
Qed.

Lemma not_registered_message (claimed_name : string) :
  ends_with ("User '" ++ claimed_name ++ "' not registered") "not registered".
Proof.
  exists ("User '" ++ claimed_name ++ "' ")%string.
  rewrite !string_app_assoc. reflexivity.
Qed.

Lemma find_first_named (users : list User.t) (claimed_name : string)
  (u : User.t) :
  find (fun u => String.eqb (User.name u) claimed_name) users = Some u ->
  first_named users claimed_name u.
Proof.
  induction users as [| v users IH]; simpl; intros H; [discriminate |].
  destruct (String.eqb (User.name v) claimed_name) eqn:Hv.
  - injection H as <-. exists [], users.
    split; [reflexivity | split].
    + apply String.eqb_eq. exact Hv.
    + intros w [].
  - destruct (IH H) as [before [after [-> [Hname Hbefore]]]].
    exists (v :: before), after.
    split; [reflexivity | split; [exact Hname |]].
    intros w [<- | Hw].
    + apply String.eqb_neq. exact Hv.
    + apply Hbefore. exact Hw.
Qed.

Lemma first_named_find (users : list User.t) (claimed_name : string)
  (u : User.t) :
  first_named users claimed_name u ->
  find (fun u => String.eqb (User.name u) claimed_name) users = Some u.
Proof.
  intros [before [after [-> [Hname Hbefore]]]].
  induction before as [| v before IH]; simpl.
  - rewrite (proj2 (String.eqb_eq _ _) Hname). reflexivity.
  - rewrite (proj2 (String.eqb_neq _ _) (Hbefore v (or_introl eq_refl))).
    apply IH. intros w Hw. apply Hbefore. right. exact Hw.
Qed.

Lemma find_absent (users : list User.t) (claimed_name : string) :
  ~ In claimed_name (map User.name users) ->
  find (fun u => String.eqb (User.name u) claimed_name) users = None.
Proof.
  induction users as [| v users IH]; simpl; intros H; [reflexivity |].
  destruct (String.eqb (User.name v) claimed_name) eqn:Hv.
  - apply String.eqb_eq in Hv. exfalso. apply H. left. exact Hv.
  - apply IH. intros Hin. apply H. right. exact Hin.
Qed.

(** What the loop over the stored signatures computes, under the cosine
    method: it returns exactly when every signature has the probe's
    dimension, and then the cosine similarities, signature by
    signature. *)
Lemma similarity_is_cosine (a b : embedding) (s : R) :
  calculate_similarity a b "cosine" = inr s
  <-> length a = length b /\ s = cosine_similarity a b.
Proof.
  rewrite calculate_similarity_as_cosine.
  unfold calculate_similarity_cosine, cosine, cosine_similarity.
  destruct (Nat.eqb (length a) (length b)) eqn:Hlen.
  - apply Nat.eqb_eq in Hlen. rewrite bind_ret_l. unfold ret. split.
    + intros H. injection H as <-. split; [exact Hlen | ring].
    + intros [_ ->]. f_equal. ring.
  - apply Nat.eqb_neq in Hlen. split; [discriminate |].
    intros [H _]. contradiction.
Qed.

Lemma user_similarities_cosine (probe : embedding) (u : User.t)
  (sims : list R) :
  user_similarities probe "cosine" u = inr sims
  <-> dimension (length probe) (User.voice_embeddings u)
      /\ sims = map (cosine_similarity probe) (User.voice_embeddings u).
Proof.
  unfold user_similarities, dimension.
  revert sims.
  induction (User.voice_embeddings u) as [| e es IH]; intros sims.
  - cbn [for_each map]. unfold ret. split.
    + intros H. injection H as <-. split; [constructor | reflexivity].
    + intros [_ ->]. reflexivity.
  - split.
    + intros H. apply for_each_cons_inr in H.
      destruct H as [y [ys [-> [Hy Hys]]]].
      apply similarity_is_cosine in Hy. destruct Hy as [Hlen ->].
      apply IH in Hys. destruct Hys as [Hdim ->].
      split; [constructor; [symmetry; exact Hlen | exact Hdim] | reflexivity].
    + intros [Hdim ->]. inversion Hdim as [| ? ? Hlen Hdim']. subst.
      cbn [for_each map].
      rewrite (proj2 (similarity_is_cosine probe e _)
                 (conj (eq_sym Hlen) eq_refl)), bind_ret_l.
      rewrite (proj2 (IH _) (conj Hdim' eq_refl)), bind_ret_l.
      reflexivity.
Qed.

(** C4. The voice is verified exactly when the claimed name is registered
    and the mean similarity of the probe to that profile's signatures is
    at least the threshold; for a name that is not registered the result
    is not verified, says so, and has confidence 0, whatever the encoder
    would do with the audio. *)
Theorem verify_speaker_spec (extract_embedding : string -> py embedding)
  (audio_path : string) (claimed_name : string)
  (users : list User.t) (threshold : R) :
  let r := verify_speaker extract_embedding audio_path claimed_name users
             threshold in
  (forall probe,
     extract_embedding audio_path = inr probe ->
     (Verification.verified r = true <->
      exists u m,
        first_named users claimed_name u
        /\ mean_similarity probe (User.voice_embeddings u) m
        /\ m >= threshold))
  /\ (~ In claimed_name (map User.name users) ->
      Verification.verified r = false
      /\ ends_with (Verification.message r) "not registered"
      /\ Verification.confidence r = 0).
Proof.
  intros r. subst r. unfold verify_speaker.
  destruct (find (fun u => String.eqb (User.name u) claimed_name) users)
    as [u |] eqn:Hfind.
  - split.
    + intros probe Hex. rewrite Hex, bind_ret_l.
      assert (Hiff :
        (exists u' m, first_named users claimed_name u'
                      /\ mean_similarity probe (User.voice_embeddings u') m
                      /\ m >= threshold)
        <-> exists m, mean_similarity probe (User.voice_embeddings u) m
                      /\ m >= threshold).
      { split.
        - intros [u' [m [Hu' H]]].
          apply first_named_find in Hu'. rewrite Hfind in Hu'.
          injection Hu' as <-. exists m. exact H.
        - intros [m H]. exists u, m.
          split; [apply find_first_named; exact Hfind | exact H]. }
      rewrite Hiff. unfold mean_similarity.
      destruct (user_similarities probe "cosine" u) as [e | sims] eqn:Hsims.
      * simpl. split; [discriminate |].
        intros [m [[_ [Hdim _]] _]].
        rewrite (proj2 (user_similarities_cosine probe u _)
                   (conj Hdim eq_refl)) in Hsims.
        discriminate.
      * apply user_similarities_cosine in Hsims.
        destruct Hsims as [Hdim ->]. rewrite !bind_ret_l.
        destruct (User.voice_embeddings u) as [| e es] eqn:Hes.
        -- simpl. split; [discriminate |].
           intros [m [[Hne _] _]]. contradiction.
        -- cbn [map np_max]. rewrite bind_ret_l.
           cbn [Verification.verified].
           change (cosine_similarity probe e
                   :: map (cosine_similarity probe) es)
             with (map (cosine_similarity probe) (e :: es)).
           unfold np_mean. rewrite length_map.
           unfold Rgeb.
           destruct (Rge_dec
                       (Rsum (map (cosine_similarity probe) (e :: es))
                        / INR (length (e :: es))) threshold) as [Hge | Hlt].
           ++ split; [| reflexivity].
              intros _. eexists.
              split; [split; [discriminate | split; [exact Hdim |]] |];
                [reflexivity | exact Hge].
           ++ split; [discriminate |].
              intros [m [[_ [_ ->]] Hm]]. contradiction.
    + intros Habsent. apply find_absent in Habsent.
      rewrite Hfind in Habsent. discriminate.
  - split.
    + intros probe _. cbn [Verification.verified]. split; [discriminate |].
      intros [u [m [Hu _]]].
      apply first_named_find in Hu. rewrite Hfind in Hu. discriminate.
    + intros _. cbn [Verification.verified Verification.message
                       Verification.confidence].
      split; [reflexivity | split; [apply not_registered_message | reflexivity]].
Qed.

(** The probe (3, 4) against dan's (1, 0) and (0, 1): cosines 3/5 and
    4/5, mean 7/10. *)
Lemma dan_mean_similarity :
  mean_similarity [3; 4] (User.voice_embeddings dan) (7 / 10).
Proof.
  split; [discriminate | split].
  - repeat constructor.
  - unfold dan, cosine_similarity, dot.
    cbn [User.voice_embeddings map combine Rsum fold_right fst snd length INR].
    replace ((3 * 3 + (4 * 4 + 0)) * (1 * 1 + (0 * 0 + 0))) with (5 * 5)
      by ring.
    replace ((3 * 3 + (4 * 4 + 0)) * (0 * 0 + (1 * 1 + 0))) with (5 * 5)
      by ring.
    rewrite !sqrt_square by lra. field.
Qed.

Lemma dan_first_named : first_named [ann; dan] "dan" dan.
Proof.
  exists [ann], []. split; [reflexivity | split; [reflexivity |]].
  intros v [<- | []]. discriminate.
Qed.

Lemma verify_speaker_spec_witness :
  Verification.verified
    (verify_speaker failing_encoder "probe.wav" "zoe" [ann; dan] (65 / 100))
  = false
  /\ Verification.verified
       (verify_speaker (constant_encoder [3; 4]) "probe.wav" "dan" [ann; dan]
          (65 / 100))
     = true
  /\ Verification.verified
       (verify_speaker (constant_encoder [3; 4]) "probe.wav" "dan" [ann; dan]
          (75 / 100))
     <> true.
Proof.
  split; [| split].
  - apply (verify_speaker_spec failing_encoder "probe.wav" "zoe" [ann; dan]
             (65 / 100)).
    simpl. intros [H | [H | []]]; discriminate.
  - apply (proj1 (verify_speaker_spec (constant_encoder [3; 4]) "probe.wav"
                    "dan" [ann; dan] (65 / 100)) [3; 4] eq_refl).
    exists dan, (7 / 10).
    split; [exact dan_first_named | split; [exact dan_mean_similarity | lra]].
  - intros H.
    apply (proj1 (verify_speaker_spec (constant_encoder [3; 4]) "probe.wav"
                    "dan" [ann; dan] (75 / 100)) [3; 4] eq_refl) in H.
    destruct H as [u [m [Hu [[_ [_ Hm]] Hge]]]].
    apply first_named_find in Hu. injection Hu as <-.
    destruct dan_mean_similarity as [_ [_ Hdan]].
    rewrite <- Hdan in Hm. lra.
Defined.

(** ** Audio validation *)

Lemma fold_left_Rmax_ge (l : list R) (a : R) :
  a <= fold_left Rmax l a /\ forall x, In x l -> x <= fold_left Rmax l a.
Proof.
  revert a. induction l as [| y l IH]; intros a; simpl.
  - split; [lra | intros x []].
  - destruct (IH (Rmax a y)) as [Ha Hl].
    pose proof (Rmax_l a y). pose proof (Rmax_r a y).
    split; [lra |].
    intros x [<- | Hx]; [lra | apply Hl; exact Hx].
Qed.

Lemma np_max_ge (l : list R) (x : R) :
  In x l -> exists p, np_max l = inr p /\ x <= p.
Proof.
  destruct l as [| a l]; [intros [] |].
  intros Hx. eexists. split; [reflexivity |].
  destruct (fold_left_Rmax_ge l a) as [Ha Hl].
  destruct Hx as [<- | Hx]; [exact Ha | apply Hl; exact Hx].
Qed.

Section Validate.

Variable path_exists : string -> bool.
Variable getsize : string -> Z.
Variable librosa_load : string -> Z -> py (list R * Z).
Variable target_sr : Z.

Variables (file_path : string) (audio : list R) (sr : Z).
Variables min_duration max_duration : R.

Hypothesis file_exists : path_exists file_path = true.
Hypothesis file_small : (getsize file_path <= 16 * 1024 * 1024)%Z.
Hypothesis file_loads :
  load_audio librosa_load target_sr file_path = inr (audio, sr).

Local Abbreviation duration := (INR (length audio) / IZR sr).
Local Abbreviation r :=
  (validate_audio path_exists getsize librosa_load target_sr file_path
     min_duration max_duration).

Lemma loaded_duration : true_div (length audio) sr = inr duration.
Proof.
  unfold load_audio in file_loads.
  destruct (librosa_load file_path target_sr) as [e | [a s]];
    [discriminate |].
  rewrite bind_ret_l in file_loads.
  unfold true_div in *.
  destruct (Z.eqb s 0) eqn:Hs; [discriminate |].
  rewrite bind_ret_l in file_loads. injection file_loads as <- <-.
  rewrite Hs. reflexivity.
Qed.

(** The checks up to the duration: what is left of [validate_audio] for
    a file that exists, is small enough and loads. *)
Lemma validate_audio_loaded :
  r = if Rltb duration min_duration
      then invalid (AudioTooShort duration min_duration) (Some duration)
      else if Rgtb duration max_duration
      then invalid (AudioTooLong duration max_duration) (Some duration)
      else
        match np_max (map Rabs audio) with
        | inr peak =>
            if Rltb peak (1 / 1000) then invalid SilentOrTooQuiet None
            else
              Validation.mk true None (Some duration) (Some sr)
                (Some (length audio))
                (Some (sqrt (np_mean (map (fun x => x * x) audio))))
                (Some (Rsum (map Rabs (np_diff (map np_sign audio)))
                       / (2 * INR (length audio))))
        | inl e =>
            invalid (ValidationError ("Validation error: " ++ str_exn e))
              None
        end.
Proof.
  unfold validate_audio.
  rewrite file_exists. cbn [negb].
  assert (Hsize : Z.ltb (16 * 1024 * 1024) (getsize file_path) = false)
    by (apply Z.ltb_ge; exact file_small).
  rewrite Hsize, file_loads, bind_ret_l, loaded_duration, bind_ret_l.
  destruct (Rltb duration min_duration); [reflexivity |].
  destruct (Rgtb duration max_duration); [reflexivity |].
  destruct (np_max (map Rabs audio)) as [e | peak]; [reflexivity |].
  rewrite bind_ret_l.
  destruct (Rltb peak (1 / 1000)); reflexivity.
Qed.

(** A recording that is not silent is valid exactly when its duration
    lies between the bounds, both included. *)
Lemma validate_audio_valid_iff :
  not_silent audio ->
  (Validation.valid r = true <-> min_duration <= duration <= max_duration).
Proof.
  intros [x [Hx Hloud]].
  rewrite validate_audio_loaded.
  unfold Rgtb, Rltb at 1 2.
  destruct (Rlt_dec duration min_duration) as [Hshort | Hmin];
    [simpl; split; [discriminate | lra] |].
  destruct (Rlt_dec max_duration duration) as [Hlong | Hmax];
    [simpl; split; [discriminate | lra] |].
  destruct (np_max_ge (map Rabs audio) (Rabs x)) as [peak [-> Hpeak]];
    [apply in_map; exact Hx |].
  rewrite Rltb_false by lra.
  simpl. split; [lra | reflexivity].
Qed.

(** C7. For a file that exists, is not oversized and loads: a recording
    that is not silent and whose duration equals either bound is valid;
    a duration below the minimum or above the maximum gives an invalid
    result with a reason. *)
Theorem validate_audio_inclusive_bounds :
  (not_silent audio ->
   min_duration <= max_duration ->
   duration = min_duration \/ duration = max_duration ->
   Validation.valid r = true)
  /\ (duration < min_duration ->
      Validation.valid r = false
      /\ Validation.error r = Some (AudioTooShort duration min_duration))
  /\ (duration > max_duration ->
      Validation.valid r = false
      /\ exists why, Validation.error r = Some why).
Proof.
  split; [| split].
  - intros Hloud Hbounds Heq.
    apply validate_audio_valid_iff; [exact Hloud |].
    destruct Heq as [-> | ->]; lra.
  - intros Hshort. rewrite validate_audio_loaded.
    rewrite Rltb_true by exact Hshort. split; reflexivity.
  - intros Hlong. rewrite validate_audio_loaded.
    unfold Rgtb. rewrite (Rltb_true max_duration duration) by lra.
    destruct (Rltb duration min_duration); split;
      try reflexivity; eexists; reflexivity.
Qed.

End Validate.

Lemma two_seconds_not_silent : not_silent two_seconds.
Proof.
  exists (1 / 2). split; [left; reflexivity |].
  rewrite Rabs_pos_eq; lra.
Qed.

Lemma two_seconds_duration : INR (length two_seconds) / IZR 2 = 2.
Proof. unfold two_seconds. cbn [length INR]. lra. Qed.

Lemma validate_audio_inclusive_bounds_witness :
  let validate :=
    validate_audio (fun _ => true) (fun _ => 32044%Z) constant_decoder 2
      "sample.wav" in
  Validation.valid (validate 2 30) = true
  /\ Validation.valid (validate (1 / 2) 2) = true
  /\ Validation.valid (validate 3 30) = false
  /\ Validation.valid (validate (1 / 2) 1) = false.
Proof.
  intros validate.
  assert (Hsize : (32044 <= 16 * 1024 * 1024)%Z) by lia.
  pose proof (fun lo hi =>
                validate_audio_inclusive_bounds (fun _ => true)
                  (fun _ => 32044%Z) constant_decoder 2 "sample.wav"
                  two_seconds 2 lo hi eq_refl Hsize eq_refl) as H.
  rewrite two_seconds_duration in H.
  split; [| split; [| split]].
  - apply (proj1 (H 2 30)); [exact two_seconds_not_silent | lra | left; lra].
  - apply (proj1 (H (1 / 2) 2));
      [exact two_seconds_not_silent | lra | right; lra].
  - apply (proj1 (proj2 (H 3 30))). lra.
  - apply (proj2 (proj2 (H (1 / 2) 1))). lra.
Defined.

(** * Further properties *)

(** ** Similarity: symmetry, scale, identity *)

Lemma dot_comm (a b : embedding) : dot a b = dot b a.
Proof.
  revert b. induction a as [| x a IH]; intros [| y b]; try reflexivity.
  rewrite !dot_cons, IH. ring.
Qed.

Lemma dot_opp (d : list R) : dot (map Ropp d) (map Ropp d) = dot d d.
Proof.
  induction d as [| x d IH]; [reflexivity |].
  cbn [map]. rewrite !dot_cons, IH. ring.
Qed.

Lemma combine_sub_swap (a b : embedding) :
  map (fun p => fst p - snd p) (combine b a)
  = map Ropp (map (fun p => fst p - snd p) (combine a b)).
Proof.
  revert b. induction a as [| x a IH]; intros [| y b]; try reflexivity.
  cbn [combine map fst snd]. rewrite IH. f_equal. ring.
Qed.

Lemma map_sub_swap (x : R) (l : list R) :
  map (fun z => z - x) l = map Ropp (map (fun y => x - y) l).
Proof.
  induction l as [| y l IH]; [reflexivity |].
  cbn [map]. rewrite IH. f_equal. ring.
Qed.

Lemma map_sub_swap' (x : R) (l : list R) :
  map (fun y => x - y) l = map Ropp (map (fun z => z - x) l).
Proof.
  induction l as [| y l IH]; [reflexivity |].
  cbn [map]. rewrite IH. f_equal. ring.
Qed.

(** Swapping the operands of [u - v] negates the difference. *)
Lemma np_sub_swap (a b : embedding) (d : list R) :
  np_sub a b = inr d -> np_sub b a = inr (map Ropp d).
Proof.
  unfold np_sub. rewrite (Nat.eqb_sym (length b) (length a)).
  destruct (Nat.eqb (length a) (length b)) eqn:Hlen.
  - unfold ret. intros H. injection H as <-.
    rewrite combine_sub_swap. reflexivity.
  - destruct a as [| x [| x' a]], b as [| y [| y' b]];
      try discriminate; unfold ret, raise; intros H;
      try discriminate; injection H as <-;
      first [ rewrite map_sub_swap; reflexivity
            | rewrite map_sub_swap'; reflexivity
            | reflexivity ].
Qed.

Lemma euclidean_swap (a b : embedding) (d : R) :
  euclidean a b = inr d -> euclidean b a = inr d.
Proof.
  unfold euclidean. intros H. inv_bind H as diff Hdiff.
  rewrite (np_sub_swap a b diff Hdiff), bind_ret_l, dot_opp. exact H.
Qed.

Lemma cosine_swap (a b : embedding) (d : R) :
  cosine a b = inr d -> cosine b a = inr d.
Proof.
  unfold cosine. rewrite (Nat.eqb_sym (length b) (length a)).
  destruct (Nat.eqb (length a) (length b)); [| discriminate].
  rewrite (dot_comm b a), (Rmult_comm (dot b b) (dot a a)). exact (fun H => H).
Qed.

Lemma calculate_similarity_swap (a b : embedding) (method : string) (s : R) :
  calculate_similarity a b method = inr s ->
  calculate_similarity b a method = inr s.
Proof.
  unfold calculate_similarity, calculate_similarity_cosine,
    calculate_similarity_euclidean.
  destruct (String.eqb method "cosine");
    [| destruct (String.eqb method "euclidean"); [| discriminate]];
    intros H; inv_bind H as d Hd.
  - rewrite (cosine_swap a b d Hd), bind_ret_l. exact H.
  - rewrite (euclidean_swap a b d Hd), bind_ret_l. exact H.
Qed.

(** In which order the shapes are named when the dimensions differ. *)
Lemma shape_message_order :
  calculate_similarity [1; 2] [1; 2; 3] "cosine"
  = inl (ValueError
           "shapes (2,) and (3,) not aligned: 2 (dim 0) != 3 (dim 0)")
  /\ calculate_similarity [1; 2; 3] [1; 2] "cosine"
     = inl (ValueError
              "shapes (3,) and (2,) not aligned: 3 (dim 0) != 2 (dim 0)")
  /\ calculate_similarity [1; 2] [1; 2; 3] "euclidean"
     = inl (ValueError
              "operands could not be broadcast together with shapes (2,) (3,) ")
  /\ calculate_similarity [1; 2; 3] [1; 2] "euclidean"
     = inl (ValueError
              "operands could not be broadcast together with shapes (3,) (2,) ").
Proof. repeat split; reflexivity. Qed.

(** X1. Similarity does not depend on the order of the two embeddings:
    under every method one order returns a value exactly when the other
    returns this value, so that one raises exactly when the other does;
    for two embeddings of one dimension the two calls agree on
    everything, also on the error of an unknown method.  (For different
    dimensions the messages name the shapes in the order of the
    arguments.) *)
Theorem calculate_similarity_symmetric (a b : embedding) (method : string) :
  (forall s,
     calculate_similarity a b method = inr s
     <-> calculate_similarity b a method = inr s)
  /\ (length a = length b ->
      calculate_similarity a b method = calculate_similarity b a method).
Proof.
  split.
  - intros s. split; apply calculate_similarity_swap.
  - intros Hlen.
    destruct (calculate_similarity a b method) as [e | s] eqn:Hab.
    + destruct (calculate_similarity b a method) as [e' | s'] eqn:Hba.
      * unfold calculate_similarity in Hab, Hba.
        destruct (String.eqb method "cosine") eqn:Hc.
        { apply String.eqb_eq in Hc. subst method.
          destruct (cosine_total a b Hlen) as [s Hs].
          rewrite calculate_similarity_as_cosine in Hs. congruence. }
        destruct (String.eqb method "euclidean") eqn:He.
        { apply String.eqb_eq in He. subst method.
          destruct (euclidean_total a b Hlen) as [s Hs].
          rewrite calculate_similarity_as_euclidean in Hs. congruence. }
        congruence.
      * apply calculate_similarity_swap in Hba. congruence.
    + symmetry. apply calculate_similarity_swap. exact Hab.
Qed.

Lemma calculate_similarity_symmetric_witness :
  calculate_similarity [3; 4] [1; 0] "euclidean"
  = calculate_similarity [1; 0] [3; 4] "euclidean"
  /\ (forall s,
        calculate_similarity [1; 2] [1; 2; 3] "cosine" = inr s
        <-> calculate_similarity [1; 2; 3] [1; 2] "cosine" = inr s).
Proof.
  split.
  - exact (proj2 (calculate_similarity_symmetric [3; 4] [1; 0] "euclidean")
             eq_refl).
  - exact (proj1 (calculate_similarity_symmetric [1; 2] [1; 2; 3] "cosine")).
Defined.

(** X2. A cosine similarity lies between -1 and 1 (not between 0 and 1,
    as the docstrings have it), and the lower end is reached: a non-zero
    embedding and its opposite have similarity -1. *)
Theorem cosine_similarity_signed_range (a b : embedding) :
  (forall s, calculate_similarity a b "cosine" = inr s -> -1 <= s <= 1)
  /\ (nonzero a ->
      calculate_similarity a (map Ropp a) "cosine" = inr (-1)).
Proof.
  split; [intros s; apply cosine_similarity_range |].
  intros Ha. pose proof (dot_self_pos a Ha) as Hpos.
  rewrite cosine_value by (rewrite length_map; reflexivity).
  f_equal. rewrite dot_opp.
  assert (Hd : dot a (map Ropp a) = - dot a a).
  { clear. induction a as [| x a IH]; [unfold dot; simpl; ring |].
    cbn [map]. rewrite !dot_cons, IH. ring. }
  rewrite Hd, sqrt_square by lra.
  field. lra.
Qed.

Lemma cosine_similarity_signed_range_witness :
  calculate_similarity [3; 4] [-3; -4] "cosine" = inr (-1)
  /\ (forall s,
        calculate_similarity [3; 4] [0; 1] "cosine" = inr s -> -1 <= s <= 1).
Proof.
  split.
  - replace [-3; -4] with (map Ropp [3; 4]) by reflexivity.
    apply (proj2 (cosine_similarity_signed_range [3; 4] [0; 1])).
    exists 3. split; [left; reflexivity | lra].
  - exact (proj1 (cosine_similarity_signed_range [3; 4] [0; 1])).
Defined.

Lemma length_scale (c : R) (v : list R) : length (scale c v) = length v.
Proof. apply length_map. Qed.

Lemma dot_scale (c d : R) (a b : embedding) :
  dot (scale c a) (scale d b) = c * d * dot a b.
Proof.
  revert b. induction a as [| x a IH]; intros [| y b];
    try (unfold dot; simpl; ring).
  unfold scale in *. cbn [map]. rewrite !dot_cons, IH. ring.
Qed.

(** X3. Under the cosine method the lengths of the two vectors do not
    matter: scaling either by a positive factor leaves the similarity as
    it is. *)
Theorem cosine_similarity_scale_invariant (c d : R) (a b : embedding) :
  0 < c -> 0 < d ->
  calculate_similarity (scale c a) (scale d b) "cosine"
  = calculate_similarity a b "cosine".
Proof.
  intros Hc Hd.
  rewrite !calculate_similarity_as_cosine.
  unfold calculate_similarity_cosine, cosine, str_shape.
  rewrite !length_scale.
  destruct (Nat.eqb (length a) (length b)); [| reflexivity].
  rewrite !bind_ret_l. unfold ret. do 3 f_equal.
  rewrite !dot_scale.
  pose proof (dot_self_nonneg a) as HA.
  pose proof (dot_self_nonneg b) as HB.
  replace (c * c * dot a a * (d * d * dot b b))
    with ((c * d) * (c * d) * (dot a a * dot b b)) by ring.
  rewrite sqrt_mult by nra.
  rewrite sqrt_square by nra.
  set (S := sqrt (dot a a * dot b b)).
  destruct (Req_dec S 0) as [-> | HS].
  - unfold Rdiv. rewrite Rmult_0_r, Rinv_0. ring.
  - field. split; [exact HS | nra].
Qed.

Lemma cosine_similarity_scale_invariant_witness :
  calculate_similarity (scale 2 [7; 24]) (scale 3 [1; 0]) "cosine"
  = inr (28 / 100).
Proof.
  rewrite (cosine_similarity_scale_invariant 2 3 [7; 24] [1; 0]) by lra.
  exact ann_similarity.
Defined.

Lemma dot_self_zero (v : list R) : dot v v = 0 -> Forall (fun x => x = 0) v.
Proof.
  induction v as [| y v IH]; intros H; [constructor |].
  rewrite dot_cons in H.
  pose proof (dot_self_nonneg v) as Hv.
  constructor; [nra | apply IH; nra].
Qed.

Lemma differences_zero (a b : embedding) :
  length a = length b ->
  Forall (fun x => x = 0) (map (fun p => fst p - snd p) (combine a b)) ->
  a = b.
Proof.
  revert b. induction a as [| x a IH]; intros [| y b] Hlen H;
    try discriminate; [reflexivity |].
  cbn [combine map fst snd] in H. inversion H as [| ? ? Hxy Hrest]; subst.
  f_equal; [lra |].
  apply IH; [simpl in Hlen; lia | exact Hrest].
Qed.

Lemma differences_self (a : embedding) :
  dot (map (fun p => fst p - snd p) (combine a a))
    (map (fun p => fst p - snd p) (combine a a)) = 0.
Proof.
  induction a as [| x a IH]; [reflexivity |].
  cbn [combine map fst snd]. rewrite dot_cons, IH. ring.
Qed.

(** X4. Under the Euclidean method two vectors of one dimension have
    similarity 1.0 exactly when they are the same vector. *)
Theorem euclidean_similarity_one_iff (a b : embedding) :
  length a = length b ->
  (calculate_similarity a b "euclidean" = inr 1 <-> a = b).
Proof.
  intros Hlen.
  rewrite calculate_similarity_as_euclidean.
  unfold calculate_similarity_euclidean, euclidean, np_sub.
  rewrite Hlen, Nat.eqb_refl, !bind_ret_l. unfold ret.
  set (d := map (fun p => fst p - snd p) (combine a b)).
  pose proof (sqrt_pos (dot d d)) as Hpos.
  split.
  - intros H. injection H as H.
    assert (Hs : sqrt (dot d d) = 0).
    { assert (H2 : (1 + sqrt (dot d d)) * (1 / (1 + sqrt (dot d d))) = 1)
        by (field; lra).
      rewrite H in H2. lra. }
    apply sqrt_eq_0 in Hs; [| apply dot_self_nonneg].
    apply differences_zero; [exact Hlen |].
    apply dot_self_zero. exact Hs.
  - intros ->. subst d. rewrite differences_self, sqrt_0. f_equal. field.
Qed.

Lemma euclidean_similarity_one_iff_witness :
  calculate_similarity [3; 4] [3; 4] "euclidean" = inr 1.
Proof.
  apply (euclidean_similarity_one_iff [3; 4] [3; 4] eq_refl). reflexivity.
Defined.

(** ** Identification: errors *)

Lemma unknown_method (a b : embedding) (method : string) :
  method <> "cosine"%string -> method <> "euclidean"%string ->
  calculate_similarity a b method
  = inl (ValueError ("Unknown similarity method: " ++ method)).
Proof.
  intros Hc He. unfold calculate_similarity.
  rewrite (proj2 (String.eqb_neq _ _) Hc), (proj2 (String.eqb_neq _ _) He).
  reflexivity.
Qed.

(** X5. Asked for a method other than "cosine" and "euclidean", with
    users whose first profile holds a signature, [identify_speaker]
    raises nothing: it returns the "Error" dictionary with the message
    of the unknown method, not identified, confidence 0, no scores. *)
Theorem identify_unknown_method
  (extract_embedding : string -> py embedding) (audio_path : string)
  (probe : embedding) (u : User.t) (users : list User.t) (threshold : R)
  (method : string) :
  extract_embedding audio_path = inr probe ->
  method <> "cosine"%string -> method <> "euclidean"%string ->
  User.voice_embeddings u <> [] ->
  identify_speaker extract_embedding audio_path (u :: users) threshold method
  = Identification.mk false (Some "Error"%string) 0 [] None None
      (Some ("Unknown similarity method: " ++ method)%string).
Proof.
  intros Hex Hc He Hne.
  unfold identify_speaker, identify_try.
  rewrite Hex, bind_ret_l. cbn [for_fold].
  unfold scan_start, compare_user at 1, user_similarities.
  destruct (User.voice_embeddings u) as [| e es]; [contradiction |].
  cbn [for_each]. rewrite (unknown_method probe e method Hc He).
  reflexivity.
Qed.

Lemma identify_unknown_method_witness :
  Identification.error
    (identify_speaker (constant_encoder [7; 24]) "probe.wav" [ann] (65 / 100)
       "manhattan")
  = Some "Unknown similarity method: manhattan"%string.
Proof.
  rewrite (identify_unknown_method (constant_encoder [7; 24]) "probe.wav"
             [7; 24] ann [] (65 / 100) "manhattan" eq_refl).
  - reflexivity.
  - discriminate.
  - discriminate.
  - discriminate.
Defined.

(** ** Means, minima and maxima *)

Lemma Rsum_bounds (lo hi : R) (l : list R) :
  (forall x, In x l -> lo <= x <= hi) ->
  INR (length l) * lo <= Rsum l <= INR (length l) * hi.
Proof.
  induction l as [| y l IH]; intros H.
  - simpl. lra.
  - destruct (H y (or_introl eq_refl)) as [H1 H2].
    destruct IH as [H3 H4]; [intros x Hx; apply H; right; exact Hx |].
    change (Rsum (y :: l)) with (y + Rsum l).
    change (length (y :: l)) with (S (length l)).
    rewrite S_INR. lra.
Qed.

Lemma np_mean_bounds (lo hi : R) (l : list R) :
  l <> [] ->
  (forall x, In x l -> lo <= x <= hi) ->
  lo <= np_mean l <= hi.
Proof.
  intros Hne H. unfold np_mean.
  destruct (Rsum_bounds lo hi l H) as [H1 H2].
  assert (Hn : 0 < INR (length l)).
  { destruct l; [contradiction |]. apply lt_0_INR. simpl. lia. }
  assert (Hinv : 0 <= / INR (length l))
    by (apply Rlt_le, Rinv_0_lt_compat; exact Hn).
  unfold Rdiv. split.
  - replace lo with (INR (length l) * lo * / INR (length l)) by (field; lra).
    apply Rmult_le_compat_r; assumption.
  - replace hi with (INR (length l) * hi * / INR (length l)) by (field; lra).
    apply Rmult_le_compat_r; assumption.
Qed.

Lemma fold_left_Rmin_le (l : list R) (a : R) :
  fold_left Rmin l a <= a /\ forall x, In x l -> fold_left Rmin l a <= x.
Proof.
  revert a. induction l as [| y l IH]; intros a; simpl.
  - split; [lra | intros x []].
  - destruct (IH (Rmin a y)) as [Ha Hl].
    pose proof (Rmin_l a y). pose proof (Rmin_r a y).
    split; [lra |].
    intros x [<- | Hx]; [lra | apply Hl; exact Hx].
Qed.

(** Of a list that is not empty, the minimum and the maximum exist and
    enclose every element and the mean. *)
Lemma min_mean_max (l : list R) :
  l <> [] ->
  exists mn mx,
    np_min l = inr mn /\ np_max l = inr mx
    /\ (forall x, In x l -> mn <= x <= mx)
    /\ mn <= np_mean l <= mx.
Proof.
  intros Hne. destruct l as [| a l]; [contradiction |].
  exists (fold_left Rmin l a), (fold_left Rmax l a).
  destruct (fold_left_Rmin_le l a) as [Hmin_a Hmin].
  destruct (fold_left_Rmax_ge l a) as [Hmax_a Hmax].
  assert (Hall : forall x, In x (a :: l) ->
                   fold_left Rmin l a <= x <= fold_left Rmax l a).
  { intros x [<- | Hx]; [lra |].
    split; [apply Hmin | apply Hmax]; exact Hx. }
  split; [reflexivity | split; [reflexivity | split; [exact Hall |]]].
  apply np_mean_bounds; [discriminate | exact Hall].
Qed.

Lemma for_each_Forall {A B : Type} (P : B -> Prop) (f : A -> py B)
  (xs : list A) (ys : list B) :
  (forall x y, f x = inr y -> P y) ->
  for_each f xs = inr ys -> Forall P ys.
Proof.
  intros HP. revert ys. induction xs as [| x xs IH]; simpl; intros ys H.
  - injection H as <-. constructor.
  - inv_bind H as y Hy. inv_bind H as zs Hzs. injection H as <-.
    constructor; [apply (HP x); exact Hy | apply IH; exact Hzs].
Qed.

Lemma euclidean_similarity_bounds (a b : embedding) (s : R) :
  calculate_similarity a b "euclidean" = inr s -> 0 < s <= 1.
Proof.
  rewrite calculate_similarity_as_euclidean.
  unfold calculate_similarity_euclidean, euclidean. intros H.
  inv_bind H as d Hd. inv_bind Hd as w Hw.
  injection H as <-. injection Hd as <-.
  pose proof (sqrt_pos (dot w w)) as Hpos.
  assert (Hinv : 0 < / (1 + sqrt (dot w w)))
    by (apply Rinv_0_lt_compat; lra).
  assert (Hle : / (1 + sqrt (dot w w)) <= 1).
  { rewrite <- Rinv_1 at 2. apply Rinv_le_contravar; lra. }
  lra.
Qed.

Lemma cosine_range_of_similarity (a b : embedding) (s : R) :
  calculate_similarity a b "cosine" = inr s -> -1 <= s <= 1.
Proof.
  rewrite calculate_similarity_as_cosine. unfold calculate_similarity_cosine.
  intros H. inv_bind H as d Hd. injection H as <-.
  apply cosine_range in Hd. lra.
Qed.

(** Whatever the method, a similarity that is returned lies in [-1, 1]. *)
Lemma calculate_similarity_bounds (a b : embedding) (method : string) (s : R) :
  calculate_similarity a b method = inr s -> -1 <= s <= 1.
Proof.
  intros H.
  destruct (String.eqb method "cosine") eqn:Hc.
  - apply String.eqb_eq in Hc. subst method.
    apply cosine_range_of_similarity with (a := a) (b := b). exact H.
  - destruct (String.eqb method "euclidean") eqn:He.
    + apply String.eqb_eq in He. subst method.
      apply euclidean_similarity_bounds in H. lra.
    + unfold calculate_similarity in H. rewrite Hc, He in H. discriminate.
Qed.

(** ** Rounding keeps the order *)

Lemma round_half_even_monotone (x y : R) :
  x <= y -> (round_half_even x <= round_half_even y)%Z.
Proof.
  intros Hxy.
  destruct (Z_le_gt_dec (round_half_even x) (round_half_even y))
    as [Hle | Hgt]; [exact Hle | exfalso].
  pose proof (Rabs_le_bounds _ _ (round_half_even_nearest x)) as Hx.
  pose proof (Rabs_le_bounds _ _ (round_half_even_nearest y)) as Hy.
  assert (H1 : (round_half_even y + 1 <= round_half_even x)%Z) by lia.
  apply IZR_le in H1. rewrite plus_IZR in H1.
  assert (Heq : x = y) by lra.
  subst y. lia.
Qed.

Lemma py_round2_monotone (x y : R) : x <= y -> py_round2 x <= py_round2 y.
Proof.
  intros H. unfold py_round2.
  assert (Hz : (round_half_even (x * 100) <= round_half_even (y * 100))%Z)
    by (apply round_half_even_monotone; lra).
  apply IZR_le in Hz. lra.
Qed.

Lemma py_round2_percent (x : R) :
  0 <= x <= 1 -> 0 <= py_round2 (x * 100) <= 100.
Proof.
  intros [H0 H1]. split.
  - rewrite <- py_round2_zero. apply py_round2_monotone. lra.
  - replace 100 with (py_round2 (1 * 100)) at 2
      by (rewrite (py_round2_exact (1 * 100) 10000); lra).
    apply py_round2_monotone. lra.
Qed.

(** ** Identification: what every call keeps *)

Lemma compare_user_inr (probe : embedding) (method : string)
  (best_match : option string) (best_score : R) (all_scores : list Score.t)
  (u : User.t) (st : scan_state) :
  compare_user probe method (best_match, best_score, all_scores) u = inr st ->
  exists sims mn mx,
    user_similarities probe method u = inr sims
    /\ sims <> []
    /\ (forall x, In x sims -> mn <= x <= mx)
    /\ mn <= np_mean sims <= mx
    /\ st = (if Rgtb (np_mean sims) best_score
             then (Some (User.name u), np_mean sims,
                   all_scores ++ [Score.mk (User.name u) (np_mean sims) mx mn
                                    (length sims)])
             else (best_match, best_score,
                   all_scores ++ [Score.mk (User.name u) (np_mean sims) mx mn
                                    (length sims)])).
Proof.
  unfold compare_user. intros H.
  inv_bind H as sims Hsims.
  destruct sims as [| x sims]; [discriminate |].
  destruct (min_mean_max (x :: sims)) as [mn [mx [Hmn [Hmx [Hall Hmean]]]]];
    [discriminate |].
  rewrite Hmx, Hmn, !bind_ret_l in H.
  exists (x :: sims), mn, mx.
  split; [exact Hsims | split; [discriminate | split; [exact Hall |]]].
  split; [exact Hmean |].
  destruct (Rgtb (np_mean (x :: sims)) best_score);
    injection H as <-; reflexivity.
Qed.

(** The loop: the running best either stays or becomes the name and mean
    of a user of the list; one entry per user is appended, in order, each
    with minimum <= average <= maximum. *)
Lemma scan_invariant (probe : embedding) (method : string)
  (users : list User.t) :
  forall best_match best_score all_scores best_match' best_score' all_scores',
    for_fold (compare_user probe method) users
      (best_match, best_score, all_scores)
    = inr (best_match', best_score', all_scores') ->
    ((best_match' = best_match /\ best_score' = best_score)
     \/ (exists u sims,
           In u users
           /\ user_similarities probe method u = inr sims
           /\ sims <> []
           /\ best_match' = Some (User.name u)
           /\ best_score' = np_mean sims
           /\ best_score < best_score'))
    /\ exists entries,
         all_scores' = all_scores ++ entries
         /\ map Score.name entries = map User.name users
         /\ Forall score_in_order entries.
Proof.
  induction users as [| u users IH]; intros bm bs sc bm' bs' sc' H.
  - injection H as <- <- <-. split; [left; split; reflexivity |].
    exists []. rewrite app_nil_r. repeat split. constructor.
  - cbn [for_fold] in H. inv_bind H as st Hst.
    destruct (compare_user_inr _ _ _ _ _ _ _ Hst)
      as [sims [mn [mx [Hsims [Hne [_ [Hmean ->]]]]]]].
    set (e := Score.mk (User.name u) (np_mean sims) mx mn (length sims)) in *.
    assert (He : score_in_order e) by exact Hmean.
    unfold Rgtb, Rltb in H.
    destruct (Rlt_dec bs (np_mean sims)) as [Hgt | Hle].
    + destruct (IH _ _ _ _ _ _ H) as [Hbest [entries [-> [Hnames Hord]]]].
      split.
      * right. destruct Hbest as [[-> ->] | [v [vs [Hv [H1 [H2 [H3 [H4 H5]]]]]]]].
        -- exists u, sims. repeat split; try assumption. left; reflexivity.
        -- exists v, vs. repeat split; try assumption; [right; exact Hv | lra].
      * exists (e :: entries). rewrite <- app_assoc.
        split; [reflexivity | split; [simpl; f_equal; exact Hnames |]].
        constructor; assumption.
    + destruct (IH _ _ _ _ _ _ H) as [Hbest [entries [-> [Hnames Hord]]]].
      split.
      * destruct Hbest as [[-> ->] | [v [vs [Hv [H1 [H2 [H3 [H4 H5]]]]]]]].
        -- left. split; reflexivity.
        -- right. exists v, vs. repeat split; try assumption. right; exact Hv.
      * exists (e :: entries). rewrite <- app_assoc.
        split; [reflexivity | split; [simpl; f_equal; exact Hnames |]].
        constructor; assumption.
Qed.

(** A call of [identify_speaker] either ends in the "Error" dictionary,
    or found no users, or went through the loop and the classification. *)
Lemma identify_speaker_cases
  (extract_embedding : string -> py embedding) (audio_path : string)
  (users : list User.t) (threshold : R) (method : string) :
  let r := identify_speaker extract_embedding audio_path users threshold
             method in
  (exists e,
     r = Identification.mk false (Some "Error"%string) 0 [] None None
           (Some (str_exn e)))
  \/ (users = []
      /\ r = Identification.mk false (Some "No users registered"%string) 0 []
               (Some (threshold * 100)) None None)
  \/ (exists probe best_match best_score all_scores,
        users <> []
        /\ extract_embedding audio_path = inr probe
        /\ for_fold (compare_user probe method) users scan_start
           = inr (best_match, best_score, all_scores)
        /\ r = Identification.mk
                 (fst (fst (classify best_score best_match threshold)))
                 (snd (fst (classify best_score best_match threshold)))
                 (py_round2 (best_score * 100)) (sort_desc all_scores)
                 (Some (py_round2 (threshold * 100))) (Some method) None).
Proof.
  intros r. subst r. unfold identify_speaker, identify_try.
  destruct users as [| u users].
  - right. left. split; reflexivity.
  - destruct (extract_embedding audio_path) as [e | probe].
    + left. exists e. reflexivity.
    + rewrite bind_ret_l.
      destruct (for_fold (compare_user probe method) (u :: users) scan_start)
        as [e | [[bm bs] sc]] eqn:Hscan.
      * left. exists e. reflexivity.
      * right. right. exists probe, bm, bs, sc.
        split; [discriminate | split; [reflexivity | split; [exact Hscan |]]].
        rewrite bind_ret_l.
        destruct (classify bs bm threshold) as [[i n] st]. reflexivity.
Qed.

Lemma classify_identified (best_score : R) (best_match : option string)
  (threshold : R) :
  fst (fst (classify best_score best_match threshold)) = true ->
  30 / 100 <= best_score
  /\ snd (fst (classify best_score best_match threshold)) = best_match.
Proof.
  unfold classify, SILENCE_THRESHOLD, MIN_DETECTION_THRESHOLD, Rltb, Rgeb.
  destruct (Rlt_dec best_score (5 / 100)); [discriminate |].
  destruct (Rlt_dec best_score (30 / 100)); [discriminate |].
  intros _. split; [lra |].
  destruct (Rge_dec best_score (30 / 100)), (Rlt_dec best_score threshold);
    reflexivity.
Qed.

(** The verdict and the name do not depend on the threshold. *)
Lemma classify_threshold (best_score : R) (best_match : option string)
  (t1 t2 : R) :
  fst (classify best_score best_match t1)
  = fst (classify best_score best_match t2).
Proof.
  unfold classify, Rltb, Rgeb.
  destruct (Rlt_dec best_score SILENCE_THRESHOLD); [reflexivity |].
  destruct (Rlt_dec best_score MIN_DETECTION_THRESHOLD); [reflexivity |].
  destruct (Rge_dec best_score MIN_DETECTION_THRESHOLD),
    (Rlt_dec best_score t1), (Rlt_dec best_score t2); reflexivity.
Qed.

(** The probe (3, 4) against ann's (1, 0): cosine 3/5. *)
Lemma ann_mean_3_4 : profile_mean [3; 4] "cosine" ann = inr (60 / 100).
Proof.
  apply profile_mean_single; [reflexivity |].
  unfold dot. cbn [combine map Rsum fold_right fst snd].
  replace ((3 * 3 + (4 * 4 + 0)) * (1 * 1 + (0 * 0 + 0))) with (5 * 5)
    by ring.
  rewrite sqrt_square by lra. field.
Qed.

Lemma ann_means_3_4 : profile_means [3; 4] "cosine" [ann] [60 / 100].
Proof.
  unfold profile_means. cbn [for_each]. rewrite ann_mean_3_4. reflexivity.
Qed.

Lemma ann_outcome_3_4 (threshold : R) :
  60 / 100 < threshold ->
  outcome
    (identify_speaker (constant_encoder [3; 4]) "probe.wav" [ann] threshold
       "cosine")
    (identify_status (constant_encoder [3; 4]) "probe.wav" [ann] threshold
       "cosine")
    true "ann" "LOW CONFIDENCE MATCH".
Proof.
  intros Ht.
  assert (Hne : [ann] <> []) by discriminate.
  destruct (scan_best [3; 4] [ann] "cosine" [60 / 100] ann_means_3_4 0
              (60 / 100) ann (first_greatest_single _) eq_refl) as [sc Hscan].
  rewrite Rltb_true in Hscan by lra.
  assert (Hs : 30 / 100 <= 60 / 100 < threshold) by lra.
  exact (proj1 (identify_outcome (constant_encoder [3; 4]) "probe.wav" [3; 4]
                  eq_refl [ann] threshold "cosine" _ _ _ _ _ _ Hne Hscan
                  (classify_low _ _ _ Hs))).
Qed.

Lemma ann_identified :
  Identification.identified
    (identify_speaker (constant_encoder [3; 4]) "probe.wav" [ann] (65 / 100)
       "cosine")
  = true.
Proof.
  assert (H : 60 / 100 < 65 / 100) by lra.
  exact (proj1 (ann_outcome_3_4 (65 / 100) H)).
Qed.

(** X6. Whoever is identified is registered: when the result says
    identified, its name is the name of one of the users passed in. *)
Theorem identified_is_registered
  (extract_embedding : string -> py embedding) (audio_path : string)
  (users : list User.t) (threshold : R) (method : string) :
  let r := identify_speaker extract_embedding audio_path users threshold
             method in
  Identification.identified r = true ->
  exists u, In u users /\ Identification.name r = Some (User.name u).
Proof.
  intros r Hid.
  destruct (identify_speaker_cases extract_embedding audio_path users
              threshold method)
    as [[e He] | [[_ He] | [probe [bm [bs [sc [_ [_ [Hscan He]]]]]]]]];
    fold r in He; rewrite He in Hid |- *; try discriminate.
  cbn [Identification.identified Identification.name] in *.
  destruct (classify_identified _ _ _ Hid) as [Hbs ->].
  destruct (scan_invariant _ _ _ _ _ _ _ _ _ Hscan)
    as [[[_ ->] | [u [sims [Hu [_ [_ [-> _]]]]]]] _].
  - lra.
  - exists u. split; [exact Hu | reflexivity].
Qed.

Lemma identified_is_registered_witness :
  exists u,
    In u [ann]
    /\ Identification.name
         (identify_speaker (constant_encoder [3; 4]) "probe.wav" [ann]
            (65 / 100) "cosine")
       = Some (User.name u).
Proof.
  apply (identified_is_registered (constant_encoder [3; 4]) "probe.wav" [ann]
           (65 / 100) "cosine").
  exact ann_identified.
Defined.

(** X7. The threshold decides nothing in the returned dictionary but its
    own entry: called with two thresholds, [identify_speaker] gives the
    same verdict, name, confidence, scores, method and error. *)
Theorem identify_threshold_independent
  (extract_embedding : string -> py embedding) (audio_path : string)
  (users : list User.t) (t1 t2 : R) (method : string) :
  let r1 := identify_speaker extract_embedding audio_path users t1 method in
  let r2 := identify_speaker extract_embedding audio_path users t2 method in
  Identification.identified r1 = Identification.identified r2
  /\ Identification.name r1 = Identification.name r2
  /\ Identification.confidence r1 = Identification.confidence r2
  /\ Identification.all_scores r1 = Identification.all_scores r2
  /\ Identification.method r1 = Identification.method r2
  /\ Identification.error r1 = Identification.error r2.
Proof.
  unfold identify_speaker, identify_try.
  destruct users as [| u users]; [repeat split |].
  destruct (extract_embedding audio_path) as [e | probe]; [repeat split |].
  rewrite !bind_ret_l.
  destruct (for_fold (compare_user probe method) (u :: users) scan_start)
    as [e | [[bm bs] sc]]; [repeat split |].
  rewrite !bind_ret_l.
  pose proof (classify_threshold bs bm t1 t2) as H.
  destruct (classify bs bm t1) as [[i1 n1] s1].
  destruct (classify bs bm t2) as [[i2 n2] s2].
  cbn [fst] in H. injection H as -> ->.
  repeat split.
Qed.

(** The running best of the loop, started at 0, ends in [0, 1]. *)
Lemma best_score_range (probe : embedding) (method : string)
  (users : list User.t) (best_match : option string) (best_score : R)
  (all_scores : list Score.t) :
  for_fold (compare_user probe method) users scan_start
  = inr (best_match, best_score, all_scores) ->
  0 <= best_score <= 1.
Proof.
  intros H.
  destruct (scan_invariant _ _ _ _ _ _ _ _ _ H)
    as [[[_ ->] | [u [sims [_ [Hsims [Hne [_ [-> Hpos]]]]]]]] _]; [lra |].
  split; [lra |].
  apply (np_mean_bounds (-1) 1 sims Hne).
  apply Forall_forall.
  apply (for_each_Forall (fun s => -1 <= s <= 1)
           (fun e => calculate_similarity probe e method)
           (User.voice_embeddings u) sims); [| exact Hsims].
  intros e s. apply calculate_similarity_bounds.
Qed.

(** X8. The confidence of every result of [identify_speaker] is a
    percentage: it lies between 0 and 100, whatever the inputs. *)
Theorem identify_confidence_percentage
  (extract_embedding : string -> py embedding) (audio_path : string)
  (users : list User.t) (threshold : R) (method : string) :
  0 <= Identification.confidence
         (identify_speaker extract_embedding audio_path users threshold method)
    <= 100.
Proof.
  destruct (identify_speaker_cases extract_embedding audio_path users
              threshold method)
    as [[e ->] | [[_ ->] | [probe [bm [bs [sc [_ [_ [Hscan ->]]]]]]]]];
    cbn [Identification.confidence]; try lra.
  apply py_round2_percent. exact (best_score_range _ _ _ _ _ _ Hscan).
Qed.

Lemma sort_desc_order (l : list Score.t) :
  Forall score_in_order l -> Forall score_in_order (sort_desc l).
Proof.
  intros H. apply Forall_forall. intros e He.
  rewrite Forall_forall in H. apply H.
  apply (Permutation_in e (sort_desc_perm l)). exact He.
Qed.

(** X9. When [identify_speaker] reports no error, [all_scores] ranks the
    users: it is sorted by average score, greatest first, it names each
    user passed in exactly once, and in each entry the minimum, the
    average and the maximum are in this order. *)
Theorem identify_all_scores
  (extract_embedding : string -> py embedding) (audio_path : string)
  (users : list User.t) (threshold : R) (method : string) :
  let r := identify_speaker extract_embedding audio_path users threshold
             method in
  Identification.error r = None ->
  Sorted descending (Identification.all_scores r)
  /\ Permutation (map Score.name (Identification.all_scores r))
       (map User.name users)
  /\ Forall score_in_order (Identification.all_scores r).
Proof.
  intros r Herr.
  destruct (identify_speaker_cases extract_embedding audio_path users
              threshold method)
    as [[e He] | [[-> He] | [probe [bm [bs [sc [_ [_ [Hscan He]]]]]]]]];
    fold r in He; rewrite He in Herr |- *;
    cbn [Identification.all_scores Identification.error] in *.
  - discriminate.
  - repeat split; constructor.
  - destruct (scan_invariant _ _ _ _ _ _ _ _ _ Hscan)
      as [_ [entries [-> [Hnames Hord]]]].
    cbn [app] in *.
    split; [apply sort_desc_sorted | split].
    + rewrite <- Hnames. apply Permutation_map. apply sort_desc_perm.
    + apply sort_desc_order. exact Hord.
Qed.

(** The loop, run on the probe (3, 4), dan with two signatures and bob
    with one: bob's mean 4/5 passes dan's 7/10. *)
Lemma dan_bob_scan :
  for_fold (compare_user [3; 4] "cosine") [dan; bob] scan_start
  = inr (Some "bob"%string, 8 / 10,
         [Score.mk "dan" (7 / 10) (8 / 10) (6 / 10) 2;
          Score.mk "bob" (8 / 10) (8 / 10) (8 / 10) 1]).
Proof.
  assert (H10 : calculate_similarity [3; 4] [1; 0] "cosine" = inr (6 / 10)).
  { rewrite cosine_value by reflexivity. f_equal.
    unfold dot. cbn [combine map Rsum fold_right fst snd].
    replace ((3 * 3 + (4 * 4 + 0)) * (1 * 1 + (0 * 0 + 0))) with (5 * 5)
      by ring.
    rewrite sqrt_square by lra. field. }
  assert (H01 : calculate_similarity [3; 4] [0; 1] "cosine" = inr (8 / 10)).
  { rewrite cosine_value by reflexivity. f_equal.
    unfold dot. cbn [combine map Rsum fold_right fst snd].
    replace ((3 * 3 + (4 * 4 + 0)) * (0 * 0 + (1 * 1 + 0))) with (5 * 5)
      by ring.
    rewrite sqrt_square by lra. field. }
  assert (Hdan : np_mean [6 / 10; 8 / 10] = 7 / 10)
    by (unfold np_mean; cbn [Rsum fold_right length INR]; field).
  assert (Hbob : np_mean [8 / 10] = 8 / 10)
    by (unfold np_mean; cbn [Rsum fold_right length INR]; field).
  unfold dan, bob, scan_start. cbn [for_fold].
  unfold compare_user at 1. unfold user_similarities.
  cbn [User.voice_embeddings User.name for_each].
  rewrite H10, H01, !bind_ret_l.
  cbn [np_max np_min fold_left]. rewrite !bind_ret_l.
  rewrite Hdan, Rmax_right, Rmin_left by lra.
  unfold Rgtb at 1. rewrite Rltb_true by lra.
  rewrite bind_ret_l.
  unfold compare_user, user_similarities.
  cbn [User.voice_embeddings User.name for_each].
  rewrite H01, !bind_ret_l.
  cbn [np_max np_min fold_left]. rewrite !bind_ret_l, Hbob.
  unfold Rgtb. rewrite Rltb_true by lra.
  reflexivity.
Qed.

(** The same call returns the two entries ranked, bob before dan. *)
Lemma dan_bob_all_scores :
  let r := identify_speaker (constant_encoder [3; 4]) "probe.wav" [dan; bob]
             (65 / 100) "cosine" in
  Identification.all_scores r
  = [Score.mk "bob" (8 / 10) (8 / 10) (8 / 10) 1;
     Score.mk "dan" (7 / 10) (8 / 10) (6 / 10) 2]
  /\ Identification.error r = None.
Proof.
  intros r. subst r.
  assert (Hne : [dan; bob] <> []) by discriminate.
  destruct (classify (8 / 10) (Some "bob"%string) (65 / 100))
    as [[identified result_name] status_msg] eqn:Hc.
  destruct (identify_after_scan (constant_encoder [3; 4]) "probe.wav" [3; 4]
              eq_refl [dan; bob] (65 / 100) "cosine" _ _ _ _ _ _ Hne
              dan_bob_scan Hc) as [-> _].
  cbn [Identification.all_scores Identification.error].
  split; [| reflexivity].
  unfold sort_desc. cbn [fold_right insert_desc Score.avg_score].
  rewrite Rltb_true by lra. reflexivity.
Qed.

Lemma identify_all_scores_witness :
  let r := identify_speaker (constant_encoder [3; 4]) "probe.wav" [dan; bob]
             (65 / 100) "cosine" in
  Identification.all_scores r
  = [Score.mk "bob" (8 / 10) (8 / 10) (8 / 10) 1;
     Score.mk "dan" (7 / 10) (8 / 10) (6 / 10) 2]
  /\ Sorted descending (Identification.all_scores r)
  /\ Permutation (map Score.name (Identification.all_scores r))
       (map User.name [dan; bob])
  /\ Forall score_in_order (Identification.all_scores r).
Proof.
  intros r. split; [exact (proj1 dan_bob_all_scores) |].
  apply (identify_all_scores (constant_encoder [3; 4]) "probe.wav" [dan; bob]
           (65 / 100) "cosine").
  exact (proj2 dan_bob_all_scores).
Defined.

(** ** Verification: what every call keeps *)

(** A call of [verify_speaker] either compared the probe with the claimed
    user's signatures, or ends with confidence 0 and no maximum. *)
Lemma verify_speaker_cases
  (extract_embedding : string -> py embedding)
  (audio_path claimed_name : string) (users : list User.t) (threshold : R) :
  let r := verify_speaker extract_embedding audio_path claimed_name users
             threshold in
  (Verification.verified r = false
   /\ Verification.confidence r = 0
   /\ Verification.max_confidence r = None)
  \/ (exists u probe sims mx,
        find (fun u => String.eqb (User.name u) claimed_name) users = Some u
        /\ extract_embedding audio_path = inr probe
        /\ user_similarities probe "cosine" u = inr sims
        /\ sims <> []
        /\ np_max sims = inr mx
        /\ Verification.verified r = Rgeb (np_mean sims) threshold
        /\ Verification.confidence r = py_round2 (np_mean sims * 100)
        /\ Verification.max_confidence r = Some (py_round2 (mx * 100))).
Proof.
  intros r. subst r. unfold verify_speaker.
  destruct (find (fun u => String.eqb (User.name u) claimed_name) users)
    as [u |]; [| left; repeat split].
  destruct (extract_embedding audio_path) as [e | probe];
    [left; repeat split |].
  rewrite bind_ret_l.
  destruct (user_similarities probe "cosine" u) as [e | sims] eqn:Hsims;
    [left; repeat split |].
  rewrite bind_ret_l.
  destruct sims as [| x sims]; [left; repeat split |].
  right. exists u, probe, (x :: sims), (fold_left Rmax sims x).
  repeat split; try reflexivity; [exact Hsims | discriminate].
Qed.

(** X10. In every result of [verify_speaker] the confidence lies between
    -100 and 100 (a cosine mean can be negative), and a reported maximum
    confidence is at least the confidence. *)
Theorem verify_confidence_bounds
  (extract_embedding : string -> py embedding)
  (audio_path claimed_name : string) (users : list User.t) (threshold : R) :
  let r := verify_speaker extract_embedding audio_path claimed_name users
             threshold in
  -100 <= Verification.confidence r <= 100
  /\ forall mc, Verification.max_confidence r = Some mc ->
                Verification.confidence r <= mc <= 100.
Proof.
  intros r.
  destruct (verify_speaker_cases extract_embedding audio_path claimed_name
              users threshold)
    as [[_ [Hc Hm]] | [u [probe [sims [mx [_ [_ [Hsims [Hne [Hmx
                                                  [_ [Hc Hm]]]]]]]]]]]];
    fold r in Hc, Hm; rewrite Hc, Hm.
  - split; [lra | intros mc H; discriminate].
  - assert (Hall : forall x, In x sims -> -1 <= x <= 1).
    { apply Forall_forall.
      apply (for_each_Forall (fun s => -1 <= s <= 1)
               (fun e => calculate_similarity probe e "cosine")
               (User.voice_embeddings u) sims); [| exact Hsims].
      intros e s. apply calculate_similarity_bounds. }
    destruct (min_mean_max sims Hne) as [mn [mx' [_ [Hmx' [Hin Hmean]]]]].
    rewrite Hmx in Hmx'. injection Hmx' as <-.
    pose proof (np_mean_bounds (-1) 1 sims Hne Hall) as Hm1.
    assert (Hmx1 : mx <= 1).
    { destruct sims as [| x sims]; [contradiction |].
      injection Hmx as <-.
      destruct (fold_left_Rmax_ge sims x) as [_ _].
      assert (Hex : exists y, In y (x :: sims) /\ fold_left Rmax sims x = y).
      { clear. revert x. induction sims as [| z sims IH]; intros x.
        - exists x. split; [left; reflexivity | reflexivity].
        - cbn [fold_left]. destruct (IH (Rmax x z)) as [y [[<- | Hy] Hy']].
          + unfold Rmax in *. destruct (Rle_dec x z).
            * exists z. split; [right; left; reflexivity | exact Hy'].
            * exists x. split; [left; reflexivity | exact Hy'].
          + exists y. split; [right; right; exact Hy | exact Hy']. }
      destruct Hex as [y [Hy ->]]. apply Hall. exact Hy. }
    assert (H100 : py_round2 (1 * 100) = 100)
      by (rewrite (py_round2_exact (1 * 100) 10000); lra).
    assert (Hm100 : py_round2 (-1 * 100) = -100)
      by (rewrite (py_round2_exact (-1 * 100) (-10000)); lra).
    assert (Hup : py_round2 (mx * 100) <= py_round2 (1 * 100))
      by (apply py_round2_monotone; lra).
    assert (Hmid : py_round2 (np_mean sims * 100) <= py_round2 (mx * 100))
      by (apply py_round2_monotone; lra).
    assert (Hlow : py_round2 (-1 * 100) <= py_round2 (np_mean sims * 100))
      by (apply py_round2_monotone; lra).
    split; [lra |].
    intros mc H. injection H as <-. lra.
Qed.

Lemma profile_means_in (probe : embedding) (method : string)
  (users : list User.t) (means : list R) (u : User.t) :
  profile_means probe method users means ->
  In u users ->
  exists m, In m means /\ profile_mean probe method u = inr m.
Proof.
  unfold profile_means. revert means.
  induction users as [| v users IH]; intros means Hm Hu; [contradiction |].
  apply for_each_cons_inr in Hm. destruct Hm as [m [ms [-> [Hv Hms]]]].
  destruct Hu as [<- | Hu].
  - exists m. split; [left; reflexivity | exact Hv].
  - destruct (IH ms Hms Hu) as [m' [Hin Hm']].
    exists m'. split; [right; exact Hin | exact Hm'].
Qed.

(** X11. Verification and identification agree: when every profile has a
    mean similarity to the probe and the threshold is at least 0.30, a
    probe that [verify_speaker] accepts for some claimed name makes
    [identify_speaker] (cosine, same threshold) identify a speaker with
    high confidence. *)
Theorem verified_is_identified
  (extract_embedding : string -> py embedding)
  (audio_path claimed_name : string) (probe : embedding)
  (users : list User.t) (means : list R) (threshold : R) :
  extract_embedding audio_path = inr probe ->
  profile_means probe "cosine" users means ->
  30 / 100 <= threshold ->
  Verification.verified
    (verify_speaker extract_embedding audio_path claimed_name users threshold)
  = true ->
  Identification.identified
    (identify_speaker extract_embedding audio_path users threshold "cosine")
  = true
  /\ identify_status extract_embedding audio_path users threshold "cosine"
     = Some "SPEAKER IDENTIFIED"%string.
Proof.
  intros Hex Hmeans Ht Hv.
  destruct (verify_speaker_cases extract_embedding audio_path claimed_name
              users threshold)
    as [[Hf _] | [u [probe' [sims [mx [Hfind [Hex' [Hsims [Hne [_
                                                  [Hver _]]]]]]]]]]].
  { rewrite Hf in Hv. discriminate. }
  rewrite Hex in Hex'. injection Hex' as <-.
  rewrite Hver in Hv.
  assert (Hge : threshold <= np_mean sims).
  { unfold Rgeb in Hv. destruct (Rge_dec (np_mean sims) threshold);
      [lra | discriminate]. }
  apply find_some in Hfind. destruct Hfind as [Hu _].
  destruct (profile_means_in probe "cosine" users means u Hmeans Hu)
    as [m [Hm Hpm]].
  assert (Hmean : m = np_mean sims).
  { unfold profile_mean in Hpm. rewrite Hsims, bind_ret_l in Hpm.
    destruct sims; [contradiction |]. injection Hpm as <-. reflexivity. }
  assert (Hmne : means <> []) by (intros ->; contradiction).
  destruct (first_greatest_exists means Hmne) as [i [s Hfg]].
  pose proof (first_greatest_bounds means i s Hfg m Hm) as Hs.
  destruct (profile_means_user probe "cosine" users means i s Hmeans
              (proj1 Hfg)) as [w Hw].
  destruct (scan_best probe users "cosine" means Hmeans i s w Hfg Hw)
    as [sc Hscan].
  rewrite Rltb_true in Hscan by lra.
  assert (Hne' : users <> []) by (intros ->; contradiction).
  assert (H30 : 30 / 100 <= s) by lra.
  assert (Hthr : threshold <= s) by lra.
  destruct (identify_after_scan extract_embedding audio_path probe Hex users
              threshold "cosine" _ _ _ _ _ _ Hne' Hscan
              (classify_high _ _ _ H30 Hthr)) as [-> ->].
  split; reflexivity.
Qed.

Lemma ann_verified :
  Verification.verified
    (verify_speaker (constant_encoder [3; 4]) "probe.wav" "ann" [ann]
       (50 / 100))
  = true.
Proof.
  unfold verify_speaker, constant_encoder, ann.
  cbn [find User.name String.eqb Ascii.eqb Bool.eqb].
  rewrite bind_ret_l. unfold user_similarities.
  cbn [User.voice_embeddings for_each].
  assert (Hsim : calculate_similarity [3; 4] [1; 0] "cosine"
                 = inr (60 / 100)).
  { rewrite cosine_value by reflexivity. f_equal.
    unfold dot. cbn [combine map Rsum fold_right fst snd].
    replace ((3 * 3 + (4 * 4 + 0)) * (1 * 1 + (0 * 0 + 0))) with (5 * 5)
      by ring.
    rewrite sqrt_square by lra. field. }
  rewrite Hsim, !bind_ret_l. cbn [np_max fold_left]. rewrite bind_ret_l.
  cbn [Verification.verified].
  apply Rgeb_true.
  unfold np_mean. cbn [Rsum fold_right length INR]. lra.
Qed.

Lemma ann_max_confidence :
  exists mc,
    Verification.max_confidence
      (verify_speaker (constant_encoder [3; 4]) "probe.wav" "ann" [ann]
         (50 / 100))
    = Some mc.
Proof.
  unfold verify_speaker, constant_encoder, ann.
  cbn [find User.name String.eqb Ascii.eqb Bool.eqb].
  rewrite bind_ret_l. unfold user_similarities.
  cbn [User.voice_embeddings for_each].
  assert (Hsim : calculate_similarity [3; 4] [1; 0] "cosine"
                 = inr (60 / 100)).
  { rewrite cosine_value by reflexivity. f_equal.
    unfold dot. cbn [combine map Rsum fold_right fst snd].
    replace ((3 * 3 + (4 * 4 + 0)) * (1 * 1 + (0 * 0 + 0))) with (5 * 5)
      by ring.
    rewrite sqrt_square by lra. field. }
  rewrite Hsim, !bind_ret_l. cbn [np_max fold_left]. rewrite bind_ret_l.
  cbn [Verification.max_confidence].
  eexists. reflexivity.
Qed.

Lemma verify_confidence_bounds_witness :
  exists mc,
    Verification.max_confidence
      (verify_speaker (constant_encoder [3; 4]) "probe.wav" "ann" [ann]
         (50 / 100))
    = Some mc
    /\ Verification.confidence
         (verify_speaker (constant_encoder [3; 4]) "probe.wav" "ann" [ann]
            (50 / 100))
       <= mc <= 100.
Proof.
  destruct ann_max_confidence as [mc Hmc].
  exists mc. split; [exact Hmc |].
  apply (verify_confidence_bounds (constant_encoder [3; 4]) "probe.wav" "ann"
           [ann] (50 / 100)).
  exact Hmc.
Defined.

Lemma verified_is_identified_witness :
  Identification.identified
    (identify_speaker (constant_encoder [3; 4]) "probe.wav" [ann] (50 / 100)
       "cosine")
  = true.
Proof.
  apply (verified_is_identified (constant_encoder [3; 4]) "probe.wav" "ann"
           [3; 4] [ann] [60 / 100] (50 / 100) eq_refl ann_means_3_4).
  - lra.
  - exact ann_verified.
Defined.

(** ** Enrolment: registration, recommended threshold, statistics *)

Lemma unordered_pairs_nonempty {A : Type} (l : list A) :
  (2 <= length l)%nat -> unordered_pairs l <> [].
Proof.
  destruct l as [| x [| y l]]; simpl; intros H; try lia. discriminate.
Qed.

(** The similarities of the pairs of two or more signatures, when they
    exist, are not empty and lie in [-1, 1]. *)
Lemma pairwise_similarities_range (embeddings : list embedding)
  (sims : list R) :
  (2 <= length embeddings)%nat ->
  pairwise_similarities embeddings = inr sims ->
  sims <> [] /\ forall s, In s sims -> -1 <= s <= 1.
Proof.
  intros Hlen H. rewrite pairwise_similarities_pairs in H.
  unfold pair_similarities in H. split.
  - apply for_each_length in H.
    pose proof (unordered_pairs_nonempty embeddings Hlen) as Hne.
    destruct sims; [| discriminate].
    destruct (unordered_pairs embeddings); [contradiction | discriminate].
  - apply Forall_forall.
    apply (for_each_Forall (fun s => -1 <= s <= 1) _ _ _
             (fun p s => calculate_similarity_bounds (fst p) (snd p)
                           "cosine" s) H).
Qed.

(** X12. A successful registration holds one embedding per audio path,
    in the order of the paths, counts them in [num_samples], carries no
    error, and its [avg_inter_similarity] lies in [-1, 1]. *)
Theorem register_voice_success
  (extract_embedding : string -> py embedding) (audio_paths : list string)
  (user_name : string) :
  let r := register_voice extract_embedding audio_paths user_name in
  Registration.success r = true ->
  exists embeddings avg,
    for_each extract_embedding audio_paths = inr embeddings
    /\ Registration.embeddings r = Some embeddings
    /\ Registration.num_samples r = Some (length audio_paths)
    /\ Registration.avg_inter_similarity r = Some avg
    /\ -1 <= avg <= 1
    /\ Registration.error r = None.
Proof.
  intros r. subst r. unfold register_voice.
  destruct (for_each extract_embedding audio_paths) as [e | embs] eqn:Hembs;
    [discriminate |].
  rewrite bind_ret_l.
  pose proof (for_each_length _ _ _ Hembs) as Hlen.
  destruct (Nat.ltb 1 (length embs)) eqn:Hmany.
  - destruct (pairwise_similarities embs) as [e | sims] eqn:Hsims;
      [discriminate |].
    rewrite !bind_ret_l. intros _.
    apply Nat.ltb_lt in Hmany.
    destruct (pairwise_similarities_range embs sims) as [Hne Hall];
      [lia | exact Hsims |].
    exists embs, (np_mean sims).
    cbn [Registration.embeddings Registration.num_samples
           Registration.avg_inter_similarity Registration.error].
    rewrite Hlen.
    repeat split; try reflexivity;
      apply (np_mean_bounds (-1) 1 sims Hne Hall).
  - rewrite !bind_ret_l. intros _.
    exists embs, 1.
    cbn [Registration.embeddings Registration.num_samples
           Registration.avg_inter_similarity Registration.error].
    rewrite Hlen. repeat split; try reflexivity; lra.
Qed.

Lemma register_voice_success_witness :
  exists embeddings avg,
    Registration.embeddings
      (register_voice (constant_encoder [3; 4]) ["a.wav"; "b.wav"]%string
         "ann")
    = Some embeddings
    /\ Registration.avg_inter_similarity
         (register_voice (constant_encoder [3; 4]) ["a.wav"; "b.wav"]%string
            "ann")
       = Some avg
    /\ -1 <= avg <= 1.
Proof.
  destruct (register_voice_success (constant_encoder [3; 4])
              ["a.wav"; "b.wav"]%string "ann")
    as [embs [avg [_ [He [_ [Ha [Hr _]]]]]]].
  - unfold register_voice, constant_encoder. cbn [for_each].
    rewrite !bind_ret_l. cbn [length Nat.ltb Nat.leb].
    rewrite pairwise_similarities_pairs.
    destruct (pair_similarities_total 2 [[3; 4]; [3; 4]]) as [sims ->];
      [repeat constructor |].
    reflexivity.
  - exists embs, avg. split; [exact He | split; [exact Ha | exact Hr]].
Defined.

(** X13. Whenever [calculate_optimal_threshold] returns, what it returns
    lies in [0.5, 0.8]. *)
Theorem calculate_optimal_threshold_range (user_embeddings : list embedding)
  (t : R) :
  calculate_optimal_threshold user_embeddings = inr t ->
  5 / 10 <= t <= 8 / 10.
Proof.
  unfold calculate_optimal_threshold.
  destruct (Nat.ltb (length user_embeddings) 2).
  - intros H. injection H as <-. lra.
  - intros H. inv_bind H as sims Hsims. injection H as <-.
    destruct (py_clamp (5 / 10) (8 / 10) (np_mean sims - np_std sims))
      as [-> Hb]; [lra | exact Hb].
Qed.

Lemma calculate_optimal_threshold_range_witness :
  exists t,
    calculate_optimal_threshold [[3; 4]; [4; 3]; [1; 0]] = inr t
    /\ 5 / 10 <= t <= 8 / 10.
Proof.
  destruct (calculate_optimal_threshold [[3; 4]; [4; 3]; [1; 0]])
    as [e | t] eqn:H.
  - exfalso. revert H. unfold calculate_optimal_threshold.
    cbn [length Nat.ltb Nat.leb]. rewrite pairwise_similarities_pairs.
    destruct (pair_similarities_total 2 [[3; 4]; [4; 3]; [1; 0]])
      as [sims ->]; [repeat constructor |].
    discriminate.
  - exists t. split; [reflexivity |].
    exact (calculate_optimal_threshold_range _ t H).
Defined.

Lemma np_std_nonneg (l : list R) : 0 <= np_std l.
Proof. unfold np_std. apply sqrt_pos. Qed.

(** X14. Whatever statistics [get_embedding_statistics] returns are in
    order: the count and the dimension are those of the input, minimum <=
    average <= maximum, all three within [-1, 1], and the deviation is
    not negative; for no embeddings it returns the empty dictionary. *)
Theorem get_embedding_statistics_ordered (embeddings : list embedding) :
  (embeddings = [] -> get_embedding_statistics embeddings = inr None)
  /\ forall st,
       get_embedding_statistics embeddings = inr (Some st) ->
       Statistics.num_embeddings st = length embeddings
       /\ Statistics.embedding_dimension st = length (hd [] embeddings)
       /\ -1 <= Statistics.min_similarity st
       /\ Statistics.min_similarity st <= Statistics.avg_similarity st
       /\ Statistics.avg_similarity st <= Statistics.max_similarity st
       /\ Statistics.max_similarity st <= 1
       /\ 0 <= Statistics.std_similarity st.
Proof.
  split; [intros ->; reflexivity |].
  intros st H. unfold get_embedding_statistics in H.
  destruct embeddings as [| first rest]; [discriminate |].
  inv_bind H as sims Hsims.
  destruct sims as [| x sims].
  - injection H as <-. cbn. repeat split; lra.
  - destruct (min_mean_max (x :: sims)) as [mn [mx [Hmn [Hmx [Hall Hmean]]]]];
      [discriminate |].
    rewrite Hmn, Hmx, !bind_ret_l in H. injection H as <-.
    cbn [Statistics.num_embeddings Statistics.embedding_dimension
           Statistics.min_similarity Statistics.avg_similarity
           Statistics.max_similarity Statistics.std_similarity hd].
    assert (Hrange : forall s, In s (x :: sims) -> -1 <= s <= 1).
    { rewrite pairwise_similarities_pairs in Hsims.
      apply Forall_forall.
      apply (for_each_Forall (fun s => -1 <= s <= 1) _ _ _
               (fun p s => calculate_similarity_bounds (fst p) (snd p)
                             "cosine" s) Hsims). }
    assert (Hmn1 : -1 <= mn).
    { injection Hmn as <-.
      clear - Hrange. revert x Hrange.
      induction sims as [| z sims IH]; intros x Hrange.
      - apply (Hrange x). left; reflexivity.
      - cbn [fold_left]. apply IH. intros s [<- | Hs].
        + unfold Rmin. destruct (Rle_dec x z);
            apply Hrange; [left | right; left]; reflexivity.
        + apply Hrange. right; right. exact Hs. }
    assert (Hmx1 : mx <= 1).
    { injection Hmx as <-.
      clear - Hrange. revert x Hrange.
      induction sims as [| z sims IH]; intros x Hrange.
      - apply (Hrange x). left; reflexivity.
      - cbn [fold_left]. apply IH. intros s [<- | Hs].
        + unfold Rmax. destruct (Rle_dec x z);
            apply Hrange; [right; left | left]; reflexivity.
        + apply Hrange. right; right. exact Hs. }
    repeat split; try lra; try reflexivity. apply np_std_nonneg.
Qed.

Lemma get_embedding_statistics_ordered_witness :
  exists st,
    get_embedding_statistics [[3; 4]; [4; 3]; [1; 0]] = inr (Some st)
    /\ Statistics.min_similarity st <= Statistics.avg_similarity st
    /\ Statistics.avg_similarity st <= Statistics.max_similarity st.
Proof.
  destruct (get_embedding_statistics [[3; 4]; [4; 3]; [1; 0]])
    as [e | [st |]] eqn:H.
  - exfalso. revert H. unfold get_embedding_statistics.
    rewrite pairwise_similarities_pairs.
    destruct (pair_similarities_total 2 [[3; 4]; [4; 3]; [1; 0]])
      as [sims Hs]; [repeat constructor |].
    rewrite Hs, bind_ret_l.
    destruct sims as [| x sims]; [discriminate |].
    cbn [np_min np_max]. rewrite !bind_ret_l. discriminate.
  - exists st. split; [reflexivity |].
    destruct (proj2 (get_embedding_statistics_ordered
                       [[3; 4]; [4; 3]; [1; 0]]) st H)
      as [_ [_ [_ [H1 [H2 _]]]]].
    split; assumption.
  - exfalso. revert H. unfold get_embedding_statistics.
    destruct (pairwise_similarities [[3; 4]; [4; 3]; [1; 0]]) as [e | sims];
      [discriminate |].
    rewrite bind_ret_l. destruct sims; [discriminate |].
    cbn [np_min np_max]. rewrite !bind_ret_l. discriminate.
Defined.

(** ** Enrolment from one repeated signature *)

Lemma cosine_of_self (v : embedding) :
  nonzero v -> calculate_similarity v v "cosine" = inr 1.
Proof.
  intros Hv. rewrite cosine_value by reflexivity. f_equal.
  pose proof (dot_self_pos v Hv) as Hpos.
  rewrite sqrt_square by lra. field. lra.
Qed.

Lemma for_each_constant {A B : Type} (f : A -> py B) (xs : list A) (y : B) :
  (forall x, In x xs -> f x = inr y) ->
  for_each f xs = inr (repeat y (length xs)).
Proof.
  induction xs as [| x xs IH]; intros H; [reflexivity |].
  cbn [for_each length repeat].
  rewrite (H x) by (left; reflexivity).
  rewrite IH by (intros z Hz; apply H; right; exact Hz).
  reflexivity.
Qed.

Lemma pair_similarities_repeat (v : embedding) (n : nat) :
  nonzero v ->
  pair_similarities (repeat v n)
  = inr (repeat 1 (length (unordered_pairs (repeat v n)))).
Proof.
  intros Hv. unfold pair_similarities.
  apply for_each_constant. intros [a b] Hp.
  destruct (unordered_pairs_in _ _ Hp) as [Ha Hb].
  apply repeat_spec in Ha. apply repeat_spec in Hb.
  cbn [fst snd] in *. subst a b. apply cosine_of_self. exact Hv.
Qed.

Lemma Rsum_repeat (x : R) (k : nat) : Rsum (repeat x k) = INR k * x.
Proof.
  induction k as [| k IH]; [simpl; ring |].
  change (Rsum (repeat x (S k))) with (x + Rsum (repeat x k)).
  rewrite IH, S_INR. ring.
Qed.

Lemma np_mean_repeat (x : R) (k : nat) :
  (0 < k)%nat -> np_mean (repeat x k) = x.
Proof.
  intros Hk. unfold np_mean. rewrite Rsum_repeat, repeat_length.
  field. apply not_0_INR. lia.
Qed.

Lemma np_std_repeat (x : R) (k : nat) :
  (0 < k)%nat -> np_std (repeat x k) = 0.
Proof.
  intros Hk. unfold np_std. rewrite (np_mean_repeat x k Hk).
  rewrite map_repeat.
  rewrite np_mean_repeat by exact Hk.
  replace (x - x) with 0 by ring. rewrite Rabs_R0, Rmult_0_l.
  apply sqrt_0.
Qed.

(** X15. Enrolment from one signature repeated cannot be told from a
    perfectly consistent speaker: for two or more copies of a non-zero
    signature the recommended threshold is the cap 0.8, and registering
    any number of files that all yield this signature reports
    [avg_inter_similarity] 1.0. *)
Theorem repeated_signature_enrolment
  (extract_embedding : string -> py embedding) (audio_paths : list string)
  (user_name : string) (v : embedding) :
  nonzero v ->
  (forall p, In p audio_paths -> extract_embedding p = inr v) ->
  Registration.avg_inter_similarity
    (register_voice extract_embedding audio_paths user_name)
  = Some 1
  /\ ((2 <= length audio_paths)%nat ->
      calculate_optimal_threshold (repeat v (length audio_paths))
      = inr (8 / 10)).
Proof.
  intros Hv Hex.
  pose proof (for_each_constant extract_embedding audio_paths v Hex) as Hembs.
  set (n := length audio_paths) in *.
  pose proof (pair_similarities_repeat v n Hv) as Hsims.
  set (k := length (unordered_pairs (repeat v n))) in *.
  assert (Hk : (2 <= n)%nat -> (0 < k)%nat).
  { intros Hn. subst k.
    assert (Hl : (2 <= length (repeat v n))%nat)
      by (rewrite repeat_length; exact Hn).
    pose proof (unordered_pairs_nonempty (repeat v n) Hl) as Hne.
    destruct (unordered_pairs (repeat v n)); [contradiction | simpl; lia]. }
  split.
  - unfold register_voice. rewrite Hembs, bind_ret_l, repeat_length.
    destruct (Nat.ltb 1 n) eqn:Hn; [| reflexivity].
    apply Nat.ltb_lt in Hn.
    rewrite pairwise_similarities_pairs, Hsims, !bind_ret_l.
    cbn [Registration.avg_inter_similarity].
    rewrite np_mean_repeat by (apply Hk; lia). reflexivity.
  - intros Hn. unfold calculate_optimal_threshold.
    rewrite repeat_length.
    assert (Hlt : Nat.ltb n 2 = false) by (apply Nat.ltb_ge; exact Hn).
    rewrite Hlt, pairwise_similarities_pairs, Hsims, bind_ret_l.
    rewrite np_mean_repeat, np_std_repeat by (apply Hk; exact Hn).
    unfold ret. f_equal.
    destruct (py_clamp (5 / 10) (8 / 10) (1 - 0)) as [-> _]; [lra |].
    unfold clamp, Rmax, Rmin.
    destruct (Rle_dec (8 / 10) (1 - 0)); [| lra].
    destruct (Rle_dec (5 / 10) (8 / 10)); lra.
Qed.

Lemma repeated_signature_enrolment_witness :
  calculate_optimal_threshold [[3; 4]; [3; 4]] = inr (8 / 10).
Proof.
  apply (repeated_signature_enrolment (constant_encoder [3; 4])
           ["a.wav"; "b.wav"]%string "ann" [3; 4]).
  - exists 3. split; [left; reflexivity | lra].
  - intros p _. reflexivity.
  - simpl. lia.
Defined.

(** ** Preprocessing steps *)

Lemma Rsum_map_sub (m : R) (l : list R) :
  Rsum (map (fun x => x - m) l) = Rsum l - INR (length l) * m.
Proof.
  induction l as [| y l IH]; [simpl; ring |].
  change (Rsum (map (fun x => x - m) (y :: l)))
    with (y - m + Rsum (map (fun x => x - m) l)).
  change (Rsum (y :: l)) with (y + Rsum l).
  change (length (y :: l)) with (S (length l)).
  rewrite IH, S_INR. ring.
Qed.

(** X16. Removing the DC offset keeps the number of samples, leaves a
    signal of mean zero, and does nothing when applied again. *)
Theorem remove_dc_offset_centred (audio : list R) :
  length (remove_dc_offset audio) = length audio
  /\ (audio <> [] -> np_mean (remove_dc_offset audio) = 0)
  /\ remove_dc_offset (remove_dc_offset audio) = remove_dc_offset audio.
Proof.
  assert (Hlen : length (remove_dc_offset audio) = length audio)
    by apply length_map.
  assert (Hmean : audio <> [] -> np_mean (remove_dc_offset audio) = 0).
  { intros Hne. unfold np_mean at 1. rewrite Hlen.
    unfold remove_dc_offset. rewrite Rsum_map_sub. unfold np_mean.
    field. apply not_0_INR. destruct audio; [contradiction | discriminate]. }
  split; [exact Hlen | split; [exact Hmean |]].
  destruct audio as [| x audio]; [reflexivity |].
  unfold remove_dc_offset at 1.
  rewrite Hmean by discriminate.
  rewrite <- (map_id (remove_dc_offset (x :: audio))) at 2.
  apply map_ext. intros y. ring.
Qed.

Lemma remove_dc_offset_centred_witness :
  np_mean (remove_dc_offset [1; 2; 6]) = 0.
Proof.
  apply (remove_dc_offset_centred [1; 2; 6]). discriminate.
Defined.

Lemma fold_left_Rmax_in (l : list R) (a : R) :
  fold_left Rmax l a = a \/ In (fold_left Rmax l a) l.
Proof.
  revert a. induction l as [| y l IH]; intros a; [left; reflexivity |].
  cbn [fold_left]. destruct (IH (Rmax a y)) as [H | H].
  - rewrite H. unfold Rmax. destruct (Rle_dec a y);
      [right; left; reflexivity | left; reflexivity].
  - right. right. exact H.
Qed.

(** The maximum of a list is one of its elements and bounds them all. *)
Lemma np_max_spec (l : list R) (p : R) :
  np_max l = inr p -> In p l /\ forall x, In x l -> x <= p.
Proof.
  destruct l as [| a l]; [discriminate |].
  intros H. injection H as <-.
  destruct (fold_left_Rmax_ge l a) as [Ha Hl].
  split.
  - destruct (fold_left_Rmax_in l a) as [-> | H];
      [left; reflexivity | right; exact H].
  - intros x [<- | Hx]; [exact Ha | apply Hl; exact Hx].
Qed.

(** A maximum is determined by these two facts. *)
Lemma np_max_unique (l : list R) (p : R) :
  In p l -> (forall x, In x l -> x <= p) -> np_max l = inr p.
Proof.
  intros Hin Hle.
  destruct l as [| a l]; [contradiction |].
  destruct (np_max_spec (a :: l) (fold_left Rmax l a) eq_refl) as [Hq Hqle].
  cbn [np_max]. unfold ret. f_equal.
  apply Rle_antisym; [apply Hle; exact Hq | apply Hqle; exact Hin].
Qed.

Lemma peak_nonneg (audio : list R) (p : R) : peak audio p -> 0 <= p.
Proof.
  intros H. apply np_max_spec in H. destruct H as [Hin _].
  apply in_map_iff in Hin. destruct Hin as [x [<- _]]. apply Rabs_pos.
Qed.

Lemma peak_zero_silent (audio : list R) : peak audio 0 -> silent audio.
Proof.
  intros H. apply np_max_spec in H. destruct H as [_ Hle].
  apply Forall_forall. intros x Hx.
  assert (Hx0 : Rabs x <= 0) by (apply Hle, in_map; exact Hx).
  pose proof (Rabs_pos x) as Hpos.
  destruct (Req_dec x 0) as [H0 | H0]; [exact H0 |].
  pose proof (Rabs_pos_lt x H0). lra.
Qed.

(** Scaling a signal by a factor that is not negative scales its peak. *)
Lemma peak_scaled (audio : list R) (p c : R) :
  0 <= c -> peak audio p -> peak (map (fun x => x * c) audio) (p * c).
Proof.
  intros Hc H. unfold peak in *.
  destruct (np_max_spec _ _ H) as [Hin Hle].
  apply np_max_unique.
  - apply in_map_iff in Hin. destruct Hin as [x [<- Hx]].
    apply in_map_iff. exists (x * c). split.
    + rewrite Rabs_mult, (Rabs_pos_eq c Hc). reflexivity.
    + apply (in_map (fun z => z * c)). exact Hx.
  - intros y Hy. apply in_map_iff in Hy. destruct Hy as [z [<- Hz]].
    apply in_map_iff in Hz. destruct Hz as [x [<- Hx]].
    rewrite Rabs_mult, (Rabs_pos_eq c Hc).
    apply Rmult_le_compat_r; [exact Hc |].
    apply Hle, in_map. exact Hx.
Qed.

(** X17. [normalize_audio] raises NumPy's [ValueError] of the maximum of
    an empty array on an empty signal and returns a silent signal as it
    is; any other signal, of peak [p], it scales by [target_level / p],
    so that (for a target that is not negative) the peak of what it
    returns is the target level; the length is kept. *)
Theorem normalize_audio_peak (audio : list R) (target_level : R) :
  (audio = [] ->
   normalize_audio audio target_level
   = inl (ValueError
            "zero-size array to reduction operation maximum which has no identity"))
  /\ (audio <> [] -> silent audio ->
      normalize_audio audio target_level = inr audio)
  /\ (~ silent audio ->
      exists p out,
        peak audio p /\ 0 < p
        /\ normalize_audio audio target_level = inr out
        /\ out = scale (target_level / p) audio
        /\ length out = length audio
        /\ (0 <= target_level -> peak out target_level)).
Proof.
  split; [| split].
  - intros ->. reflexivity.
  - intros Hne Hs. unfold normalize_audio.
    destruct (np_max (map Rabs audio)) as [e | p] eqn:Hp.
    + destruct audio; [contradiction | discriminate].
    + rewrite bind_ret_l.
      destruct (np_max_spec _ _ Hp) as [Hin _].
      apply in_map_iff in Hin. destruct Hin as [x [<- Hx]].
      unfold silent in Hs. rewrite Forall_forall in Hs.
      rewrite (Hs x Hx), Rabs_R0.
      unfold Rgtb. rewrite Rltb_false by lra. reflexivity.
  - intros Hs. unfold normalize_audio.
    destruct (np_max (map Rabs audio)) as [e | p] eqn:Hp.
    + destruct audio; [exfalso; apply Hs; constructor | discriminate].
    + rewrite bind_ret_l.
      pose proof (peak_nonneg audio p Hp) as Hp0.
      assert (Hpos : 0 < p).
      { destruct (Req_dec p 0) as [-> | Hp1]; [| lra].
        exfalso. apply Hs. apply peak_zero_silent. exact Hp. }
      unfold Rgtb. rewrite Rltb_true by exact Hpos.
      exists p, (map (fun x => x * (target_level / p)) audio).
      split; [exact Hp | split; [exact Hpos | split; [reflexivity |]]].
      split; [| split; [apply length_map |]].
      * unfold scale. apply map_ext. intros x. apply Rmult_comm.
      * intros Ht.
        assert (Hc : 0 <= target_level / p).
        { unfold Rdiv. apply Rmult_le_pos; [exact Ht |].
          apply Rlt_le, Rinv_0_lt_compat. exact Hpos. }
        pose proof (peak_scaled audio p (target_level / p) Hc Hp) as H.
        replace (p * (target_level / p)) with target_level in H
          by (field; lra).
        exact H.
Qed.

Lemma normalize_audio_peak_witness :
  normalize_audio [1 / 2; - (1 / 4)] (9 / 10)
  = inr (scale (9 / 10 / (1 / 2)) [1 / 2; - (1 / 4)])
  /\ peak (scale (9 / 10 / (1 / 2)) [1 / 2; - (1 / 4)]) (9 / 10).
Proof.
  destruct (proj2 (proj2 (normalize_audio_peak [1 / 2; - (1 / 4)] (9 / 10))))
    as [p [out [Hp [_ [Hout [Hscaled [_ Hpeak]]]]]]].
  - intros Hs. inversion Hs as [| ? ? Hx _]. lra.
  - assert (Hhalf : peak [1 / 2; - (1 / 4)] (1 / 2)).
    { apply np_max_unique.
      - left. apply Rabs_pos_eq. lra.
      - intros x [<- | [<- | []]]; [rewrite Rabs_pos_eq by lra; lra |].
        rewrite Rabs_Ropp, Rabs_pos_eq by lra. lra. }
    unfold peak in Hp, Hhalf. rewrite Hhalf in Hp. injection Hp as <-.
    subst out. split; [exact Hout | apply Hpeak; lra].
Defined.

(** X18. The loudness of the input does not matter to
    [normalize_audio]: a signal and the same signal amplified by a
    positive factor are normalized to the same signal (or raise
    alike). *)
Theorem normalize_audio_scale_invariant (c : R) (audio : list R)
  (target_level : R) :
  0 < c ->
  normalize_audio (scale c audio) target_level
  = normalize_audio audio target_level.
Proof.
  intros Hc. unfold normalize_audio.
  destruct (np_max (map Rabs audio)) as [e | p] eqn:Hp.
  - destruct audio; [| discriminate].
    cbn in Hp. unfold raise in Hp. injection Hp as <-. reflexivity.
  - assert (Hps : np_max (map Rabs (scale c audio)) = inr (p * c)).
    { assert (Heq : scale c audio = map (fun x => x * c) audio)
        by (apply map_ext; intros x; ring).
      rewrite Heq. apply peak_scaled; [lra | exact Hp]. }
    rewrite Hps, !bind_ret_l.
    pose proof (peak_nonneg audio p Hp) as Hp0.
    unfold Rgtb, Rltb.
    destruct (Rlt_dec 0 p) as [Hpos | Hzero].
    + destruct (Rlt_dec 0 (p * c)) as [_ | Hn]; [| exfalso; apply Hn; nra].
      unfold ret, scale. f_equal. rewrite map_map.
      apply map_ext. intros x. field. lra.
    + assert (Hp1 : p = 0) by lra. subst p.
      destruct (Rlt_dec 0 (0 * c)) as [Hn | _]; [lra |].
      unfold ret. f_equal.
      pose proof (peak_zero_silent audio Hp) as Hs.
      unfold silent in Hs. rewrite Forall_forall in Hs.
      unfold scale. rewrite <- (map_id audio) at 2.
      apply map_ext_in. intros x Hx. rewrite (Hs x Hx). ring.
Qed.

Lemma normalize_audio_scale_invariant_witness :
  normalize_audio (scale 3 [1 / 2; - (1 / 4)]) (9 / 10)
  = normalize_audio [1 / 2; - (1 / 4)] (9 / 10).
Proof.
  apply (normalize_audio_scale_invariant 3). lra.
Defined.

(** ** Pre-emphasis *)

(** The filtered tail of [previous :: rest]. *)
Lemma pre_emphasis_tail (coef previous x : R) (rest : list R) :
  map (fun p => fst p - coef * snd p)
    (combine (x :: rest) (all_but_last (previous :: x :: rest)))
  = (x - coef * previous)
    :: map (fun p => fst p - coef * snd p)
         (combine rest (all_but_last (x :: rest))).
Proof. reflexivity. Qed.

Lemma pre_emphasis_tail_length (coef previous : R) (rest : list R) :
  length (map (fun p => fst p - coef * snd p)
            (combine rest (all_but_last (previous :: rest))))
  = length rest.
Proof.
  revert previous. induction rest as [| x rest IH]; intros previous;
    [reflexivity |].
  rewrite pre_emphasis_tail. cbn [length]. rewrite IH. reflexivity.
Qed.

Lemma pre_emphasis_tail_nth (coef previous : R) (rest : list R) (i : nat) :
  (i < length rest)%nat ->
  nth i (map (fun p => fst p - coef * snd p)
           (combine rest (all_but_last (previous :: rest)))) 0
  = nth i rest 0 - coef * nth i (previous :: rest) 0.
Proof.
  revert previous i. induction rest as [| x rest IH]; intros previous i Hi;
    [simpl in Hi; lia |].
  rewrite pre_emphasis_tail.
  destruct i as [| i]; [reflexivity |].
  cbn [nth]. apply IH. simpl in Hi. lia.
Qed.

(** X19. [apply_pre_emphasis] raises the [IndexError] of [audio[0]] on
    an empty signal; on any other it keeps the length and computes
    [y[0] = x[0]] and [y[i] = x[i] - coef * x[i-1]]. *)
Theorem apply_pre_emphasis_formula (audio : list R) (coef : R) :
  (audio = [] ->
   apply_pre_emphasis audio coef
   = inl (IndexError "index 0 is out of bounds for axis 0 with size 0"))
  /\ (audio <> [] ->
      exists out,
        apply_pre_emphasis audio coef = inr out
        /\ length out = length audio
        /\ nth 0 out 0 = nth 0 audio 0
        /\ forall i, (0 < i < length audio)%nat ->
             nth i out 0 = nth i audio 0 - coef * nth (i - 1) audio 0).
Proof.
  split.
  - intros ->. reflexivity.
  - intros Hne. destruct audio as [| first rest]; [contradiction |].
    eexists. split; [reflexivity | split; [| split]].
    + cbn [length]. rewrite pre_emphasis_tail_length. reflexivity.
    + reflexivity.
    + intros [| i] Hi; [lia |].
      cbn [length] in Hi.
      replace (S i - 1)%nat with i by lia.
      change (nth (S i) (first :: rest) 0) with (nth i rest 0).
      cbn [nth]. apply pre_emphasis_tail_nth. lia.
Qed.

Lemma apply_pre_emphasis_formula_witness :
  apply_pre_emphasis [] (1 / 2)
  = inl (IndexError "index 0 is out of bounds for axis 0 with size 0")
  /\ exists out,
       apply_pre_emphasis [1; 3; 2] (1 / 2) = inr out
       /\ nth 1 out 0 = nth 1 [1; 3; 2] 0 - 1 / 2 * nth 0 [1; 3; 2] 0
       /\ nth 2 out 0 = nth 2 [1; 3; 2] 0 - 1 / 2 * nth 1 [1; 3; 2] 0.
Proof.
  split.
  - exact (proj1 (apply_pre_emphasis_formula [] (1 / 2)) eq_refl).
  - destruct (proj2 (apply_pre_emphasis_formula [1; 3; 2] (1 / 2)))
      as [out [Hout [_ [_ Hnth]]]]; [discriminate |].
    exists out. split; [exact Hout | split].
    + apply (Hnth 1%nat). simpl. lia.
    + apply (Hnth 2%nat). simpl. lia.
Defined.

Lemma pre_emphasis_tail_injective (coef : R) (rest rest' : list R)
  (previous : R) :
  map (fun p => fst p - coef * snd p)
    (combine rest (all_but_last (previous :: rest)))
  = map (fun p => fst p - coef * snd p)
      (combine rest' (all_but_last (previous :: rest'))) ->
  rest = rest'.
Proof.
  revert rest' previous.
  induction rest as [| x rest IH]; intros [| x' rest'] previous H;
    try reflexivity; try (rewrite pre_emphasis_tail in H; discriminate).
  rewrite !pre_emphasis_tail in H. injection H as Hx Hrest.
  assert (x = x') by lra. subst x'.
  f_equal. apply (IH rest' x). exact Hrest.
Qed.

(** X20. Pre-emphasis loses nothing: two signals with the same
    pre-emphasized signal (same coefficient) are the same signal. *)
Theorem apply_pre_emphasis_injective (a b out : list R) (coef : R) :
  apply_pre_emphasis a coef = inr out ->
  apply_pre_emphasis b coef = inr out ->
  a = b.
Proof.
  destruct a as [| x a]; [discriminate |].
  destruct b as [| y b]; [discriminate |].
  cbn [apply_pre_emphasis]. unfold ret. intros Ha Hb.
  rewrite <- Ha in Hb. injection Hb as Hxy Htail. subst y.
  f_equal. symmetry. apply (pre_emphasis_tail_injective coef b a x).
  exact Htail.
Qed.

Lemma apply_pre_emphasis_injective_witness :
  apply_pre_emphasis [1; 3; 2] (97 / 100)
  = inr [1; 3 - 97 / 100 * 1; 2 - 97 / 100 * 3]
  /\ [1; 3; 2] = [1; 3; 2].
Proof.
  split; [reflexivity |].
  exact (apply_pre_emphasis_injective [1; 3; 2] [1; 3; 2]
           [1; 3 - 97 / 100 * 1; 2 - 97 / 100 * 3] (97 / 100)
           eq_refl eq_refl).
Defined.

(** ** The preprocessing pipeline *)

(** What [normalize_audio] returns is not empty, and is silent or has
    the target level as its peak. *)
Lemma normalize_audio_result (audio out : list R) (target_level : R) :
  0 <= target_level ->
  normalize_audio audio target_level = inr out ->
  out <> [] /\ length out = length audio
  /\ (silent out \/ peak out target_level).
Proof.
  intros Ht H. unfold normalize_audio in H.
  destruct (np_max (map Rabs audio)) as [e | p] eqn:Hp; [discriminate |].
  rewrite bind_ret_l in H.
  assert (Hne : audio <> []) by (intros ->; discriminate).
  pose proof (peak_nonneg audio p Hp) as Hp0.
  unfold Rgtb, Rltb in H.
  destruct (Rlt_dec 0 p) as [Hpos | Hzero]; injection H as <-.
  - split; [| split; [apply length_map |]].
    + destruct audio; [contradiction | discriminate].
    + right.
      assert (Hc : 0 <= target_level / p).
      { unfold Rdiv. apply Rmult_le_pos; [exact Ht |].
        apply Rlt_le, Rinv_0_lt_compat. exact Hpos. }
      pose proof (peak_scaled audio p (target_level / p) Hc Hp) as H.
      replace (p * (target_level / p)) with target_level in H
        by (field; lra).
      exact H.
  - split; [exact Hne | split; [reflexivity |]].
    left. apply peak_zero_silent.
    assert (Hp1 : p = 0) by lra. subst p. exact Hp.
Qed.

Lemma load_audio_rate (librosa_load : string -> Z -> py (list R * Z))
  (target_sr : Z) (file_path : string) (audio : list R) (sr : Z) :
  load_audio librosa_load target_sr file_path = inr (audio, sr) ->
  sr <> 0%Z /\ librosa_load file_path target_sr = inr (audio, sr).
Proof.
  unfold load_audio.
  destruct (librosa_load file_path target_sr) as [e | [a s]];
    [discriminate |].
  rewrite bind_ret_l. unfold true_div.
  destruct (Z.eqb s 0) eqn:Hs; [discriminate |].
  rewrite bind_ret_l. intros H. injection H as <- <-.
  split; [apply Z.eqb_neq; exact Hs | reflexivity].
Qed.

(** X21. Whatever the decoder, the noise reducer and the trimmer do:
    when [preprocess] with normalization returns, the signal it returns
    is not empty and is either silent or has peak 0.9, and the sample
    rate it returns is the decoder's and is not zero. *)
Theorem preprocess_normalized
  (librosa_load : string -> Z -> py (list R * Z)) (target_sr : Z)
  (nr_reduce_noise : list R -> Z -> R -> py (list R))
  (librosa_effects_trim :
     list R -> R -> nat -> nat -> py (list R * (nat * nat)))
  (file_path : string)
  (apply_noise_reduction apply_trimming apply_pre_emphasis_flag : bool)
  (noise_strength : R) (out : list R) (sr : Z) :
  preprocess librosa_load target_sr nr_reduce_noise librosa_effects_trim
    file_path apply_noise_reduction true apply_trimming
    apply_pre_emphasis_flag noise_strength
  = inr (out, sr) ->
  out <> []
  /\ (silent out \/ peak out (9 / 10))
  /\ sr <> 0%Z
  /\ exists loaded, librosa_load file_path target_sr = inr (loaded, sr).
Proof.
  unfold preprocess. intros H.
  inv_bind H as loaded Hload. destruct loaded as [audio0 sr0].
  inv_bind H as emphasized Hemph.
  inv_bind H as normalized Hnorm.
  inv_bind H as final_length Hfinal.
  injection H as <- <-.
  destruct (load_audio_rate _ _ _ _ _ Hload) as [Hsr Hlib].
  destruct (normalize_audio_result _ _ (9 / 10) ltac:(lra) Hnorm)
    as [Hne [_ Hpeak]].
  split; [exact Hne | split; [exact Hpeak | split; [exact Hsr |]]].
  exists audio0. exact Hlib.
Qed.

Lemma normalize_audio_total (audio : list R) (target_level : R) :
  audio <> [] -> exists out, normalize_audio audio target_level = inr out.
Proof.
  intros Hne. destruct audio as [| x audio]; [contradiction |].
  unfold normalize_audio. cbn [map np_max]. rewrite bind_ret_l.
  destruct (Rgtb _ 0); eexists; reflexivity.
Qed.

Lemma preprocess_normalized_witness :
  exists out,
    preprocess constant_decoder 2 (fun _ _ _ => inl ZeroDivisionError)
      (fun _ _ _ _ => inl ZeroDivisionError) "sample.wav" true true true false
      (8 / 10)
    = inr (out, 2%Z)
    /\ (silent out \/ peak out (9 / 10)).
Proof.
  destruct (normalize_audio_total (remove_dc_offset two_seconds) (9 / 10))
    as [out Hout]; [discriminate |].
  assert (H : preprocess constant_decoder 2
                (fun _ _ _ => inl ZeroDivisionError)
                (fun _ _ _ _ => inl ZeroDivisionError) "sample.wav" true true
                true false (8 / 10)
              = inr (out, 2%Z)).
  { unfold preprocess, load_audio, constant_decoder, reduce_noise,
      trim_silence, true_div.
    cbn [bind ret Z.eqb]. rewrite Hout. reflexivity. }
  exists out. split; [exact H |].
  exact (proj1 (proj2 (preprocess_normalized _ _ _ _ _ _ _ _ _ _ _ H))).
Defined.

Lemma normalize_audio_raises (audio : list R) (target_level : R) (e : exn) :
  normalize_audio audio target_level = inl e ->
  audio = []
  /\ e = ValueError
           "zero-size array to reduction operation maximum which has no identity".
Proof.
  destruct audio as [| x audio].
  - intros H. injection H as <-. split; reflexivity.
  - unfold normalize_audio. cbn [map np_max]. rewrite bind_ret_l.
    destruct (Rgtb _ 0); discriminate.
Qed.

Lemma apply_pre_emphasis_raises (audio : list R) (coef : R) (e : exn) :
  apply_pre_emphasis audio coef = inl e ->
  audio = []
  /\ e = IndexError "index 0 is out of bounds for axis 0 with size 0".
Proof.
  destruct audio as [| x audio]; [| discriminate].
  intros H. injection H as <-. split; reflexivity.
Qed.

(** X22. No failure of the noise reducer or of the trimmer leaves
    [preprocess]: when it raises, either loading the file raised that
    exception, or the signal had become empty before pre-emphasis or
    normalization. *)
Theorem preprocess_raises
  (librosa_load : string -> Z -> py (list R * Z)) (target_sr : Z)
  (nr_reduce_noise : list R -> Z -> R -> py (list R))
  (librosa_effects_trim :
     list R -> R -> nat -> nat -> py (list R * (nat * nat)))
  (file_path : string)
  (apply_noise_reduction apply_normalization apply_trimming
     apply_pre_emphasis_flag : bool)
  (noise_strength : R) (e : exn) :
  preprocess librosa_load target_sr nr_reduce_noise librosa_effects_trim
    file_path apply_noise_reduction apply_normalization apply_trimming
    apply_pre_emphasis_flag noise_strength
  = inl e ->
  load_audio librosa_load target_sr file_path = inl e
  \/ e = IndexError "index 0 is out of bounds for axis 0 with size 0"
  \/ e = ValueError
           "zero-size array to reduction operation maximum which has no identity".
Proof.
  unfold preprocess. intros H.
  destruct (load_audio librosa_load target_sr file_path)
    as [e0 | [audio0 sr0]] eqn:Hload.
  - left. exact H.
  - right. rewrite bind_ret_l in H.
    destruct (load_audio_rate _ _ _ _ _ Hload) as [Hsr _].
    match type of H with
    | bind ?c _ = _ => destruct c as [e1 | emphasized] eqn:Hemph
    end.
    + injection H as <-. left.
      destruct apply_pre_emphasis_flag; [| discriminate].
      apply apply_pre_emphasis_raises in Hemph. apply Hemph.
    + rewrite bind_ret_l in H.
      match type of H with
      | bind ?c _ = _ => destruct c as [e2 | normalized] eqn:Hnorm
      end.
      * injection H as <-. right.
        destruct apply_normalization; [| discriminate].
        apply normalize_audio_raises in Hnorm. apply Hnorm.
      * rewrite bind_ret_l in H. unfold true_div in H.
        apply Z.eqb_neq in Hsr. rewrite Hsr in H. discriminate.
Qed.

Lemma preprocess_raises_witness :
  preprocess (fun _ sr => inr ([], sr)) 2
    (fun _ _ _ => inl ZeroDivisionError)
    (fun _ _ _ _ => inl ZeroDivisionError) "empty.wav" true true true false
    (8 / 10)
  = inl (ValueError
           "zero-size array to reduction operation maximum which has no identity").
Proof.
  destruct (preprocess (fun _ sr => inr ([], sr)) 2
              (fun _ _ _ => inl ZeroDivisionError)
              (fun _ _ _ _ => inl ZeroDivisionError) "empty.wav" true true true
              false (8 / 10)) as [e | r] eqn:H.
  - destruct (preprocess_raises _ _ _ _ _ _ _ _ _ _ _ H) as [Hl | [He | He]].
    + discriminate.
    + exfalso. revert H. subst e. discriminate.
    + subst e. reflexivity.
  - discriminate.
Defined.

(** ** Validation: the whole of it *)

Lemma np_sign_step (x y : R) : Rabs (np_sign y - np_sign x) <= 2.
Proof.
  unfold np_sign.
  destruct (Rlt_dec x 0), (Rlt_dec 0 x), (Rlt_dec y 0), (Rlt_dec 0 y);
    apply Rabs_le; lra.
Qed.

Lemma Rsum_abs_nonneg (l : list R) : 0 <= Rsum (map Rabs l).
Proof.
  induction l as [| x l IH]; [simpl; lra |].
  change (Rsum (map Rabs (x :: l))) with (Rabs x + Rsum (map Rabs l)).
  pose proof (Rabs_pos x). lra.
Qed.

(** Between [n] samples there are at most [n - 1] sign changes, each
    counted as at most 2. *)
Lemma sign_changes_bound (x : R) (l : list R) :
  Rsum (map Rabs (np_diff (map np_sign (x :: l)))) <= 2 * INR (length l).
Proof.
  revert x. induction l as [| y l IH]; intros x; [simpl; lra |].
  change (Rsum (map Rabs (np_diff (map np_sign (x :: y :: l)))))
    with (Rabs (np_sign y - np_sign x)
          + Rsum (map Rabs (np_diff (map np_sign (y :: l))))).
  change (length (y :: l)) with (S (length l)). rewrite S_INR.
  pose proof (np_sign_step x y). specialize (IH y). lra.
Qed.

Lemma zero_crossing_rate_range (audio : list R) :
  audio <> [] ->
  0 <= Rsum (map Rabs (np_diff (map np_sign audio))) / (2 * INR (length audio))
    < 1.
Proof.
  intros Hne. destruct audio as [| x l]; [contradiction |].
  pose proof (sign_changes_bound x l) as Hup.
  pose proof (Rsum_abs_nonneg (np_diff (map np_sign (x :: l)))) as Hlo.
  set (S := Rsum (map Rabs (np_diff (map np_sign (x :: l))))) in *.
  change (length (x :: l)) with (Datatypes.S (length l)). rewrite S_INR.
  pose proof (pos_INR (length l)) as Hn.
  set (n := INR (length l)) in *.
  assert (Hd : 0 < 2 * (n + 1)) by lra.
  assert (Hinv : 0 < / (2 * (n + 1))) by (apply Rinv_0_lt_compat; exact Hd).
  assert (Hone : 2 * (n + 1) * / (2 * (n + 1)) = 1) by (apply Rinv_r; lra).
  unfold Rdiv. split; nra.
Qed.

(** The root mean square of a signal is at most its peak. *)
Lemma rms_le_peak (audio : list R) (p : R) :
  peak audio p ->
  0 <= sqrt (np_mean (map (fun x => x * x) audio)) <= p.
Proof.
  intros Hp. split; [apply sqrt_pos |].
  pose proof (peak_nonneg audio p Hp) as Hp0.
  destruct (np_max_spec _ _ Hp) as [Hin Hle].
  assert (Hne : map (fun x => x * x) audio <> []).
  { destruct audio; [contradiction | discriminate]. }
  assert (Hall : forall y, In y (map (fun x => x * x) audio) ->
                   0 <= y <= p * p).
  { intros y Hy. apply in_map_iff in Hy. destruct Hy as [x [<- Hx]].
    assert (Hx1 : Rabs x <= p) by (apply Hle, in_map; exact Hx).
    pose proof (Rabs_pos x) as Hx0.
    assert (Hsq : x * x = Rabs x * Rabs x).
    { rewrite <- Rabs_mult. symmetry. apply Rabs_pos_eq.
      pose proof (Rle_0_sqr x) as H. unfold Rsqr in H. exact H. }
    rewrite Hsq.
    split; [apply Rmult_le_pos | apply Rmult_le_compat]; assumption. }
  destruct (np_mean_bounds 0 (p * p) _ Hne Hall) as [Hm0 Hm1].
  rewrite <- (sqrt_square p Hp0).
  apply sqrt_le_1; [exact Hm0 | nra | exact Hm1].
Qed.

(** What a valid result says about the file. *)
Lemma validate_audio_valid_inv
  (path_exists : string -> bool) (getsize : string -> Z)
  (librosa_load : string -> Z -> py (list R * Z)) (target_sr : Z)
  (file_path : string) (min_duration max_duration : R) :
  Validation.valid
    (validate_audio path_exists getsize librosa_load target_sr file_path
       min_duration max_duration)
  = true ->
  path_exists file_path = true
  /\ (getsize file_path <= 16 * 1024 * 1024)%Z
  /\ exists audio sr p,
       load_audio librosa_load target_sr file_path = inr (audio, sr)
       /\ peak audio p /\ 1 / 1000 <= p
       /\ min_duration <= INR (length audio) / IZR sr <= max_duration
       /\ validate_audio path_exists getsize librosa_load target_sr file_path
            min_duration max_duration
          = Validation.mk true None (Some (INR (length audio) / IZR sr))
              (Some sr) (Some (length audio))
              (Some (sqrt (np_mean (map (fun x => x * x) audio))))
              (Some (Rsum (map Rabs (np_diff (map np_sign audio)))
                     / (2 * INR (length audio)))).
Proof.
  unfold validate_audio.
  destruct (path_exists file_path); [| discriminate]. cbn [negb].
  destruct (Z.ltb (16 * 1024 * 1024) (getsize file_path)) eqn:Hsize;
    [discriminate |].
  apply Z.ltb_ge in Hsize.
  destruct (load_audio librosa_load target_sr file_path)
    as [e | [audio sr]] eqn:Hload; [discriminate |].
  rewrite bind_ret_l.
  destruct (load_audio_rate _ _ _ _ _ Hload) as [Hsr _].
  unfold true_div. apply Z.eqb_neq in Hsr. rewrite Hsr, bind_ret_l.
  unfold Rgtb.
  destruct (Rlt_dec (INR (length audio) / IZR sr) min_duration) as [Hs | Hs];
    [rewrite (Rltb_true _ _ Hs); discriminate |].
  rewrite (Rltb_false _ min_duration) by lra.
  destruct (Rlt_dec max_duration (INR (length audio) / IZR sr)) as [Hl | Hl];
    [rewrite (Rltb_true _ _ Hl); discriminate |].
  rewrite (Rltb_false max_duration) by lra.
  destruct (np_max (map Rabs audio)) as [e | p] eqn:Hp; [discriminate |].
  rewrite bind_ret_l.
  destruct (Rlt_dec p (1 / 1000)) as [Hq | Hq];
    [rewrite (Rltb_true _ _ Hq); discriminate |].
  rewrite (Rltb_false p) by lra.
  intros _. split; [reflexivity | split; [exact Hsize |]].
  exists audio, sr, p.
  split; [reflexivity | split; [exact Hp | split; [lra |]]].
  split; [lra | reflexivity].
Qed.

Lemma peak_not_silent (audio : list R) (p : R) :
  peak audio p -> 1 / 1000 <= p -> not_silent audio.
Proof.
  intros Hp Hloud. destruct (np_max_spec _ _ Hp) as [Hin _].
  apply in_map_iff in Hin. destruct Hin as [x [Hx Hin]].
  exists x. split; [exact Hin | rewrite Hx; exact Hloud].
Qed.

(** X23. [validate_audio] accepts a file exactly when the file exists,
    is at most 16 MiB, loads, lasts between the two bounds (both
    included) and has a sample of amplitude at least 0.001. *)
Theorem validate_audio_accepts_iff
  (path_exists : string -> bool) (getsize : string -> Z)
  (librosa_load : string -> Z -> py (list R * Z)) (target_sr : Z)
  (file_path : string) (min_duration max_duration : R) :
  Validation.valid
    (validate_audio path_exists getsize librosa_load target_sr file_path
       min_duration max_duration)
  = true
  <-> path_exists file_path = true
      /\ (getsize file_path <= 16 * 1024 * 1024)%Z
      /\ exists audio sr,
           load_audio librosa_load target_sr file_path = inr (audio, sr)
           /\ min_duration <= INR (length audio) / IZR sr <= max_duration
           /\ not_silent audio.
Proof.
  split.
  - intros H. apply validate_audio_valid_inv in H.
    destruct H as [Hex [Hsize [audio [sr [p [Hload [Hp [Hloud [Hd _]]]]]]]]].
    split; [exact Hex | split; [exact Hsize |]].
    exists audio, sr.
    split; [exact Hload | split; [exact Hd |]].
    exact (peak_not_silent audio p Hp Hloud).
  - intros [Hex [Hsize [audio [sr [Hload [Hd Hloud]]]]]].
    apply (validate_audio_valid_iff path_exists getsize librosa_load target_sr
             file_path audio sr min_duration max_duration Hex Hsize Hload
             Hloud).
    exact Hd.
Qed.

Lemma validate_audio_accepts_iff_witness :
  Validation.valid
    (validate_audio (fun _ => true) (fun _ => 32044%Z) constant_decoder 2
       "sample.wav" 2 30)
  = true.
Proof.
  apply (validate_audio_accepts_iff (fun _ => true) (fun _ => 32044%Z)
           constant_decoder 2 "sample.wav" 2 30).
  split; [reflexivity | split; [lia |]].
  exists two_seconds, 2%Z.
  split; [reflexivity | split; [| exact two_seconds_not_silent]].
  rewrite two_seconds_duration. lra.
Defined.

(** X24. The diagnostics of a valid result are in range: the energy lies
    between 0 and the peak amplitude of the recording, the zero-crossing
    rate lies in [0, 1), and the sample count and rate are those of the
    loaded recording. *)
Theorem validate_audio_diagnostics
  (path_exists : string -> bool) (getsize : string -> Z)
  (librosa_load : string -> Z -> py (list R * Z)) (target_sr : Z)
  (file_path : string) (min_duration max_duration : R) :
  let r := validate_audio path_exists getsize librosa_load target_sr
             file_path min_duration max_duration in
  Validation.valid r = true ->
  exists audio sr p energy zcr,
    load_audio librosa_load target_sr file_path = inr (audio, sr)
    /\ peak audio p
    /\ Validation.energy r = Some energy
    /\ 0 <= energy <= p
    /\ Validation.zero_crossing_rate r = Some zcr
    /\ 0 <= zcr < 1
    /\ Validation.num_samples r = Some (length audio)
    /\ Validation.sample_rate r = Some sr
    /\ Validation.error r = None.
Proof.
  intros r H. subst r.
  destruct (validate_audio_valid_inv _ _ _ _ _ _ _ H)
    as [_ [_ [audio [sr [p [Hload [Hp [_ [_ ->]]]]]]]]].
  exists audio, sr, p. eexists. eexists.
  split; [exact Hload | split; [exact Hp |]].
  split; [reflexivity | split; [exact (rms_le_peak audio p Hp) |]].
  split; [reflexivity | split; [| repeat split]].
  apply zero_crossing_rate_range.
  intros ->. discriminate.
Qed.

Lemma validate_audio_diagnostics_witness :
  exists zcr,
    Validation.zero_crossing_rate
      (validate_audio (fun _ => true) (fun _ => 32044%Z) constant_decoder 2
         "sample.wav" 2 30)
    = Some zcr
    /\ 0 <= zcr < 1.
Proof.
  destruct (validate_audio_diagnostics (fun _ => true) (fun _ => 32044%Z)
              constant_decoder 2 "sample.wav" 2 30)
    as [audio [sr [p [energy [zcr [_ [_ [_ [_ [Hz [Hr _]]]]]]]]]]].
  - apply (validate_audio_valid_iff (fun _ => true) (fun _ => 32044%Z)
             constant_decoder 2 "sample.wav" two_seconds 2 2 30 eq_refl).
    + lia.
    + reflexivity.
    + exact two_seconds_not_silent.
    + rewrite two_seconds_duration. lra.
  - exists zcr. split; assumption.
Defined.

(** X25. The duration in a valid result is the one [get_audio_duration]
    gives for the file, and it lies between the bounds; for a file that
    does not load [get_audio_duration] gives 0.0. *)
Theorem validated_duration
  (path_exists : string -> bool) (getsize : string -> Z)
  (librosa_load : string -> Z -> py (list R * Z)) (target_sr : Z)
  (file_path : string) (min_duration max_duration : R) :
  let r := validate_audio path_exists getsize librosa_load target_sr
             file_path min_duration max_duration in
  (Validation.valid r = true ->
   Validation.duration r
   = Some (get_audio_duration librosa_load target_sr file_path)
   /\ min_duration <= get_audio_duration librosa_load target_sr file_path
      <= max_duration)
  /\ ((exists e, load_audio librosa_load target_sr file_path = inl e) ->
      get_audio_duration librosa_load target_sr file_path = 0
      /\ Validation.valid r = false).
Proof.
  intros r. subst r. split.
  - intros H.
    destruct (validate_audio_valid_inv _ _ _ _ _ _ _ H)
      as [_ [_ [audio [sr [p [Hload [_ [_ [Hd ->]]]]]]]]].
    destruct (load_audio_rate _ _ _ _ _ Hload) as [Hsr _].
    assert (Hdur : get_audio_duration librosa_load target_sr file_path
                   = INR (length audio) / IZR sr).
    { unfold get_audio_duration. rewrite Hload, bind_ret_l.
      unfold true_div. apply Z.eqb_neq in Hsr. rewrite Hsr. reflexivity. }
    rewrite Hdur. split; [reflexivity | exact Hd].
  - intros [e He]. split.
    + unfold get_audio_duration. rewrite He. reflexivity.
    + unfold validate_audio. rewrite He.
      destruct (path_exists file_path); [| reflexivity]. cbn [negb].
      destruct (Z.ltb (16 * 1024 * 1024) (getsize file_path)); reflexivity.
Qed.

Lemma validated_duration_witness :
  Validation.duration
    (validate_audio (fun _ => true) (fun _ => 32044%Z) constant_decoder 2
       "sample.wav" 2 30)
  = Some (get_audio_duration constant_decoder 2 "sample.wav").
Proof.
  apply (validated_duration (fun _ => true) (fun _ => 32044%Z)
           constant_decoder 2 "sample.wav" 2 30).
  apply (validate_audio_valid_iff (fun _ => true) (fun _ => 32044%Z)
           constant_decoder 2 "sample.wav" two_seconds 2 2 30 eq_refl).
  - lia.
  - reflexivity.
  - exact two_seconds_not_silent.
  - rewrite two_seconds_duration. lra.
Defined.

(** ** File names *)

Lemma existsb_eqb_In (x : string) (l : list string) :
  existsb (String.eqb x) l = true <-> In x l.
Proof.
  rewrite existsb_exists. split.
  - intros [y [Hy Heq]]. apply String.eqb_eq in Heq. subst y. exact Hy.
  - intros H. exists x. split; [exact H | apply String.eqb_refl].
Qed.

Lemma has_dot_app (a b : string) :
  has_dot (a ++ b) = has_dot a || has_dot b.
Proof.
  induction a as [| c a IH]; [reflexivity |].
  cbn [String.append has_dot]. rewrite IH. apply orb_assoc.
Qed.

Lemma has_dot_middle (a b : string) : has_dot (a ++ "." ++ b) = true.
Proof.
  rewrite has_dot_app. destruct (has_dot a); reflexivity.
Qed.

Lemma cut_last_dot_none (s : string) :
  cut_last_dot s = None <-> has_dot s = false.
Proof.
  induction s as [| c s IH]; [split; reflexivity |].
  cbn [cut_last_dot has_dot].
  destruct (cut_last_dot s) as [[a b] |].
  - split; [discriminate |]. intros H.
    apply orb_false_elim in H. destruct H as [_ H].
    apply IH in H. discriminate.
  - destruct (Ascii.eqb c "."); [split; discriminate |].
    cbn [orb]. split; [intros _; apply IH; reflexivity | reflexivity].
Qed.

(** The cut at the last dot: what follows has no dot, and the name is
    the two parts around a dot. *)
Lemma cut_last_dot_some (s before after : string) :
  cut_last_dot s = Some (before, after) <->
  s = (before ++ "." ++ after)%string /\ dotless after.
Proof.
  revert before. induction s as [| c s IH]; intros before.
  - split; [discriminate |]. intros [H _].
    destruct before; discriminate.
  - cbn [cut_last_dot].
    destruct (cut_last_dot s) as [[a b] |] eqn:Hcut.
    + split.
      * intros H. injection H as <- <-.
        destruct (proj1 (IH a) eq_refl) as [-> Hd].
        split; [reflexivity | exact Hd].
      * intros [H Hd]. destruct before as [| c' before'].
        -- cbn in H. injection H as -> ->.
           apply cut_last_dot_none in Hd. rewrite Hd in Hcut. discriminate.
        -- cbn in H. injection H as -> H.
           assert (Hs : Some (a, b) = Some (before', after))
             by (apply IH; split; assumption).
           injection Hs as -> ->. reflexivity.
    + pose proof (proj1 (cut_last_dot_none s) Hcut) as Hnd.
      destruct (Ascii.eqb c ".") eqn:Hc.
      * apply Ascii.eqb_eq in Hc. subst c. split.
        -- intros H. injection H as <- <-. split; [reflexivity | exact Hnd].
        -- intros [H Hd]. destruct before as [| c' before'].
           ++ cbn in H. injection H as ->. reflexivity.
           ++ cbn in H. injection H as <- H. exfalso.
              assert (Ht : has_dot s = true)
                by (rewrite H; apply (has_dot_middle before' after)).
              rewrite Ht in Hnd. discriminate.
      * split; [discriminate |]. intros [H Hd]. exfalso.
        destruct before as [| c' before'].
        -- cbn in H. injection H as -> _. discriminate.
        -- cbn in H. injection H as -> H.
           assert (Ht : has_dot s = true)
             by (rewrite H; apply (has_dot_middle before' after)).
           rewrite Ht in Hnd. discriminate.
Qed.

(** X26. [allowed_file] accepts a name exactly when the name has a dot
    and what follows its last dot, in lower case, is an allowed
    extension. *)
Theorem allowed_file_iff (filename : string) (allowed_extensions : list string) :
  allowed_file filename allowed_extensions = true <->
  exists stem extension,
    filename = (stem ++ "." ++ extension)%string
    /\ dotless extension
    /\ In (py_lower extension) allowed_extensions.
Proof.
  unfold allowed_file, rsplit_dot_1.
  destruct (cut_last_dot filename) as [[a b] |] eqn:Hcut.
  - apply cut_last_dot_some in Hcut. destruct Hcut as [Hf Hd].
    cbn [nth]. split.
    + intros H. apply andb_prop in H. destruct H as [_ H].
      exists a, b. split; [exact Hf | split; [exact Hd |]].
      apply existsb_eqb_In. exact H.
    + intros [stem [ext [Hf' [Hd' Hin]]]].
      assert (Hs : Some (a, b) = Some (stem, ext)).
      { rewrite <- (proj2 (cut_last_dot_some filename a b) (conj Hf Hd)).
        apply cut_last_dot_some. split; assumption. }
      injection Hs as -> ->.
      apply andb_true_intro. split.
      * rewrite Hf. apply has_dot_middle.
      * apply existsb_eqb_In. exact Hin.
  - pose proof (proj1 (cut_last_dot_none filename) Hcut) as Hnd.
    rewrite Hnd. cbn [andb]. split; [discriminate |].
    intros [stem [ext [Hf _]]]. exfalso.
    rewrite Hf, has_dot_middle in Hnd. discriminate.
Qed.

Lemma allowed_file_iff_witness :
  allowed_file "Voice.Sample.WAV" ["wav"; "mp3"; "m4a"; "ogg"; "flac"]%string
  = true.
Proof.
  apply (allowed_file_iff "Voice.Sample.WAV").
  exists "Voice.Sample"%string, "WAV"%string.
  split; [reflexivity | split; [reflexivity |]].
  left. reflexivity.
Defined.

Lemma ascii_lower_dot (c : ascii) :
  Ascii.eqb (ascii_lower c) "." = Ascii.eqb c ".".
Proof.
  destruct c as [[] [] [] [] [] [] [] []]; reflexivity.
Qed.

Lemma ascii_lower_idempotent (c : ascii) :
  ascii_lower (ascii_lower c) = ascii_lower c.
Proof.
  destruct c as [[] [] [] [] [] [] [] []]; reflexivity.
Qed.

Lemma py_lower_idempotent (s : string) : py_lower (py_lower s) = py_lower s.
Proof.
  induction s as [| c s IH]; [reflexivity |].
  cbn [py_lower]. rewrite ascii_lower_idempotent, IH. reflexivity.
Qed.

Lemma py_lower_dotless (s : string) : has_dot (py_lower s) = has_dot s.
Proof.
  induction s as [| c s IH]; [reflexivity |].
  cbn [py_lower has_dot]. rewrite ascii_lower_dot, IH. reflexivity.
Qed.

(** What [allowed_file] computes on a name given by its two parts. *)
Lemma allowed_file_parts (stem extension : string)
  (allowed_extensions : list string) :
  dotless extension ->
  allowed_file (stem ++ "." ++ extension) allowed_extensions
  = existsb (String.eqb (py_lower extension)) allowed_extensions.
Proof.
  intros Hd. unfold allowed_file, rsplit_dot_1.
  rewrite (proj2 (cut_last_dot_some (stem ++ "." ++ extension) stem extension)
             (conj eq_refl Hd)).
  rewrite has_dot_middle. reflexivity.
Qed.

(** X27. [allowed_file] does not look at the case of the extension nor
    at what comes before the last dot: a name is accepted exactly when
    any other name with the same extension in lower case is. *)
Theorem allowed_file_case_insensitive (stem stem' extension : string)
  (allowed_extensions : list string) :
  dotless extension ->
  allowed_file (stem ++ "." ++ extension) allowed_extensions
  = allowed_file (stem' ++ "." ++ py_lower extension) allowed_extensions.
Proof.
  intros Hd.
  rewrite (allowed_file_parts stem extension _ Hd).
  rewrite (allowed_file_parts stem' (py_lower extension)).
  - rewrite py_lower_idempotent. reflexivity.
  - unfold dotless. rewrite py_lower_dotless. exact Hd.
Qed.

Lemma allowed_file_case_insensitive_witness :
  allowed_file "a.Mp3" ["wav"; "mp3"]%string
  = allowed_file "other.name.mp3" ["wav"; "mp3"]%string.
Proof.
  apply (allowed_file_case_insensitive "a" "other.name" "Mp3").
  reflexivity.
Defined.

Lemma replace_dots_app (new a b : string) :
  replace_dots new (a ++ b)
  = (replace_dots new a ++ replace_dots new b)%string.
Proof.
  induction a as [| c a IH]; [reflexivity |].
  cbn [String.append replace_dots]. rewrite IH.
  destruct (Ascii.eqb c "."); [| reflexivity].
  rewrite string_app_assoc. reflexivity.
Qed.

Lemma replace_dots_dotless (new s : string) :
  dotless s -> replace_dots new s = s.
Proof.
  unfold dotless. induction s as [| c s IH]; [reflexivity |].
  cbn [has_dot replace_dots]. intros H.
  apply orb_false_elim in H. destruct H as [Hc Hs].
  rewrite Hc, (IH Hs). reflexivity.
Qed.

Lemma string_length_app (a b : string) :
  String.length (a ++ b) = (String.length a + String.length b)%nat.
Proof.
  induction a as [| c a IH]; [reflexivity |].
  cbn [String.append String.length]. rewrite IH. reflexivity.
Qed.

Lemma replace_dots_longer (s : string) :
  has_dot s = true ->
  (String.length s < String.length (processed_name s))%nat.
Proof.
  unfold processed_name.
  induction s as [| c s IH]; [discriminate |].
  cbn [has_dot replace_dots String.length].
  assert (Hle : forall t : string,
            (String.length t <= String.length (replace_dots "_processed." t))%nat).
  { clear. induction t as [| c t IH]; [reflexivity |].
    cbn [replace_dots]. destruct (Ascii.eqb c ".").
    - rewrite string_length_app. cbn [String.length] in *. lia.
    - cbn [String.length]. lia. }
  destruct (Ascii.eqb c ".").
  - intros _. rewrite string_length_app. cbn [String.length].
    specialize (Hle s). lia.
  - cbn [orb String.length]. intros H. specialize (IH H). lia.
Qed.

(** X28. The name [filename.replace('.', '_processed.')] under which the
    routes save the preprocessed audio passes [allowed_file] exactly when
    the uploaded name does; it differs from the uploaded name when that
    has a dot, and is the uploaded name itself when it has none. *)
Theorem processed_name_allowed (filename : string)
  (allowed_extensions : list string) :
  allowed_file (processed_name filename) allowed_extensions
  = allowed_file filename allowed_extensions
  /\ (has_dot filename = true -> processed_name filename <> filename)
  /\ (has_dot filename = false -> processed_name filename = filename).
Proof.
  split; [| split].
  - destruct (cut_last_dot filename) as [[a b] |] eqn:Hcut.
    + apply cut_last_dot_some in Hcut. destruct Hcut as [-> Hd].
      unfold processed_name.
      assert (Hb : replace_dots "_processed." ("." ++ b)
                   = ("_processed" ++ "." ++ b)%string).
      { change (replace_dots "_processed." ("." ++ b))
          with ("_processed." ++ replace_dots "_processed." b)%string.
        rewrite replace_dots_dotless by exact Hd. reflexivity. }
      rewrite replace_dots_app, Hb, <- string_app_assoc.
      rewrite !allowed_file_parts by exact Hd. reflexivity.
    + apply cut_last_dot_none in Hcut.
      unfold processed_name. rewrite replace_dots_dotless by exact Hcut.
      reflexivity.
  - intros Hd Heq. pose proof (replace_dots_longer filename Hd) as H.
    rewrite Heq in H. lia.
  - intros Hd. apply replace_dots_dotless. exact Hd.
Qed.

Lemma processed_name_allowed_witness :
  processed_name "identify_20240101_a.b.wav"
  = "identify_20240101_a_processed.b_processed.wav"%string
  /\ processed_name "identify_20240101_a.b.wav"
     <> "identify_20240101_a.b.wav"%string.
Proof.
  split; [reflexivity |].
  apply (processed_name_allowed "identify_20240101_a.b.wav" []).
  reflexivity.
Defined.

(** ** Configuration *)

Lemma config_validate_iff (c : Config.t) :
  fst (config_validate c) = true <->
  (exists uri, Config.MONGODB_URI c = Some uri /\ uri <> EmptyString)
  /\ 0 <= Config.SIMILARITY_THRESHOLD c <= 1
  /\ (0 < Config.MIN_AUDIO_DURATION c < Config.MAX_AUDIO_DURATION c)%Z.
Proof.
  unfold config_validate, Rleb.
  destruct (Config.MONGODB_URI c) as [[| ch uri] |];
    destruct (Rle_dec 0 (Config.SIMILARITY_THRESHOLD c)) as [H0 | H0];
    destruct (Rle_dec (Config.SIMILARITY_THRESHOLD c) 1) as [H1 | H1];
    destruct (Z.leb_spec (Config.MIN_AUDIO_DURATION c) 0) as [Hmin | Hmin];
    destruct (Z.leb_spec (Config.MAX_AUDIO_DURATION c)
                (Config.MIN_AUDIO_DURATION c)) as [Hmax | Hmax];
    cbn; split;
    try discriminate;
    try (intros [[u [Hu Hne]] [[Ha Hb] [Hc Hd]]];
         first [discriminate | lra | lia | (injection Hu as <-; contradiction)]).
  intros _. split; [| split; [lra | lia]].
  eexists. split; [reflexivity | discriminate].
Qed.

(** X29. A configuration passes [Config.validate] exactly when the
    database URI is set, the threshold lies in [0, 1] and
    0 < MIN_AUDIO_DURATION < MAX_AUDIO_DURATION; it then lists no error,
    and [validate_audio], called with the configured bounds as the routes
    call it, accepts a recording that can be heard and lasts exactly the
    minimum or exactly the maximum. *)
Theorem validated_config
  (c : Config.t)
  (path_exists : string -> bool) (getsize : string -> Z)
  (librosa_load : string -> Z -> py (list R * Z)) (target_sr : Z)
  (file_path : string) (audio : list R) (sr : Z) :
  (fst (config_validate c) = true <->
   (exists uri, Config.MONGODB_URI c = Some uri /\ uri <> EmptyString)
   /\ 0 <= Config.SIMILARITY_THRESHOLD c <= 1
   /\ (0 < Config.MIN_AUDIO_DURATION c < Config.MAX_AUDIO_DURATION c)%Z)
  /\ (fst (config_validate c) = true ->
      snd (config_validate c) = []
      /\ (path_exists file_path = true ->
          (getsize file_path <= 16 * 1024 * 1024)%Z ->
          load_audio librosa_load target_sr file_path = inr (audio, sr) ->
          not_silent audio ->
          INR (length audio) / IZR sr = IZR (Config.MIN_AUDIO_DURATION c)
          \/ INR (length audio) / IZR sr = IZR (Config.MAX_AUDIO_DURATION c) ->
          Validation.valid
            (validate_audio path_exists getsize librosa_load target_sr
               file_path (IZR (Config.MIN_AUDIO_DURATION c))
               (IZR (Config.MAX_AUDIO_DURATION c)))
          = true)).
Proof.
  split; [apply config_validate_iff |].
  intros Hvalid. split.
  - change (fst (config_validate c))
      with (Nat.eqb (length (snd (config_validate c))) 0) in Hvalid.
    destruct (snd (config_validate c)) as [| e errors];
      [reflexivity | discriminate].
  - intros Hex Hsize Hload Hloud Hd.
    apply config_validate_iff in Hvalid.
    destruct Hvalid as [_ [_ [Hmin Hmax]]].
    apply IZR_lt in Hmax.
    apply (validate_audio_valid_iff path_exists getsize librosa_load target_sr
             file_path audio sr _ _ Hex Hsize Hload Hloud).
    destruct Hd as [-> | ->]; lra.
Qed.

Lemma validated_config_witness :
  let c := Config.mk (Some "mongodb://localhost"%string) (65 / 100) 2 30 in
  config_validate c = (true, [])
  /\ Validation.valid
       (validate_audio (fun _ => true) (fun _ => 32044%Z) constant_decoder 2
          "sample.wav" (IZR (Config.MIN_AUDIO_DURATION c))
          (IZR (Config.MAX_AUDIO_DURATION c)))
     = true.
Proof.
  intros c.
  destruct (validated_config c (fun _ => true) (fun _ => 32044%Z)
              constant_decoder 2 "sample.wav" two_seconds 2)
    as [Hiff Hrest].
  assert (Hv : fst (config_validate c) = true).
  { apply Hiff. split; [| split; [cbn; lra | cbn; lia]].
    eexists. split; [reflexivity | discriminate]. }
  destruct (Hrest Hv) as [Herrors Hfile].
  split.
  - destruct (config_validate c) as [b errors]. cbn in Hv, Herrors.
    subst. reflexivity.
  - apply Hfile; [reflexivity | lia | reflexivity
                  | exact two_seconds_not_silent |].
    left. cbn. exact two_seconds_duration.
Defined.
